(** * djeno: a Django/Jinja-like template engine (src/lib/djeno.ts)

    A shallow embedding of the lexer, the frame-stack parser, the expression
    evaluator, the filter registry, the renderer and the template loader,
    followed by the properties of the specification that are stated about
    them.

    The source file holds several successive versions of the module; the
    embedding follows the last one, the one with token positions,
    [splitUnquoted] and [SafeString].

    Conventions of the embedding.
    - A JavaScript array is a list and [push] appends at its end; the stack
      of frames is a list whose head is the top of the stack.
    - JavaScript strings are sequences of UTF-16 code units; they are
      modelled by [string], i.e. by the code units below 256 (Latin-1), with
      the white space and the letters that JavaScript sees among them.  An
      operation whose result is not such a string has the outcome [Beyond].
    - JavaScript numbers are the finite doubles: a number is kept as a
      decimal (an integer mantissa and a count of fractional digits),
      rounded to the nearest double where it is compared or printed;
      [numToString] is [Number.prototype.toString], with its shortest digits
      and its exponent form; a decimal too large for a double stands for
      an infinity.  NaN is not a value here.
    - A JavaScript object used as a map ([Context], a mapping value, the
      filter registry, the block table) is modelled by its own enumerable
      data properties, in the order of their creation, together with what it
      inherits from [Object.prototype]: a read of a name that is not an own
      property finds the member of [Object.prototype], [Object.entries]
      lists the own properties with the array indices first, and an
      assignment to [__proto__] runs the inherited setter.
    - A callable of the context is opaque: it is named by an identifier and
      run by an oracle [callFn] that either returns a value or throws.
    - Exceptions are the [Throw] outcome of [result]; of an error of the
      host only the fact that it is thrown is kept, under the message
      [TypeError].  Recursion that the source bounds only by the call stack
      takes a fuel argument, and [OutOfFuel] is the outcome of running out of
      it.  [Beyond] is the outcome of a run that reaches a part of the host
      that is not described here (the members of [Array.prototype] and
      [Function.prototype], the wrapper objects of primitives, an object
      whose prototype has been replaced). *)

From Stdlib Require Import List String Ascii ZArith Lia Bool Arith DecimalString.
Import ListNotations.
Open Scope string_scope.
Open Scope nat_scope.
Set Warnings "-register-all".

(** ** Strings *)

Definition dquote : ascii := "034"%char.
Definition squote : ascii := "039"%char.
Definition backslash : ascii := "092"%char.
Definition newline : ascii := "010"%char.
Definition DQ : string := String dquote EmptyString.
Definition SQ : string := String squote EmptyString.
Definition NL : string := String newline EmptyString.

Definition code (c : ascii) : nat := nat_of_ascii c.

(** White space and line terminators, as [\s] and [String.prototype.trim]
    see them among the code units below 256: tab, line feed, vertical tab,
    form feed, carriage return, space and the no-break space U+00A0. *)
Definition is_space (c : ascii) : bool :=
  let n := code c in
  ((9 <=? n) && (n <=? 13)) || (n =? 32) || (n =? 160).

(** A line terminator: what [.] refuses without the [s] flag. *)
Definition is_line_terminator (c : ascii) : bool :=
  let n := code c in (n =? 10) || (n =? 13).

Definition is_digit (c : ascii) : bool :=
  let n := code c in (48 <=? n) && (n <=? 57).

Definition is_upper (c : ascii) : bool :=
  let n := code c in (65 <=? n) && (n <=? 90).

Definition is_lower (c : ascii) : bool :=
  let n := code c in (97 <=? n) && (n <=? 122).

(** [A-Za-z_$] *)
Definition is_ident_start (c : ascii) : bool :=
  is_upper c || is_lower c || (code c =? 95) || (code c =? 36).

(** [A-Za-z0-9_$] *)
Definition is_ident_part (c : ascii) : bool :=
  is_ident_start c || is_digit c.

(** [\w] *)
Definition is_word (c : ascii) : bool :=
  is_upper c || is_lower c || is_digit c || (code c =? 95).

Fixpoint trimStart (s : string) : string :=
  match s with
  | EmptyString => EmptyString
  | String c r => if is_space c then trimStart r else s
  end.

Fixpoint trimEnd (s : string) : string :=
  match s with
  | EmptyString => EmptyString
  | String c r =>
      match trimEnd r with
      | EmptyString => if is_space c then EmptyString else String c EmptyString
      | r' => String c r'
      end
  end.

Definition trim (s : string) : string := trimEnd (trimStart s).

Fixpoint drop (n : nat) (s : string) : string :=
  match n, s with
  | 0, _ => s
  | S _, EmptyString => EmptyString
  | S n', String _ r => drop n' r
  end.

Fixpoint take (n : nat) (s : string) : string :=
  match n, s with
  | 0, _ => EmptyString
  | S _, EmptyString => EmptyString
  | S n', String c r => String c (take n' r)
  end.

(** [s.slice(a, b)] for indices that are not negative. *)
Definition slice (a b : nat) (s : string) : string := take (b - a) (drop a s).

(** [s.startsWith(p)] *)
Definition startsWith (p s : string) : bool := String.prefix p s.

Definition string_of_nat (n : nat) : string :=
  NilZero.string_of_uint (Nat.to_uint n).

Definition string_of_Z (z : Z) : string :=
  NilZero.string_of_int (Z.to_int z).

(** [s.replace(/c/g, rep)] for a one-character pattern. *)
Fixpoint replaceChar (c : ascii) (rep : string) (s : string) : string :=
  match s with
  | EmptyString => EmptyString
  | String x r =>
      if Ascii.eqb x c then rep ++ replaceChar c rep r
      else String x (replaceChar c rep r)
  end.

Fixpoint allChars (p : ascii -> bool) (s : string) : bool :=
  match s with
  | EmptyString => true
  | String c r => p c && allChars p r
  end.

(** The capital letters of Latin-1 above the ASCII ones, U+00C0 to U+00DE
    without the multiplication sign, and the small ones, U+00E0 to U+00FE
    without the division sign. *)
Definition is_upper_latin1 (c : ascii) : bool :=
  let n := code c in (192 <=? n) && (n <=? 222) && negb (n =? 215).

Definition is_lower_latin1 (c : ascii) : bool :=
  let n := code c in (224 <=? n) && (n <=? 254) && negb (n =? 247).

Definition toLowerChar (c : ascii) : ascii :=
  if is_upper c || is_upper_latin1 c then ascii_of_nat (code c + 32) else c.

Definition toUpperChar (c : ascii) : ascii :=
  if is_lower c || is_lower_latin1 c then ascii_of_nat (code c - 32) else c.

(** The two code units below 256 whose upper case is a code unit above 255:
    the micro sign U+00B5 (it gives U+039C) and the y with diaeresis U+00FF
    (it gives U+0178). *)
Definition upperLeavesType (c : ascii) : bool :=
  let n := code c in (n =? 181) || (n =? 255).

(** The sharp s U+00DF, whose upper case is the two letters SS. *)
Definition is_sharp_s (c : ascii) : bool := code c =? 223.

Fixpoint mapString (f : ascii -> ascii) (s : string) : string :=
  match s with
  | EmptyString => EmptyString
  | String c r => String (f c) (mapString f r)
  end.

(** [s.toLowerCase()]: the lower case of a code unit below 256 is a code
    unit below 256. *)
Definition toLowerCase : string -> string := mapString toLowerChar.

(** [s.toUpperCase()], [None] when the result is not a string of code units
    below 256. *)
Fixpoint toUpperCase (s : string) : option string :=
  match s with
  | EmptyString => Some EmptyString
  | String c r =>
      if upperLeavesType c then None
      else
        match toUpperCase r with
        | None => None
        | Some r' =>
            Some (if is_sharp_s c then "SS" ++ r'
                  else String (toUpperChar c) r')
        end
  end.

(** Comparison of strings by code units, as [<] on JavaScript strings. *)
Fixpoint str_ltb (a b : string) : bool :=
  match a, b with
  | _, EmptyString => false
  | EmptyString, String _ _ => true
  | String x a', String y b' =>
      if code x <? code y then true
      else if code y <? code x then false
      else str_ltb a' b'
  end.

(** ** Regular expressions

    The patterns of the source are kept as patterns and run by a
    backtracking matcher with the priorities of JavaScript: alternatives
    left to right, greedy repetition longest first, lazy repetition
    shortest first. *)

Inductive regex : Type :=
| RChar (p : ascii -> bool)
| REps
| RSeq (a b : regex)
| RAlt (a b : regex)
| RStar (greedy : bool) (a : regex)
| RGroup (n : nat) (a : regex)
| RBol
| REol.

Definition cursor : Type := nat * list ascii.
Definition captures : Type := list (nat * (nat * nat)).

(** The loop of a repetition: [step] matches the repeated pattern once, and
    an iteration that consumes nothing is refused.  An iteration consumes
    at least one character, so [fuel] above the length of the rest of the
    input never runs out (lemma [starLoop_fuel]). *)
Fixpoint starLoop {R : Type}
    (step : cursor -> captures -> (cursor -> captures -> option R) -> option R)
    (greedy : bool) (k : cursor -> captures -> option R)
    (fuel : nat) (cur : cursor) (cs : captures) : option R :=
  let more (_ : unit) :=
    match fuel with
    | 0 => None
    | S f =>
        step cur cs
          (fun cur' cs' =>
             if fst cur' <=? fst cur then None
             else starLoop step greedy k f cur' cs')
    end in
  if greedy then
    match more tt with
    | Some x => Some x
    | None => k cur cs
    end
  else
    match k cur cs with
    | Some x => Some x
    | None => more tt
    end.

Fixpoint rmatch {R : Type} (r : regex) (cur : cursor) (cs : captures)
    (k : cursor -> captures -> option R) {struct r} : option R :=
  match r with
  | RChar p =>
      match snd cur with
      | c :: rest => if p c then k (S (fst cur), rest) cs else None
      | [] => None
      end
  | REps => k cur cs
  | RSeq a b => rmatch a cur cs (fun cur' cs' => rmatch b cur' cs' k)
  | RAlt a b =>
      match rmatch a cur cs k with
      | Some x => Some x
      | None => rmatch b cur cs k
      end
  | RStar g a =>
      starLoop (fun c s k' => rmatch a c s k') g k
        (S (List.length (snd cur))) cur cs
  | RGroup n a =>
      rmatch a cur cs
        (fun cur' cs' => k cur' ((n, (fst cur, fst cur')) :: cs'))
  | RBol => if fst cur =? 0 then k cur cs else None
  | REol =>
      match snd cur with
      | [] => k cur cs
      | _ :: _ => None
      end
  end.

(** The result of a successful match: where it starts, where it ends and
    the spans of its groups. *)
Record rmatched : Type := mkMatched {
  m_index : nat;
  m_end : nat;
  m_caps : captures
}.

Fixpoint rsearch (r : regex) (i : nat) (rest : list ascii) : option rmatched :=
  match rmatch r (i, rest) [] (fun c cs => Some (fst c, cs)) with
  | Some (e, cs) => Some (mkMatched i e cs)
  | None =>
      match rest with
      | [] => None
      | _ :: t => rsearch r (S i) t
      end
  end.

(** [re.exec(s)] with the search starting at index [from]. *)
Definition rexec (r : regex) (s : string) (from : nat) : option rmatched :=
  rsearch r from (skipn from (list_ascii_of_string s)).

Fixpoint lookupCap (n : nat) (cs : captures) : option (nat * nat) :=
  match cs with
  | [] => None
  | (m, span) :: t => if m =? n then Some span else lookupCap n t
  end.

(** [m[n]]: the text of group [n], [None] when the group did not take part. *)
Definition group (s : string) (m : rmatched) (n : nat) : option string :=
  match lookupCap n (m_caps m) with
  | Some (a, b) => Some (slice a b s)
  | None => None
  end.

Fixpoint RLit (s : string) : regex :=
  match s with
  | EmptyString => REps
  | String c r => RSeq (RChar (Ascii.eqb c)) (RLit r)
  end.

Definition RAny : regex := RChar (fun _ => true).
Definition RDot : regex := RChar (fun c => negb (is_line_terminator c)).
Definition RSpace : regex := RChar is_space.
Definition RPlus (g : bool) (a : regex) : regex := RSeq a (RStar g a).
Definition ROpt (a : regex) : regex := RAlt a REps.
Definition RQuote : regex :=
  RChar (fun c => Ascii.eqb c dquote || Ascii.eqb c squote).

Fixpoint RCat (rs : list regex) : regex :=
  match rs with
  | [] => REps
  | [r] => r
  | r :: t => RSeq r (RCat t)
  end.

(** ** Tokens and the lexer *)

Record TokenPos : Type := mkPos { line : nat; col : nat; index : nat }.

Inductive TokenType : Type := TText | TVar | TTag | TComment.

Record Token : Type := mkToken {
  type : TokenType;
  content : string;
  pos : TokenPos
}.

Fixpoint countLineColFrom (s : string) (n : nat) (l c : nat) : nat * nat :=
  match n, s with
  | 0, _ => (l, c)
  | S n', EmptyString => countLineColFrom EmptyString n' l (S c)
  | S n', String ch r =>
      if Ascii.eqb ch newline then countLineColFrom r n' (S l) 1
      else countLineColFrom r n' l (S c)
  end.

Definition countLineCol (s : string) (idx : nat) : TokenPos :=
  let '(l, c) := countLineColFrom s idx 1 1 in mkPos l c idx.

(** /({{\s*([\s\S]*?)\s*}})|({%\s*([\s\S]*?)\s*%})|({#([\s\S]*?)#})/g *)
Definition lexRe : regex :=
  RAlt
    (RGroup 1 (RCat [RLit "{{"; RStar true RSpace; RGroup 2 (RStar false RAny);
                     RStar true RSpace; RLit "}}"]))
    (RAlt
       (RGroup 3 (RCat [RLit "{%"; RStar true RSpace;
                        RGroup 4 (RStar false RAny);
                        RStar true RSpace; RLit "%}"]))
       (RGroup 5 (RCat [RLit "{#"; RGroup 6 (RStar false RAny); RLit "#}"]))).

(** [m[n]] is truthy: the group took part and is not empty. *)
Definition nonEmptyGroup (s : string) (m : rmatched) (n : nat) : bool :=
  match group s m n with
  | Some (String _ _) => true
  | _ => false
  end.

(** [m[n]] for a group that took part in the match. *)
Definition groupOr (s : string) (m : rmatched) (n : nat) : string :=
  match group s m n with
  | Some g => g
  | None => EmptyString
  end.

Fixpoint lexLoop (fuel : nat) (template : string) (lastIndex : nat)
    (tokens : list Token) : list Token :=
  let finish :=
    if lastIndex <? String.length template then
      (tokens ++ [mkToken TText (drop lastIndex template)
                    (countLineCol template lastIndex)])%list
    else tokens in
  match fuel with
  | 0 => finish
  | S fuel' =>
      match rexec lexRe template lastIndex with
      | None => finish
      | Some m =>
          let tokens1 :=
            if lastIndex <? m_index m then
              (tokens ++ [mkToken TText (slice lastIndex (m_index m) template)
                            (countLineCol template lastIndex)])%list
            else tokens in
          let p := countLineCol template (m_index m) in
          let tokens2 :=
            if nonEmptyGroup template m 1 then
              (tokens1 ++ [mkToken TVar (trim (groupOr template m 2)) p])%list
            else if nonEmptyGroup template m 3 then
              (tokens1 ++ [mkToken TTag (trim (groupOr template m 4)) p])%list
            else if nonEmptyGroup template m 5 then
              (tokens1 ++ [mkToken TComment (groupOr template m 6) p])%list
            else tokens1 in
          lexLoop fuel' template (m_end m) tokens2
      end
  end.

(** Every match is at least four characters long, so the loop runs at most
    [length template / 4] times and the fuel is never used up (lemma
    [lexLoop_fuel]). *)
Definition lex (template : string) : list Token :=
  lexLoop (S (String.length template)) template 0 [].

(** ** Splitting outside quotes *)

Definition snoc (buf : string) (ch : ascii) : string :=
  buf ++ String ch EmptyString.

Fixpoint splitLoop (sep : ascii) (input : string) (parts : list string)
    (buf : string) (inSingle inDouble escape : bool) : list string :=
  match input with
  | EmptyString => (parts ++ [buf])%list
  | String ch r =>
      if escape then
        splitLoop sep r parts (snoc buf ch) inSingle inDouble false
      else if Ascii.eqb ch backslash then
        splitLoop sep r parts (snoc buf ch) inSingle inDouble true
      else if Ascii.eqb ch squote && negb inDouble then
        splitLoop sep r parts (snoc buf ch) (negb inSingle) inDouble false
      else if Ascii.eqb ch dquote && negb inSingle then
        splitLoop sep r parts (snoc buf ch) inSingle (negb inDouble) false
      else if negb inSingle && negb inDouble && Ascii.eqb ch sep then
        splitLoop sep r (parts ++ [buf])%list EmptyString inSingle inDouble false
      else
        splitLoop sep r parts (snoc buf ch) inSingle inDouble false
  end.

Definition splitUnquoted (input : string) (sep : ascii) : list string :=
  map trim (splitLoop sep input [] EmptyString false false false).

(** [s.split(c)] for a one-character separator. *)
Fixpoint splitChar (c : ascii) (s : string) : list string :=
  match s with
  | EmptyString => [EmptyString]
  | String x r =>
      if Ascii.eqb x c then EmptyString :: splitChar c r
      else
        match splitChar c r with
        | [] => [String x EmptyString]
        | p :: ps => String x p :: ps
        end
  end.

Definition nonEmpty (s : string) : bool :=
  match s with
  | EmptyString => false
  | String _ _ => true
  end.

(** ** The document tree *)

Record Branch (N : Type) : Type := mkBranch {
  test : option string;
  body : list N
}.
Arguments mkBranch {N} _ _.
Arguments test {N} _.
Arguments body {N} _.

Inductive Node : Type :=
| NText (text : string)
| NVar (expr : string) (npos : option TokenPos)
| NIf (branches : list (Branch Node)) (npos : option TokenPos)
| NFor (varNames : list string) (iterableExpr : string) (nodes : list Node)
       (npos : option TokenPos)
| NInclude (path : string) (npos : option TokenPos)
| NBlock (name : string) (nodes : list Node) (npos : option TokenPos)
| NExtends (path : string) (npos : option TokenPos).

(** ** Outcomes *)

(** The outcome of a run: a value, an exception, the end of the fuel, or
    [Beyond]: the run has reached a part of the host that is not described
    here (a member of a built-in object that differs from one engine to the
    other, an object whose prototype a template has replaced, a string or
    an object that the types of this development do not hold).  Nothing is
    stated about what the source does from there on. *)
Inductive result (A : Type) : Type :=
| Ok (a : A)
| Throw (msg : string)
| OutOfFuel
| Beyond.
Arguments Ok {A} _.
Arguments Throw {A} _.
Arguments OutOfFuel {A}.
Arguments Beyond {A}.

Definition rbind {A B : Type} (r : result A) (f : A -> result B) : result B :=
  match r with
  | Ok a => f a
  | Throw e => Throw e
  | OutOfFuel => OutOfFuel
  | Beyond => Beyond
  end.

(** ** The parser: one pass over the tokens with a stack of open frames.
    The top of the stack is the head of the list. *)

Inductive StackFrame : Type :=
| IfFrame (nodes : list Node) (branches : list (Branch Node)) (current : nat)
          (tokenPos : option TokenPos)
| ForFrame (nodes : list Node) (varNames : list string)
           (iterableExpr : string) (tokenPos : option TokenPos)
| BlockFrame (nodes : list Node) (name : string)
             (tokenPos : option TokenPos).

Definition frameTokenPos (f : StackFrame) : option TokenPos :=
  match f with
  | IfFrame _ _ _ p => p
  | ForFrame _ _ _ p => p
  | BlockFrame _ _ p => p
  end.

Record ParseState : Type := mkPS {
  out : list Node;
  stack : list StackFrame
}.

Fixpoint updateNth {A : Type} (i : nat) (f : A -> A) (l : list A) : list A :=
  match l, i with
  | [], _ => []
  | x :: t, 0 => f x :: t
  | x :: t, S i' => x :: updateNth i' f t
  end.

(** [top.extra.branches[top.extra.current].body.push(n)] raises a TypeError
    when the index is outside the array. *)
Definition pushNode (n : Node) (st : ParseState) : result ParseState :=
  match stack st with
  | [] => Ok (mkPS (out st ++ [n])%list [])
  | IfFrame nodes brs cur tp :: rest =>
      match nth_error brs cur with
      | Some _ =>
          let brs' :=
            updateNth cur (fun br => mkBranch (test br) (body br ++ [n])%list)
              brs in
          Ok (mkPS (out st) (IfFrame nodes brs' cur tp :: rest))
      | None => Throw "TypeError: cannot read properties of undefined"
      end
  | ForFrame nodes vs it tp :: rest =>
      Ok (mkPS (out st) (ForFrame (nodes ++ [n])%list vs it tp :: rest))
  | BlockFrame nodes nm tp :: rest =>
      Ok (mkPS (out st) (BlockFrame (nodes ++ [n])%list nm tp :: rest))
  end.

Definition at_ (p : TokenPos) : string :=
  string_of_nat (line p) ++ ":" ++ string_of_nat (col p).

(** /^for\s+(.+?)\s+in\s+([\s\S]+)$/ *)
Definition forRe : regex :=
  RCat [RBol; RLit "for"; RPlus true RSpace; RGroup 1 (RPlus false RDot);
        RPlus true RSpace; RLit "in"; RPlus true RSpace;
        RGroup 2 (RPlus true RAny); REol].

(** /^include\s+["']([\s\S]+?)["']$/ *)
Definition includeRe : regex :=
  RCat [RBol; RLit "include"; RPlus true RSpace; RQuote;
        RGroup 1 (RPlus false RAny); RQuote; REol].

(** /^block\s+(\w+)$/ *)
Definition blockRe : regex :=
  RCat [RBol; RLit "block"; RPlus true RSpace;
        RGroup 1 (RPlus true (RChar is_word)); REol].

(** /^extends\s+["']([\s\S]+?)["']$/ *)
Definition extendsRe : regex :=
  RCat [RBol; RLit "extends"; RPlus true RSpace; RQuote;
        RGroup 1 (RPlus false RAny); RQuote; REol].

(** [s.match(re)] for a pattern without the [g] flag. *)
Definition smatch (re : regex) (s : string) : option rmatched := rexec re s 0.

Definition parseTag (t : Token) (st : ParseState) : result ParseState :=
  let parts := splitUnquoted (content t) " "%char in
  let tag := hd EmptyString parts in
  if String.eqb tag "if" then
    let tst := trim (drop 2 (content t)) in
    Ok (mkPS (out st)
          (IfFrame [] [mkBranch (Some tst) []] 0 (Some (pos t)) :: stack st))
  else if String.eqb tag "elif" || String.eqb tag "else" then
    match stack st with
    | IfFrame nodes brs cur tp :: rest =>
        let cond :=
          if String.eqb tag "elif" then Some (trim (drop 4 (content t)))
          else None in
        let brs' := (brs ++ [mkBranch cond []])%list in
        Ok (mkPS (out st)
              (IfFrame nodes brs' (List.length brs' - 1) tp :: rest))
    | _ => Throw ("Unexpected " ++ tag ++ " at " ++ at_ (pos t))
    end
  else if String.eqb tag "endif" then
    match stack st with
    | IfFrame nodes brs cur tp :: rest =>
        pushNode (NIf brs tp) (mkPS (out st) rest)
    | _ => Throw ("Unexpected endif at " ++ at_ (pos t))
    end
  else if String.eqb tag "for" then
    match smatch forRe (content t) with
    | None => Throw ("Invalid for tag at " ++ at_ (pos t))
    | Some m =>
        let varNames :=
          filter nonEmpty
            (map trim (splitChar ","%char (groupOr (content t) m 1))) in
        let iterableExpr := trim (groupOr (content t) m 2) in
        Ok (mkPS (out st)
              (ForFrame [] varNames iterableExpr (Some (pos t)) :: stack st))
    end
  else if String.eqb tag "endfor" then
    match stack st with
    | ForFrame nodes vs it tp :: rest =>
        pushNode (NFor vs it nodes tp) (mkPS (out st) rest)
    | _ => Throw ("Unexpected endfor at " ++ at_ (pos t))
    end
  else if String.eqb tag "include" then
    match smatch includeRe (content t) with
    | None => Throw ("Invalid include at " ++ at_ (pos t))
    | Some m =>
        pushNode (NInclude (groupOr (content t) m 1) (Some (pos t))) st
    end
  else if String.eqb tag "block" then
    match smatch blockRe (content t) with
    | None => Throw ("Invalid block at " ++ at_ (pos t))
    | Some m =>
        Ok (mkPS (out st)
              (BlockFrame [] (groupOr (content t) m 1) (Some (pos t))
                 :: stack st))
    end
  else if String.eqb tag "endblock" then
    match stack st with
    | BlockFrame nodes nm tp :: rest =>
        pushNode (NBlock nm nodes tp) (mkPS (out st) rest)
    | _ => Throw ("Unexpected endblock at " ++ at_ (pos t))
    end
  else if String.eqb tag "extends" then
    match smatch extendsRe (content t) with
    | None => Throw ("Invalid extends at " ++ at_ (pos t))
    | Some m =>
        pushNode (NExtends (groupOr (content t) m 1) (Some (pos t))) st
    end
  else pushNode (NText ("{% " ++ content t ++ " %}")) st.

Definition parseToken (t : Token) (st : ParseState) : result ParseState :=
  match type t with
  | TComment => Ok st
  | TText => pushNode (NText (content t)) st
  | TVar => pushNode (NVar (content t) (Some (pos t))) st
  | TTag => parseTag t st
  end.

Fixpoint parseLoop (tokens : list Token) (st : ParseState)
    : result ParseState :=
  match tokens with
  | [] => Ok st
  | t :: rest => rbind (parseToken t st) (parseLoop rest)
  end.

Definition parse (tokens : list Token) : result (list Node) :=
  rbind (parseLoop tokens (mkPS [] []))
    (fun st =>
       match stack st with
       | [] => Ok (out st)
       | top :: _ =>
           let p :=
             match frameTokenPos top with
             | Some p => p
             | None => mkPos 0 0 0
             end in
           Throw ("Unclosed tag at " ++ at_ p)
       end).

(** ** Numbers *)

(** A number is given by a decimal, [mant / 10 ^ scale], and it stands for
    the double nearest to that decimal, as a numeric literal does in a
    program text and as [Number] does for the text of a literal.  NaN is
    not a value of this development. *)
Record Num : Type := mkNum { mant : Z; scale : nat }.

(** A double: zero (the sign of a zero cannot be observed through
    [String], [==] or [<]), the finite double [q * 2 ^ e] of sign [neg],
    with [2 ^ 52 <= q < 2 ^ 53] and [-1074 <= e <= 971], or [0 < q < 2 ^ 52]
    and [e = -1074], or an infinity. *)
Inductive Dbl : Type :=
| DZero
| DFin (neg : bool) (q e : Z)
| DInf (neg : bool).

Definition numOfNat (n : nat) : Num := mkNum (Z.of_nat n) 0.
Definition numOfZ (z : Z) : Num := mkNum z 0.

Definition pow10 (n : nat) : Z := Z.pow 10 (Z.of_nat n).

Open Scope Z_scope.

(** The integer nearest to [n / d], the even one of two that are as
    near. *)
Definition roundHalfEven (n d : Z) : Z :=
  let q := Z.div n d in
  let r := Z.modulo n d in
  if Z.ltb d (2 * r) then q + 1
  else if Z.eqb (2 * r) d then (if Z.even q then q else q + 1)
  else q.

(** [n / d >= b ^ k], for [k] of either sign. *)
Definition atLeastPow (b n d k : Z) : bool :=
  if Z.leb 0 k then Z.leb (d * Z.pow b k) n
  else Z.leb d (n * Z.pow b (- k)).

(** The integer part of the binary logarithm of [n / d]. *)
Definition binaryExponent (n d : Z) : Z :=
  let k := Z.log2 n - Z.log2 d in
  if atLeastPow 2 n d k then k else k - 1.

(** The double nearest to a decimal: 53 bits of mantissa, fewer below
    [2 ^ -1022], an infinity from [2 ^ 1024] on. *)
Definition toDouble (x : Num) : Dbl :=
  let n := Z.abs (mant x) in
  let d := pow10 (scale x) in
  let neg := Z.ltb (mant x) 0 in
  if Z.eqb n 0 then DZero
  else
    let e := Z.max (binaryExponent n d - 52) (-1074) in
    let q :=
      if Z.leb 0 e then roundHalfEven n (d * Z.pow 2 e)
      else roundHalfEven (n * Z.pow 2 (- e)) d in
    let e' := if Z.eqb q (Z.pow 2 53) then e + 1 else e in
    let q' := if Z.eqb q (Z.pow 2 53) then Z.pow 2 52 else q in
    if Z.eqb q' 0 then DZero
    else if Z.ltb 971 e' then DInf neg
    else DFin neg q' e'.

Close Scope Z_scope.

Definition dbl_eqb (a b : Dbl) : bool :=
  match a, b with
  | DZero, DZero => true
  | DFin n1 q1 e1, DFin n2 q2 e2 =>
      Bool.eqb n1 n2 && Z.eqb q1 q2 && Z.eqb e1 e2
  | DInf n1, DInf n2 => Bool.eqb n1 n2
  | _, _ => false
  end.

(** The order of the magnitudes of two finite doubles. *)
Definition mag_ltb (q1 e1 q2 e2 : Z) : bool :=
  Z.ltb e1 e2 || (Z.eqb e1 e2 && Z.ltb q1 q2).

Definition dbl_ltb (a b : Dbl) : bool :=
  match a, b with
  | DZero, DZero => false
  | DZero, DFin n _ _ => negb n
  | DZero, DInf n => negb n
  | DFin n _ _, DZero => n
  | DInf n, DZero => n
  | DFin n1 q1 e1, DFin n2 q2 e2 =>
      if n1 then (if n2 then mag_ltb q2 e2 q1 e1 else true)
      else (if n2 then false else mag_ltb q1 e1 q2 e2)
  | DFin _ _ _, DInf n => negb n
  | DInf n, DFin _ _ _ => n
  | DInf n1, DInf n2 => n1 && negb n2
  end.

(** [a == b] and [a < b] on numbers. *)
Definition num_eqb (a b : Num) : bool := dbl_eqb (toDouble a) (toDouble b).
Definition num_ltb (a b : Num) : bool := dbl_ltb (toDouble a) (toDouble b).

(** [n != 0], the truth of a number. *)
Definition num_nonzero (n : Num) : bool := negb (dbl_eqb (toDouble n) DZero).

Fixpoint digitsValue (s : string) (acc : Z) : Z :=
  match s with
  | EmptyString => acc
  | String c r => digitsValue r (10 * acc + Z.of_nat (code c - 48))
  end.

Fixpoint beforeChar (c : ascii) (s : string) : string :=
  match s with
  | EmptyString => EmptyString
  | String x r => if Ascii.eqb x c then EmptyString else String x (beforeChar c r)
  end.

Fixpoint afterChar (c : ascii) (s : string) : string :=
  match s with
  | EmptyString => EmptyString
  | String x r => if Ascii.eqb x c then r else afterChar c r
  end.

(** [Number(s)] for a string that matches [-?\d+(\.\d+)?]: the decimal that
    is written, which stands for the double nearest to it. *)
Definition Number (s : string) : Num :=
  let neg := startsWith "-" s in
  let body := if neg then drop 1 s else s in
  let ip := beforeChar "."%char body in
  let fp := afterChar "."%char body in
  let m := digitsValue (ip ++ fp) 0 in
  mkNum (if neg then Z.opp m else m) (String.length fp).

Fixpoint zeros (n : nat) : string :=
  match n with
  | 0 => EmptyString
  | S n' => String "0"%char (zeros n')
  end.

Open Scope Z_scope.

(** The number of decimal digits of an integer that is not negative. *)
Definition decimalDigits (z : Z) : Z :=
  Z.of_nat (String.length (string_of_Z z)).

(** The [n] with [10 ^ (n - 1) <= vn / vd < 10 ^ n]. *)
Definition decimalExponent (vn vd : Z) : Z :=
  let k := decimalDigits vn - decimalDigits vd in
  if atLeastPow 10 vn vd k then k + 1 else k.

(** The decimal [s * 10 ^ p]. *)
Definition decimal (s p : Z) : Num :=
  if Z.leb 0 p then mkNum (s * Z.pow 10 p) 0 else mkNum s (Z.to_nat (- p)).

(** The digits of [Number::toString]: the least number [k] of digits for
    which some [s * 10 ^ (n - k)] stands for the double [d], whose value is
    [vn / vd]; the candidates are the two decimals of [k] digits around the
    value; of two that both stand for [d], the nearer one, and the even one
    when they are as near.  Seventeen digits always do. *)
Fixpoint shortestFrom (fuel : nat) (k : Z) (d : Dbl) (vn vd n : Z) : Z * Z :=
  let p := n - k in
  let tn := if Z.leb 0 p then vn else vn * Z.pow 10 (- p) in
  let td := if Z.leb 0 p then vd * Z.pow 10 p else vd in
  let lo := Z.div tn td in
  let r := Z.modulo tn td in
  let okLo := dbl_eqb (toDouble (decimal lo p)) d in
  let okHi := dbl_eqb (toDouble (decimal (lo + 1) p)) d in
  let nearer :=
    if Z.ltb (2 * r) td then lo
    else if Z.ltb td (2 * r) then lo + 1
    else if Z.even lo then lo else lo + 1 in
  if okLo && okHi then (nearer, p)
  else if okLo then (lo, p)
  else if okHi then (lo + 1, p)
  else
    match fuel with
    | O => (lo, p)
    | S f => shortestFrom f (k + 1) d vn vd n
    end.

Fixpoint dropLastZeros (s : string) : string :=
  match s with
  | EmptyString => EmptyString
  | String c r =>
      match dropLastZeros r with
      | EmptyString =>
          if Ascii.eqb c "0" then EmptyString else String c EmptyString
      | r' => String c r'
      end
  end.

(** The text of [Number::toString] for the digits [ds] and the place [n] of
    the decimal point: positional for [-6 < n <= 21], with an exponent
    otherwise. *)
Definition formatDigits (ds : string) (n : Z) : string :=
  let k := Z.of_nat (String.length ds) in
  if Z.leb k n && Z.leb n 21 then ds ++ zeros (Z.to_nat (n - k))
  else if Z.ltb 0 n && Z.leb n 21 then
    take (Z.to_nat n) ds ++ "." ++ drop (Z.to_nat n) ds
  else if Z.ltb (-6) n && Z.leb n 0 then
    "0." ++ zeros (Z.to_nat (- n)) ++ ds
  else
    let e := n - 1 in
    (if Z.eqb k 1 then ds else take 1%nat ds ++ "." ++ drop 1%nat ds)
      ++ "e" ++ (if Z.ltb e 0 then "-" else "+") ++ string_of_Z (Z.abs e).

(** [String(n)] for a number. *)
Definition numToString (x : Num) : string :=
  match toDouble x with
  | DZero => "0"
  | DInf neg => (if neg then "-" else EmptyString) ++ "Infinity"
  | DFin neg q e =>
      let vn := if Z.leb 0 e then q * Z.pow 2 e else q in
      let vd := if Z.leb 0 e then 1 else Z.pow 2 (- e) in
      let n := decimalExponent vn vd in
      let '(s, p) := shortestFrom 17%nat 1 (DFin false q e) vn vd n in
      let all := string_of_Z s in
      (if neg then "-" else EmptyString)
        ++ formatDigits (dropLastZeros all)
             (p + Z.of_nat (String.length all))
  end.

Close Scope Z_scope.

(** [JSON.stringify(n)] for a number: an infinity gives [null]. *)
Definition numToJson (x : Num) : string :=
  match toDouble x with
  | DInf _ => "null"
  | _ => numToString x
  end.

(** ** Values of the context *)

(** The values: the primitives, an instance of [SafeString], an array, a
    plain object (its own enumerable properties in the order of their
    creation; its prototype is [Object.prototype]), a function of the
    context (an identifier for the oracle that runs it, the text that
    [String] gives for it, and all its own properties), and a built-in
    object of the host: [VNative "Object.prototype"] is the object
    [Object.prototype], [VNative "Object"] the function [Object], and
    [VNative m], for [m] the name of a function member of
    [Object.prototype], that function. *)
Inductive Value : Type :=
| VUndefined
| VNull
| VBool (b : bool)
| VNumber (n : Num)
| VString (s : string)
| VSafe (s : string)
| VArray (items : list Value)
| VObject (props : list (string * Value))
| VFunction (id : nat) (src : string) (props : list (string * Value))
| VNative (name : string).

Definition Context : Type := list (string * Value).

Fixpoint join (sep : string) (l : list string) : string :=
  match l with
  | [] => EmptyString
  | [x] => x
  | x :: t => x ++ sep ++ join sep t
  end.

(** [v == null] *)
Definition isNullish (v : Value) : bool :=
  match v with
  | VUndefined | VNull => true
  | _ => false
  end.

(** [String(v)] *)
Fixpoint toStr (v : Value) : string :=
  match v with
  | VUndefined => "undefined"
  | VNull => "null"
  | VBool true => "true"
  | VBool false => "false"
  | VNumber n => numToString n
  | VString s => s
  | VSafe s => s
  | VArray items =>
      join ","
        ((fix go (l : list Value) : list string :=
            match l with
            | [] => []
            | x :: t => (if isNullish x then EmptyString else toStr x) :: go t
            end) items)
  | VObject _ => "[object Object]"
  | VFunction _ src _ => src
  | VNative n =>
      if String.eqb n "Object.prototype" then "[object Object]"
      else "function " ++ n ++ "() { [native code] }"
  end.

(** [typeof v === "object" || typeof v === "function"], for [v] that is not
    null. *)
Definition isObjectOrFunction (v : Value) : bool :=
  match v with
  | VSafe _ | VArray _ | VObject _ | VFunction _ _ _ | VNative _ => true
  | _ => false
  end.

(** [typeof v === "function"] *)
Definition isFunction (v : Value) : bool :=
  match v with
  | VFunction _ _ _ => true
  | VNative n => negb (String.eqb n "Object.prototype")
  | _ => false
  end.

(** [!!v] *)
Definition truthy (v : Value) : bool :=
  match v with
  | VUndefined | VNull => false
  | VBool b => b
  | VNumber n => num_nonzero n
  | VString s => nonEmpty s
  | _ => true
  end.

(** Own properties of an object, in the order of their creation. *)
Fixpoint own {A : Type} (k : string) (o : list (string * A)) : option A :=
  match o with
  | [] => None
  | (k', v) :: t => if String.eqb k' k then Some v else own k t
  end.

(** [o[k] = v] for a data property: an existing key keeps its place, a new
    key goes last. *)
Fixpoint assign {A : Type} (k : string) (v : A) (o : list (string * A))
    : list (string * A) :=
  match o with
  | [] => [(k, v)]
  | (k', v') :: t =>
      if String.eqb k' k then (k, v) :: t else (k', v') :: assign k v t
  end.

(** The function members of [Object.prototype], but for [constructor]. *)
Definition objectPrototypeFunctions : list string :=
  ["hasOwnProperty"; "isPrototypeOf"; "propertyIsEnumerable";
   "toLocaleString"; "toString"; "valueOf"; "__defineGetter__";
   "__defineSetter__"; "__lookupGetter__"; "__lookupSetter__"].

(** What a plain object gives for a key that is not one of its own
    properties: the member of [Object.prototype] of that name; [__proto__]
    is an accessor there and gives the prototype of the object, which is
    [Object.prototype]. *)
Definition inherited (key : string) : option Value :=
  if String.eqb key "constructor" then Some (VNative "Object")
  else if String.eqb key "__proto__" then Some (VNative "Object.prototype")
  else if existsb (String.eqb key) objectPrototypeFunctions
  then Some (VNative key)
  else None.

(** [o[k]] for a plain object [o]: its own property, else the member that
    it inherits, else undefined. *)
Definition lookup (k : string) (o : list (string * Value)) : Value :=
  match own k o with
  | Some v => v
  | None =>
      match inherited k with
      | Some m => m
      | None => VUndefined
      end
  end.

Definition allDigits (s : string) : bool := nonEmpty s && allChars is_digit s.

(** An array index: the canonical text of an integer below [2 ^ 32 - 1]. *)
Definition arrayIndex (k : string) : option Z :=
  if allDigits k then
    let n := digitsValue k 0 in
    if String.eqb (string_of_Z n) k && Z.ltb n 4294967295 then Some n
    else None
  else None.

Fixpoint insertByIndex {A : Type} (n : Z) (x : A) (l : list (Z * A))
    : list (Z * A) :=
  match l with
  | [] => [(n, x)]
  | (m, y) :: t =>
      if Z.ltb n m then (n, x) :: l else (m, y) :: insertByIndex n x t
  end.

Fixpoint indexedProps {A : Type} (props : list (string * A))
    : list (Z * (string * A)) :=
  match props with
  | [] => []
  | (k, v) :: t =>
      match arrayIndex k with
      | Some n => insertByIndex n (k, v) (indexedProps t)
      | None => indexedProps t
      end
  end.

(** The order in which the own properties of an object are listed (by
    [Object.entries], [JSON.stringify] and the spread of an object): the
    keys that are array indices first, in ascending order, then the other
    keys in the order of their creation. *)
Definition propertyOrder {A : Type} (props : list (string * A))
    : list (string * A) :=
  (map snd (indexedProps props)
   ++ filter (fun kv => match arrayIndex (fst kv) with
                        | Some _ => false
                        | None => true
                        end) props)%list.

(** The accessors [caller] and [arguments] of [Function.prototype], which
    raise a TypeError for a function that has no own property of that
    name: the built-in functions, and the functions, methods and classes of
    a module. *)
Definition restrictedName (key : string) : bool :=
  String.eqb key "caller" || String.eqb key "arguments".

(** [cur[key]] for [cur] an object or a function.  Of a host error only its
    being thrown is kept, under the one message [TypeError].
    - A plain object: [lookup].
    - [Object.prototype]: its members; its [__proto__] is null.
    - A function: its own properties; without an own one, [caller] and
      [arguments] raise; the other members that it inherits are not
      described.
    - A [SafeString]: its own property [value]; the members of
      [Object.prototype] that its class does not redefine; [constructor],
      [toString] and [__proto__] lead to the class, which is not a value
      here.
    - An array: [length] and the elements; a key of digits that is not an
      index of the array gives undefined; the members of [Array.prototype]
      are not described. *)
Definition getProp (cur : Value) (key : string) : result Value :=
  match cur with
  | VObject props => Ok (lookup key props)
  | VNative n =>
      if String.eqb n "Object.prototype" then
        if String.eqb key "__proto__" then Ok VNull
        else Ok (lookup key [])
      else if restrictedName key then Throw "TypeError"
      else Beyond
  | VFunction _ _ props =>
      match own key props with
      | Some v => Ok v
      | None => if restrictedName key then Throw "TypeError" else Beyond
      end
  | VSafe s =>
      if String.eqb key "value" then Ok (VString s)
      else if String.eqb key "constructor" || String.eqb key "toString"
              || String.eqb key "__proto__" then Beyond
      else Ok (lookup key [])
  | VArray items =>
      if String.eqb key "length" then
        Ok (VNumber (numOfNat (List.length items)))
      else if allDigits key then
        let n := Z.to_nat (digitsValue key 0) in
        if String.eqb (string_of_nat n) key then Ok (nth n items VUndefined)
        else Ok VUndefined
      else Beyond
  | _ => Ok VUndefined
  end.

(** ** The expression evaluator *)

Inductive ChainStep : Type :=
| StepName (name : string)
| StepProp (name : string)
| StepIndex (expr : string)
| StepCall.

(** /^-?\d+(\.\d+)?$/ *)
Definition numberRe : regex :=
  RCat [RBol; ROpt (RLit "-"); RPlus true (RChar is_digit);
        ROpt (RGroup 1 (RSeq (RLit ".") (RPlus true (RChar is_digit))));
        REol].

(** The pattern of a quoted literal, with the [s] flag: a double quote, any
    characters (group 1, greedy) and a double quote spanning the whole
    input, or the same between single quotes (group 2). *)
Definition quotedRe : regex :=
  RAlt
    (RCat [RBol; RChar (Ascii.eqb dquote); RGroup 1 (RStar true RAny);
           RChar (Ascii.eqb dquote); REol])
    (RCat [RBol; RChar (Ascii.eqb squote); RGroup 2 (RStar true RAny);
           RChar (Ascii.eqb squote); REol]).

(** /^[A-Za-z_$][A-Za-z0-9_$]*/ *)
Definition identRe : regex :=
  RCat [RBol; RChar is_ident_start; RStar true (RChar is_ident_part)].

(** /^(.*?)\s*(==|!=|>=|<=|>|<)\s*(.*?)$/ *)
Definition cmpRe : regex :=
  RCat [RBol; RGroup 1 (RStar false RDot); RStar true RSpace;
        RGroup 2
          (RAlt (RLit "==")
             (RAlt (RLit "!=")
                (RAlt (RLit ">=") (RAlt (RLit "<=") (RAlt (RLit ">") (RLit "<"))))));
        RStar true RSpace; RGroup 3 (RStar false RDot); REol].

(** [m[0]] *)
Definition matched (s : string) (m : rmatched) : string :=
  slice (m_index m) (m_end m) s.

(** The scan for the bracket that closes an index: it returns the final
    [j] and [depth]. *)
Fixpoint bracketScan (rest : string) (j depth : nat) : nat * nat :=
  match depth with
  | 0 => (j, 0)
  | S _ =>
      match rest with
      | EmptyString => (j, depth)
      | String c r =>
          let d1 := if Ascii.eqb c "["%char then S depth else depth in
          let d2 := if Ascii.eqb c "]"%char then d1 - 1 else d1 in
          bracketScan r (S j) d2
      end
  end.

(** The loop that reads the steps after the leading name; [None] stands for
    the [return undefined] of a malformed step.  Every turn moves [i]
    forward, so fuel above the number of characters left is never used up
    (lemma [parseChain_fuel]). *)
Fixpoint parseChain (fuel : nat) (expr : string) (i : nat)
    (chain : list ChainStep) : option (list ChainStep) :=
  match fuel with
  | 0 => Some chain
  | S f =>
      if i <? String.length expr then
        match String.get i expr with
        | Some ch =>
            if Ascii.eqb ch "."%char then
              match smatch identRe (drop (S i) expr) with
              | None => None
              | Some m =>
                  let nm := matched (drop (S i) expr) m in
                  parseChain f expr (S i + String.length nm)
                    (chain ++ [StepProp nm])%list
              end
            else if Ascii.eqb ch "["%char then
              let '(j, depth) := bracketScan (drop (S i) expr) (S i) 1 in
              if negb (depth =? 0) then None
              else
                let inner := trim (slice (S i) (j - 1) expr) in
                parseChain f expr j (chain ++ [StepIndex inner])%list
            else if startsWith "()" (drop i expr) then
              parseChain f expr (i + 2) (chain ++ [StepCall])%list
            else Some chain
        | None => Some chain
        end
      else Some chain
  end.

Definition str_eqb (a b : string) : bool := String.eqb a b.
Definition str_gtb (a b : string) : bool := str_ltb b a.
Definition str_leb (a b : string) : bool := negb (str_ltb b a).
Definition str_geb (a b : string) : bool := negb (str_ltb a b).

Definition safeCompare (left right : Value) (op : string) : bool :=
  let stringCase :=
    let L := if isNullish left then EmptyString else toStr left in
    let R := if isNullish right then EmptyString else toStr right in
    if String.eqb op ">" then str_gtb L R
    else if String.eqb op "<" then str_ltb L R
    else if String.eqb op ">=" then str_geb L R
    else if String.eqb op "<=" then str_leb L R
    else if String.eqb op "==" then str_eqb L R
    else if String.eqb op "!=" then negb (str_eqb L R)
    else false in
  match left, right with
  | VNumber l, VNumber r =>
      if String.eqb op ">" then num_ltb r l
      else if String.eqb op "<" then num_ltb l r
      else if String.eqb op ">=" then negb (num_ltb l r)
      else if String.eqb op "<=" then negb (num_ltb r l)
      else if String.eqb op "==" then num_eqb l r
      else if String.eqb op "!=" then negb (num_eqb l r)
      else stringCase
  | _, _ => stringCase
  end.

Section Engine.

(** The callables of the context: [callFn id ctx] is what calling function
    [id] with [ctx] as its receiver returns, [None] when it throws. *)
Variable callFn : nat -> Context -> option Value.

(** [fn.call(context)] within its [try], for [fn] a built-in function:
    what the call returns, undefined when it throws.
    - [toString] gives the tag of a plain object; [valueOf] the context
      itself; [Object] a new empty object.
    - [hasOwnProperty] and [propertyIsEnumerable], called without an
      argument, ask for the key [undefined]; [isPrototypeOf] gives false.
    - [toLocaleString] calls the [toString] of the context: the inherited
      one, or an own one that is a function of the context; an own one that
      is not callable makes it throw; an own one that is built in is not
      followed here.
    - [__defineGetter__] and [__defineSetter__] throw for the missing
      function, and [__lookupGetter__] and [__lookupSetter__] find no
      accessor. *)
Definition callNative (n : string) (ctx : Context) : result Value :=
  if String.eqb n "toString" then Ok (VString "[object Object]")
  else if String.eqb n "valueOf" then Ok (VObject ctx)
  else if String.eqb n "Object" then Ok (VObject [])
  else if String.eqb n "hasOwnProperty"
          || String.eqb n "propertyIsEnumerable" then
    Ok (VBool (match own "undefined" ctx with Some _ => true | None => false end))
  else if String.eqb n "isPrototypeOf" then Ok (VBool false)
  else if String.eqb n "toLocaleString" then
    match own "toString" ctx with
    | None => Ok (VString "[object Object]")
    | Some (VFunction id _ _) =>
        match callFn id ctx with
        | Some v => Ok v
        | None => Ok VUndefined
        end
    | Some (VNative _) => Beyond
    | Some _ => Ok VUndefined
    end
  else Ok VUndefined.

(** The walk over the steps; [evalIndex] evaluates the expression of an
    index step.  The reads [cur[step.name]] and [cur[String(idx)]] stand
    outside every [try] of the source: what they raise leaves the
    evaluator. *)
Fixpoint evalChain (evalIndex : string -> result Value) (ctx : Context)
    (chain : list ChainStep) (cur : Value) : result Value :=
  match chain with
  | [] => Ok cur
  | step :: rest =>
      if isNullish cur then Ok VUndefined
      else
        match step with
        | StepProp name =>
            if isObjectOrFunction cur then
              rbind (getProp cur name) (evalChain evalIndex ctx rest)
            else Ok VUndefined
        | StepIndex e =>
            rbind (evalIndex e)
              (fun idx =>
                 match idx with
                 | VString _ | VNumber _ =>
                     if isObjectOrFunction cur then
                       rbind (getProp cur (toStr idx))
                         (evalChain evalIndex ctx rest)
                     else Ok VUndefined
                 | _ => Ok VUndefined
                 end)
        | StepCall =>
            match cur with
            | VFunction id _ _ =>
                match callFn id ctx with
                | Some v => evalChain evalIndex ctx rest v
                | None => evalChain evalIndex ctx rest VUndefined
                end
            | VNative n =>
                if isFunction cur then
                  rbind (callNative n ctx) (evalChain evalIndex ctx rest)
                else evalChain evalIndex ctx rest VUndefined
            | _ => evalChain evalIndex ctx rest VUndefined
            end
        | StepName _ => evalChain evalIndex ctx rest cur
        end
  end.

Fixpoint getValueFromExprF (fuel : nat) (expr : string) (ctx : Context)
    : result Value :=
  match fuel with
  | 0 => OutOfFuel
  | S f =>
      let expr := trim expr in
      if String.eqb expr "true" then Ok (VBool true)
      else if String.eqb expr "false" then Ok (VBool false)
      else if String.eqb expr "null" || String.eqb expr "undefined" then
        Ok VNull
      else if (match smatch numberRe expr with Some _ => true | None => false end)
      then Ok (VNumber (Number expr))
      else
        match smatch quotedRe expr with
        | Some q =>
            Ok (VString
                  (match group expr q 1 with
                   | Some g => g
                   | None => groupOr expr q 2
                   end))
        | None =>
            match smatch identRe expr with
            | None => Ok VUndefined
            | Some nameMatch =>
                let curName := matched expr nameMatch in
                match
                  parseChain (String.length expr) expr (String.length curName)
                    [StepName curName]
                with
                | None => Ok VUndefined
                | Some chain =>
                    match chain with
                    | StepName name :: steps =>
                        evalChain (fun e => getValueFromExprF f e ctx) ctx
                          steps (lookup name ctx)
                    | _ => Ok VUndefined
                    end
                end
            end
        end
  end.

(** An index expression is strictly shorter than the expression around it,
    so the length bounds the depth of the recursion. *)
Definition getValueFromExpr (expr : string) (ctx : Context) : result Value :=
  getValueFromExprF (S (String.length expr)) expr ctx.

Definition evalTestExpression (expr : string) (ctx : Context) : result bool :=
  let expr := trim expr in
  if negb (nonEmpty expr) then Ok false
  else
    match smatch cmpRe expr with
    | Some cmp =>
        rbind (getValueFromExpr (groupOr expr cmp 1) ctx) (fun left =>
        rbind (getValueFromExpr (groupOr expr cmp 3) ctx) (fun right =>
        Ok (safeCompare left right (groupOr expr cmp 2))))
    | None =>
        rbind (getValueFromExpr expr ctx) (fun v => Ok (truthy v))
    end.


(** ** The filter registry *)

Definition escapeHtml (s : string) : string :=
  replaceChar squote "&#39;"
    (replaceChar dquote "&quot;"
       (replaceChar ">"%char "&gt;"
          (replaceChar "<"%char "&lt;"
             (replaceChar "&"%char "&amp;" s)))).

(** [s.replace(/<\/script/gi, "<\\/script")]; [skip] counts the characters
    of a match that are still to be passed over. *)
Fixpoint escapeClosingScriptFrom (skip : nat) (s : string) : string :=
  match s with
  | EmptyString => EmptyString
  | String c r =>
      match skip with
      | S k => escapeClosingScriptFrom k r
      | 0 =>
          if String.eqb (toLowerCase (take 8 s)) "</script" then
            "<\/script" ++ escapeClosingScriptFrom 7 r
          else String c (escapeClosingScriptFrom 0 r)
      end
  end.

Definition escapeClosingScript (json : string) : string :=
  escapeClosingScriptFrom 0 json.

Definition hexDigit (n : nat) : ascii :=
  if n <? 10 then ascii_of_nat (48 + n) else ascii_of_nat (87 + n).

(** The quoting of a string by [JSON.stringify]. *)
Fixpoint jsonEscape (s : string) : string :=
  match s with
  | EmptyString => EmptyString
  | String c r =>
      let n := code c in
      (if n =? 34 then "\" ++ DQ
       else if n =? 92 then "\\"
       else if n =? 8 then "\b"
       else if n =? 9 then "\t"
       else if n =? 10 then "\n"
       else if n =? 12 then "\f"
       else if n =? 13 then "\r"
       else if n <? 32 then
         "\u00" ++ String (hexDigit (n / 16)) (String (hexDigit (n mod 16))
                                                 EmptyString)
       else String c EmptyString) ++ jsonEscape r
  end.

Definition jsonQuote (s : string) : string := DQ ++ jsonEscape s ++ DQ.

(** [JSON.stringify(v)]; [None] is its [undefined]. *)
Fixpoint jsonStringify (v : Value) : option string :=
  match v with
  | VUndefined => None
  | VFunction _ _ _ => None
  | VNative n => if String.eqb n "Object.prototype" then Some "{}" else None
  | VNull => Some "null"
  | VBool true => Some "true"
  | VBool false => Some "false"
  | VNumber n => Some (numToJson n)
  | VString s => Some (jsonQuote s)
  | VSafe s => Some ("{" ++ jsonQuote "value" ++ ":" ++ jsonQuote s ++ "}")
  | VArray items =>
      Some ("[" ++
            join ","
              ((fix go (l : list Value) : list string :=
                  match l with
                  | [] => []
                  | x :: t =>
                      match jsonStringify x with
                      | Some j => j
                      | None => "null"
                      end :: go t
                  end) items) ++ "]")
  | VObject props =>
      Some ("{" ++
            join ","
              (flat_map
                 (fun kj : string * option string =>
                    match snd kj with
                    | Some j => [jsonQuote (fst kj) ++ ":" ++ j]
                    | None => []
                    end)
                 (propertyOrder
                    ((fix go (l : list (string * Value))
                        : list (string * option string) :=
                        match l with
                        | [] => []
                        | (k, x) :: t => (k, jsonStringify x) :: go t
                        end) props))) ++ "}")
  end.

(** A filter: what [fn(val, farg)] returns or raises. *)
Definition FilterFn : Type := Value -> Value -> result Value.

(** [upper]; a string whose upper case holds a code unit above 255 is not
    followed. *)
Definition filter_upper : FilterFn :=
  fun v _ =>
    match v with
    | VString s =>
        match toUpperCase s with
        | Some u => Ok (VString u)
        | None => Beyond
        end
    | _ => Ok v
    end.

Definition filter_lower (v arg : Value) : Value :=
  match v with VString s => VString (toLowerCase s) | _ => v end.

Definition filter_safe (v arg : Value) : Value :=
  if isNullish v then VSafe EmptyString else VSafe (toStr v).

(** The numbers of the code units U+2028 and U+2029. *)
Definition u2028 : nat := 8 * 1029.
Definition u2029 : nat := S u2028.

(** [s.replace(/u/g, rep)] for the code unit of number [n]. *)
Fixpoint replaceUnit (n : nat) (rep : string) (s : string) : string :=
  match s with
  | EmptyString => EmptyString
  | String x r =>
      if code x =? n then rep ++ replaceUnit n rep r
      else String x (replaceUnit n rep r)
  end.

(** [escapejs]: the six replacements of the source in their order; those
    of the separators U+2028 and U+2029 find nothing in a string of code
    units below 256. *)
Definition filter_escapejs (v arg : Value) : Value :=
  if isNullish v then VString (DQ ++ DQ)
  else
    let s :=
      escapeClosingScript
        (replaceUnit u2029 "\u2029"
           (replaceUnit u2028 "\u2028"
              (replaceChar squote "\'"
                 (replaceChar dquote ("\" ++ DQ)
                    (replaceChar backslash "\\" (toStr v)))))) in
    VString (DQ ++ s ++ DQ).

Definition filter_raw_json (v arg : Value) : Value :=
  match jsonStringify v with
  | Some j => VSafe (escapeClosingScript j)
  | None => VSafe "null"
  end.

Definition filter_json_script (v arg : Value) : Value :=
  let id :=
    match arg with
    | VString s => s
    | _ => if isNullish arg then "__data__" else toStr arg
    end in
  let payload :=
    match jsonStringify v with
    | Some j => escapeClosingScript j
    | None => "null"
    end in
  VSafe ("<script id=" ++ DQ ++ escapeHtml id ++ DQ ++ " type=" ++ DQ
           ++ "application/json" ++ DQ ++ ">" ++ payload ++ "</script>").

(** The own properties of the registry. *)
Definition filters : list (string * FilterFn) :=
  [("upper", filter_upper);
   ("lower", fun v a => Ok (filter_lower v a));
   ("safe", fun v a => Ok (filter_safe v a));
   ("escapejs", fun v a => Ok (filter_escapejs v a));
   ("raw_json", fun v a => Ok (filter_raw_json v a));
   ("raw_json_escaped", fun v a => Ok (filter_raw_json v a));
   ("json_script", fun v a => Ok (filter_json_script v a))].

(** What a member of [Object.prototype] does when the registry gives it
    for a name and it is called as [fn(val, farg)], without a receiver:
    - [toString] gives the tag of undefined;
    - [constructor], the function [Object], gives a new empty object for
      null and undefined and an object or a function as it is; the wrapper
      it makes of a primitive is not a value here;
    - [isPrototypeOf] gives false for a primitive and raises for an object;
    - the other functions raise when they turn the missing receiver into
      an object, and [__proto__], which is not a function, cannot be
      called. *)
Definition inheritedFilter (name : string) : option FilterFn :=
  match inherited name with
  | None => None
  | Some _ =>
      if String.eqb name "toString" then
        Some (fun _ _ => Ok (VString "[object Undefined]"))
      else if String.eqb name "constructor" then
        Some (fun v _ =>
                if isNullish v then Ok (VObject [])
                else if isObjectOrFunction v then Ok v
                else Beyond)
      else if String.eqb name "isPrototypeOf" then
        Some (fun v _ =>
                if isObjectOrFunction v then Throw "TypeError"
                else Ok (VBool false))
      else Some (fun _ _ => Throw "TypeError")
  end.

(** [filters[fname]]: an own property of the registry, else the member of
    [Object.prototype] of that name, else undefined. *)
Definition filterNamed (fname : string) : option FilterFn :=
  match own fname filters with
  | Some fn => Some fn
  | None => inheritedFilter fname
  end.

(** [s.indexOf(c)] *)
Fixpoint indexOfChar (c : ascii) (s : string) : option nat :=
  match s with
  | EmptyString => None
  | String x r =>
      if Ascii.eqb x c then Some 0
      else match indexOfChar c r with
           | Some n => Some (S n)
           | None => None
           end
  end.

Fixpoint applyFilters (val : Value) (filterExprs : list string)
    (ctx : Context) : result Value :=
  match filterExprs with
  | [] => Ok val
  | f :: rest =>
      if negb (nonEmpty f) then applyFilters val rest ctx
      else
        rbind
          (match indexOfChar ":"%char f with
           | Some idx =>
               rbind (getValueFromExpr (trim (drop (S idx) f)) ctx)
                 (fun farg => Ok (trim (take idx f), farg))
           | None => Ok (f, VUndefined)
           end)
          (fun '(fname, farg) =>
             match filterNamed fname with
             | Some fn =>
                 rbind (fn val farg) (fun val' => applyFilters val' rest ctx)
             | None => applyFilters val rest ctx
             end)
  end.

Definition evalVarExpression (expr : string) (ctx : Context) : result Value :=
  let parts := splitUnquoted expr "|"%char in
  let main := hd EmptyString parts in
  let filterExprs := tl parts in
  rbind (getValueFromExpr main ctx) (fun value =>
  applyFilters value filterExprs ctx).


(** ** The template loader *)

Record Template : Type := mkTemplate {
  path : string;
  src : string;
  ast : list Node
}.

(** A [TemplateLoader]: its directory and its cache, a [Map] from the path
    asked for to the template parsed for it. *)
Record TemplateLoader : Type := mkLoader {
  dir : string;
  cache : list (string * Template)
}.

(** A computation that may throw and that reads and fills the cache of the
    loader it is given. *)
Definition M (A : Type) : Type := TemplateLoader -> result A * TemplateLoader.

Definition ret {A : Type} (a : A) : M A := fun ld => (Ok a, ld).

Definition lift {A : Type} (r : result A) : M A := fun ld => (r, ld).

Definition bind {A B : Type} (c : M A) (f : A -> M B) : M B :=
  fun ld =>
    match c ld with
    | (Ok a, ld') => f a ld'
    | (Throw e, ld') => (Throw e, ld')
    | (OutOfFuel, ld') => (OutOfFuel, ld')
    | (Beyond, ld') => (Beyond, ld')
    end.

(** [Deno.readTextFileSync]: the text of a file, [None] when reading it
    throws; of the error only its being thrown is modelled, not its
    message. *)
Variable readFile : string -> option string.

(** [parts.join("/").replace(/\\/g, "/")] for two parts. *)
Definition joinPath (a b : string) : string :=
  replaceChar backslash "/" (a ++ "/" ++ b).

Definition load (relpath : string) : M Template :=
  fun ld =>
    match own relpath (cache ld) with
    | Some tpl => (Ok tpl, ld)
    | None =>
        let full := joinPath (dir ld) relpath in
        match readFile full with
        | None => (Throw ("NotFound: " ++ full), ld)
        | Some text =>
            match parse (lex text) with
            | Ok nodes =>
                let tpl := mkTemplate relpath text nodes in
                (Ok tpl, mkLoader (dir ld) (assign relpath tpl (cache ld)))
            | Throw e => (Throw e, ld)
            | OutOfFuel => (OutOfFuel, ld)
            | Beyond => (Beyond, ld)
            end
        end
    end.

(** ** The renderer *)

(** [acc += f(x)] for each [x] of [l], in order. *)
Fixpoint appendEach {A : Type} (f : A -> M string) (l : list A)
    (acc : string) : M string :=
  match l with
  | [] => ret acc
  | x :: t => bind (f x) (fun s => appendEach f t (acc ++ s))
  end.

(** The table of blocks of [renderNodes], a plain object: its own
    properties, and the array that has replaced its prototype when a block
    is named [__proto__], a name for which assignment runs the setter of
    [Object.prototype] instead of making a property. *)
Record BlockTable : Type := mkBlocks {
  ownBlocks : list (string * list Node);
  protoBlocks : option (list Node)
}.

Definition noBlocks : BlockTable := mkBlocks [] None.

(** [blocks[name] = body] *)
Definition setBlock (name : string) (b : list Node) (blocks : BlockTable)
    : BlockTable :=
  if String.eqb name "__proto__" then mkBlocks (ownBlocks blocks) (Some b)
  else mkBlocks (assign name b (ownBlocks blocks)) (protoBlocks blocks).

(** [childBlocks[name]] as [renderParentWithChild] uses it: [Ok (Some b)]
    for a list of nodes [b], [Ok None] for undefined or another falsy
    value, and [Throw] for a truthy value that is not a list of nodes, which
    [renderNodes] cannot iterate over.
    - An own property is a list of nodes.
    - With the prototype [Object.prototype], each of its members is a
      function or an object.
    - With an array as prototype, [__proto__] gives that array, [length] its
      length, an index one of its nodes, and the names of
      [Object.prototype] a function; the other members of
      [Array.prototype] are not described. *)
Definition childBlock (name : string) (blocks : BlockTable)
    : result (option (list Node)) :=
  match own name (ownBlocks blocks) with
  | Some b => Ok (Some b)
  | None =>
      match protoBlocks blocks with
      | None =>
          match inherited name with
          | Some _ => Throw "TypeError"
          | None => Ok None
          end
      | Some arr =>
          if String.eqb name "__proto__" then Ok (Some arr)
          else if String.eqb name "length" then
            match arr with
            | [] => Ok None
            | _ :: _ => Throw "TypeError"
            end
          else
            match inherited name with
            | Some _ => Throw "TypeError"
            | None =>
                if allDigits name then
                  let n := Z.to_nat (digitsValue name 0) in
                  if String.eqb (string_of_nat n) name
                     && (n <? List.length arr)
                  then Throw "TypeError" else Ok None
                else Beyond
            end
      end
  end.

(** The first pass of [renderNodes]: the table of the top-level blocks and
    the path of the last [extends]. *)
Fixpoint collectBlocks (nodes : list Node) (blocks : BlockTable)
    (extendsPath : option string) : BlockTable * option string :=
  match nodes with
  | [] => (blocks, extendsPath)
  | NBlock nm b _ :: t => collectBlocks t (setBlock nm b blocks) extendsPath
  | NExtends p _ :: t => collectBlocks t blocks (Some p)
  | _ :: t => collectBlocks t blocks extendsPath
  end.

Definition renderVar (expr : string) (ctx : Context) : result string :=
  rbind (evalVarExpression expr ctx) (fun val =>
  if isNullish val then Ok EmptyString
  else
    match val with
    | VSafe s => Ok s
    | _ => Ok (escapeHtml (toStr val))
    end).

(** The loop over the branches of a conditional: the first branch without
    a test or with a test that holds is rendered, and the loop returns. *)
Fixpoint renderIf (rec : list Node -> Context -> M string)
    (branches : list (Branch Node)) (ctx : Context) : M string :=
  match branches with
  | [] => ret EmptyString
  | br :: rest =>
      match test br with
      | None => rec (body br) ctx
      | Some t =>
          bind (lift (evalTestExpression t ctx)) (fun b =>
          if b then rec (body br) ctx else renderIf rec rest ctx)
      end
  end.

(** [childCtx[name] = v] on the copy [{ ...context }] of a context, a
    plain object.  A data property is made or changed, but for the name
    [__proto__] when the copy has no own property of that name: the
    assignment then runs the setter of [Object.prototype], which does
    nothing for a primitive and replaces the prototype of the copy by an
    object or by null; what the copy inherits from then on is not
    described. *)
Definition setProp (name : string) (v : Value) (childCtx : Context)
    : result Context :=
  if String.eqb name "__proto__" then
    match own name childCtx with
    | Some _ => Ok (assign name v childCtx)
    | None =>
        match v with
        | VNull => Beyond
        | _ => if isObjectOrFunction v then Beyond else Ok childCtx
        end
    end
  else Ok (assign name v childCtx).

(** [childCtx[varNames[j]] = f(j)] for [j] from [j0] on. *)
Fixpoint bindFrom (varNames : list string) (j : nat) (f : nat -> Value)
    (childCtx : Context) : result Context :=
  match varNames with
  | [] => Ok childCtx
  | nm :: t => rbind (setProp nm (f j) childCtx) (bindFrom t (S j) f)
  end.

(** The context of one step over a sequence. *)
Definition bindElement (varNames : list string) (it : Value) (ctx : Context)
    : result Context :=
  match varNames with
  | [nm] => setProp nm it ctx
  | _ =>
      match it with
      | VArray elems => bindFrom varNames 0 (fun j => nth j elems VUndefined) ctx
      | _ => bindFrom varNames 0 (fun _ => VUndefined) ctx
      end
  end.

(** The context of one step over the entries of an object. *)
Definition bindEntry (varNames : list string) (kv : string * Value)
    (ctx : Context) : result Context :=
  match varNames with
  | [] => Ok ctx
  | [nm] => setProp nm (snd kv) ctx
  | k :: v :: _ =>
      rbind (setProp k (VString (fst kv)) ctx) (setProp v (snd kv))
  end.

(** [Object.entries(v)] for an object that is not an array. *)
Definition entries (v : Value) : list (string * Value) :=
  match v with
  | VObject props => propertyOrder props
  | VSafe s => [("value", VString s)]
  | _ => []
  end.

Definition renderFor (rec : list Node -> Context -> M string)
    (varNames : list string) (iterableExpr : string) (nodes : list Node)
    (ctx : Context) : M string :=
  bind (lift (getValueFromExpr iterableExpr ctx)) (fun v =>
  let iterable := if truthy v then v else VArray [] in
  match iterable with
  | VArray items =>
      appendEach
        (fun it => bind (lift (bindElement varNames it ctx)) (rec nodes))
        items EmptyString
  | VObject _ | VSafe _ =>
      appendEach
        (fun kv => bind (lift (bindEntry varNames kv ctx)) (rec nodes))
        (entries iterable) EmptyString
  | _ => ret EmptyString
  end).

(** [renderNode], the function local to [renderNodes]; [rec] is
    [renderNodes] itself. *)
Definition renderNode (rec : list Node -> Context -> M string) (n : Node)
    (ctx : Context) : M string :=
  match n with
  | NText t => ret t
  | NVar expr _ => lift (renderVar expr ctx)
  | NInclude p _ => bind (load p) (fun tpl => rec (ast tpl) ctx)
  | NBlock _ b _ => rec b ctx
  | NIf branches _ => renderIf rec branches ctx
  | NFor varNames iterableExpr b _ => renderFor rec varNames iterableExpr b ctx
  | NExtends _ _ => ret EmptyString
  end.

(** The two renderers call each other and, through [include] and
    [extends], templates that may include themselves: the depth of the
    calls is bounded by [fuel]. *)
Fixpoint renderNodes (fuel : nat) (nodes : list Node) (ctx : Context)
    {struct fuel} : M string :=
  match fuel with
  | 0 => lift OutOfFuel
  | S f =>
      match collectBlocks nodes noBlocks None with
      | (blocks, Some extendsPath) =>
          bind (load extendsPath) (fun parent =>
          renderParentWithChild f (ast parent) ctx blocks)
      | (_, None) =>
          appendEach (fun n => renderNode (renderNodes f) n ctx) nodes
            EmptyString
      end
  end

with renderParentWithChild (fuel : nat) (parentNodes : list Node)
    (ctx : Context) (childBlocks : BlockTable)
    {struct fuel} : M string :=
  match fuel with
  | 0 => lift OutOfFuel
  | S f =>
      appendEach
        (fun n =>
           match n with
           | NBlock nm b _ =>
               bind (lift (childBlock nm childBlocks)) (fun found =>
               match found with
               | Some b' => renderNodes f b' ctx
               | None => renderNodes f b ctx
               end)
           | NExtends p _ =>
               bind (load p) (fun parent =>
               renderParentWithChild f (ast parent) ctx childBlocks)
           | NInclude p _ =>
               bind (load p) (fun tpl => renderNodes f (ast tpl) ctx)
           | _ => renderNodes f [n] ctx
           end)
        parentNodes EmptyString
  end.

Definition TEMPLATES_DIR : string := "./templates".

(** The loader of the module, before any template is asked for. *)
Definition loader : TemplateLoader := mkLoader TEMPLATES_DIR [].

Definition renderTemplate (fuel : nat) (path : string) (ctx : Context)
    : M string :=
  bind (load path) (fun tpl => renderNodes fuel (ast tpl) ctx).

End Engine.


(** * The statements: definitions *)

(** ** Evaluation *)

(** The expression of an index step is shorter than [n]. *)
Definition indexShort (n : nat) (st : ChainStep) : Prop :=
  match st with
  | StepIndex e => String.length e < n
  | _ => True
  end.

(** ** Escaping and variables *)

(** The substitution of the specification: each of the five characters by
    its entity, every other character by itself. *)
Definition htmlEntity (c : ascii) : string :=
  if Ascii.eqb c "&" then "&amp;"
  else if Ascii.eqb c "<" then "&lt;"
  else if Ascii.eqb c ">" then "&gt;"
  else if Ascii.eqb c dquote then "&quot;"
  else if Ascii.eqb c squote then "&#39;"
  else String c EmptyString.

Fixpoint substituteEntities (s : string) : string :=
  match s with
  | EmptyString => EmptyString
  | String c r => htmlEntity c ++ substituteEntities r
  end.

(** ** Text given directly *)

(** A context without callables and a directory without files. *)
Definition noCalls : nat -> Context -> option Value := fun _ _ => None.
Definition noFiles : string -> option string := fun _ => None.

(** Lexing, parsing and rendering a template text: what [renderTemplate]
    does with the text of a file. *)
Definition renderText (callFn : nat -> Context -> option Value)
    (readFile : string -> option string) (fuel : nat) (text : string)
    (ctx : Context) : result string :=
  rbind (parse (lex text))
    (fun nodes => fst (renderNodes callFn readFile fuel nodes ctx loader)).

(** The number [n] as a value. *)
Definition num (n : nat) : Value := VNumber (numOfNat n).


(** The context of the escaping example: [s] is the six characters
    [<], [b], [>], [&], the single quote and the double quote. *)
Definition ctxEscaping : Context := [("s", VString ("<b>&'" ++ DQ))].

(** ** Conditionals *)

(** The test of the branch is not null and evaluates to false. *)
Definition testFails (callFn : nat -> Context -> option Value) (ctx : Context)
    (br : Branch Node) : Prop :=
  exists t, test br = Some t /\ evalTestExpression callFn t ctx = Ok false.

(** The test of the branch is null, or it evaluates to true. *)
Definition testSelects (callFn : nat -> Context -> option Value)
    (ctx : Context) (br : Branch Node) : Prop :=
  test br = None \/
  exists t, test br = Some t /\ evalTestExpression callFn t ctx = Ok true.

(** ** Path chains *)

Definition ctxPaths : Context :=
  [("o", VObject [("k", VArray [VString "p"; VString "q"]); ("i", num 1)]);
   ("f", VFunction 0 "function () { throw 1 }" []);
   ("n", VNull)].

(** ** Loops *)

(** The runs of a list, one after the other, and their outputs joined in
    that order. *)
Fixpoint concatInOrder (runs : list (M string)) : M string :=
  match runs with
  | [] => ret EmptyString
  | r :: t =>
      bind r (fun a => bind (concatInOrder t) (fun b => ret (a ++ b)))
  end.

(** The loops of the specification, with one name or with two. *)
Inductive LoopNames : Type :=
| OneName (x : string)
| TwoNames (k v : string).

Definition namesOf (ln : LoopNames) : list string :=
  match ln with
  | OneName x => [x]
  | TwoNames k v => [k; v]
  end.

(** The member of an element at a position, undefined when the element is
    not a sequence or is too short. *)
Definition position (j : nat) (it : Value) : Value :=
  match it with
  | VArray elems => nth j elems VUndefined
  | _ => VUndefined
  end.

Definition elementContext (ln : LoopNames) (it : Value) (ctx : Context)
    : Context :=
  match ln with
  | OneName x => assign x it ctx
  | TwoNames a b => assign b (position 1 it) (assign a (position 0 it) ctx)
  end.

Definition entryContext (ln : LoopNames) (kv : string * Value) (ctx : Context)
    : Context :=
  match ln with
  | OneName x => assign x (snd kv) ctx
  | TwoNames k v => assign v (snd kv) (assign k (VString (fst kv)) ctx)
  end.

(** The names of the loop are ordinary ones: none is [__proto__], the one
    name whose assignment does not make a property of the new context. *)
Definition plainName (x : string) : bool := negb (String.eqb x "__proto__").

Definition plainNames (ln : LoopNames) : bool := forallb plainName (namesOf ln).

(** The contexts of the steps of a loop: one for each element of a
    sequence, in the order of the elements; one for each entry of an object
    that is not an array, in the order in which the entries are listed, the
    keys that are array indices first (a mapping, or a SafeString, whose one
    own property is [value]); none for any other value. *)
Definition loopContexts (ln : LoopNames) (iterable : Value) (ctx : Context)
    : list Context :=
  match iterable with
  | VArray items => map (fun it => elementContext ln it ctx) items
  | VObject props => map (fun kv => entryContext ln kv ctx) (propertyOrder props)
  | VSafe s => [entryContext ln ("value", VString s) ctx]
  | _ => []
  end.

(** The contexts of the steps of a loop as C6 states them: one for each
    element of a sequence, in the order of the elements; one for each entry
    of a mapping, in the order in which the entries were made; none for any
    other value. *)
Definition statedLoopContexts (ln : LoopNames) (iterable : Value)
    (ctx : Context) : list Context :=
  match iterable with
  | VArray items => map (fun it => elementContext ln it ctx) items
  | VObject props => map (fun kv => entryContext ln kv ctx) props
  | _ => []
  end.

(** The values that a loop iterates over: the arrays, the plain objects and
    the instances of [SafeString]. *)
Definition isIterated (v : Value) : bool :=
  match v with
  | VArray _ | VObject _ | VSafe _ => true
  | _ => false
  end.

Definition ctxItems : Context := [("items", VArray [num 1; num 2; num 3])].
Definition ctxPairs : Context :=
  [("pairs", VObject [("a", num 1); ("b", num 2)])].

(** A mapping whose key [b] was made before its key [1], and a SafeString. *)
Definition ctxMixed : Context :=
  [("m", VObject [("b", num 1); ("1", num 2)]); ("s", VSafe "a")].

(** ** The filter pipeline *)


Definition isQuote (c : ascii) : bool :=
  Ascii.eqb c squote || Ascii.eqb c dquote.












(** ** Open frames *)

(** The keyword of a tag: the first of the parts of its content. *)
Definition tagOf (t : Token) : string :=
  hd EmptyString (splitUnquoted (content t) " ").

Definition frameKind (f : StackFrame) : string :=
  match f with
  | IfFrame _ _ _ _ => "if"
  | ForFrame _ _ _ _ => "for"
  | BlockFrame _ _ _ => "block"
  end.

(** The frame was pushed for the tag token [t] and carries its position. *)
Definition openedBy (t : Token) (f : StackFrame) : Prop :=
  type t = TTag /\ tagOf t = frameKind f /\ frameTokenPos f = Some (pos t).

Definition openedIn (tokens : list Token) (f : StackFrame) : Prop :=
  exists t, In t tokens /\ openedBy t f.

Definition frameTag (f : StackFrame) : string * option TokenPos :=
  (frameKind f, frameTokenPos f).

Definition filesUnclosed (p : string) : option string :=
  if String.eqb p "./templates/page.html" then
    Some ("{% for a in b %}" ++ NL ++ "  {% if x %}yes")
  else None.

Definition tokensUnclosed : list Token :=
  lex ("{% for a in b %}" ++ NL ++ "  {% if x %}yes").

(** ** The place of the else branch *)

Definition hasTest (br : Branch Node) : bool :=
  match test br with
  | Some _ => true
  | None => false
  end.

(** The number of branches whose test is null. *)
Definition nullTests (brs : list (Branch Node)) : nat :=
  List.length (filter (fun br => negb (hasTest br)) brs).

(** Every branch but the last one has a test. *)
Fixpoint nullOnlyLast (brs : list (Branch Node)) : bool :=
  match brs with
  | [] => true
  | [_] => true
  | br :: rest => hasTest br && nullOnlyLast rest
  end.

(** At most one branch has a null test, and it is the last branch. *)
Definition elsePlaced (brs : list (Branch Node)) : bool :=
  (nullTests brs <=? 1) && nullOnlyLast brs.

(** The property of every Conditional node of a tree. *)
Fixpoint elseWellPlaced (n : Node) : bool :=
  match n with
  | NIf brs _ =>
      elsePlaced brs
        && forallb (fun br => forallb elseWellPlaced (body br)) brs
  | NFor _ _ b _ => forallb elseWellPlaced b
  | NBlock _ b _ => forallb elseWellPlaced b
  | _ => true
  end.

Definition tokensTwoElse : list Token :=
  lex "{% if a %}A{% else %}B{% else %}C{% endif %}".

(** What the tags before a point of the input have left open: a conditional,
    with the mark of an [else] already met in it, or a loop or a block. *)
Inductive OpenTag : Type :=
| OpenIf (seenElse : bool)
| OpenOther.

(** One tag of the input; [None] when an [elif] or an [else] follows the
    [else] of the same conditional. *)
Definition elseStep (t : Token) (opens : list OpenTag)
    : option (list OpenTag) :=
  match type t with
  | TTag =>
      let tag := tagOf t in
      if String.eqb tag "if" then Some (OpenIf false :: opens)
      else if String.eqb tag "elif" || String.eqb tag "else" then
        match opens with
        | OpenIf true :: _ => None
        | OpenIf false :: rest => Some (OpenIf (String.eqb tag "else") :: rest)
        | _ => Some opens
        end
      else if String.eqb tag "endif" then Some (tl opens)
      else if String.eqb tag "for" then Some (OpenOther :: opens)
      else if String.eqb tag "endfor" then Some (tl opens)
      else if String.eqb tag "include" then Some opens
      else if String.eqb tag "block" then Some (OpenOther :: opens)
      else if String.eqb tag "endblock" then Some (tl opens)
      else Some opens
  | _ => Some opens
  end.

(** No [elif] and no [else] follows the [else] of its conditional. *)
Fixpoint elseNotFollowed (tokens : list Token) (opens : list OpenTag) : bool :=
  match tokens with
  | [] => true
  | t :: rest =>
      match elseStep t opens with
      | Some opens' => elseNotFollowed rest opens'
      | None => false
      end
  end.

Definition bodiesPlaced (brs : list (Branch Node)) : bool :=
  forallb (fun br => forallb elseWellPlaced (body br)) brs.

Definition frameOk (f : StackFrame) (o : OpenTag) : Prop :=
  match f, o with
  | IfFrame _ brs cur _, OpenIf seen =>
      cur = List.length brs - 1 /\ brs <> [] /\
      nullOnlyLast brs = true /\
      (seen = false -> forallb hasTest brs = true) /\
      bodiesPlaced brs = true
  | ForFrame nodes _ _ _, OpenOther => forallb elseWellPlaced nodes = true
  | BlockFrame nodes _ _, OpenOther => forallb elseWellPlaced nodes = true
  | _, _ => False
  end.

Definition parseInv (st : ParseState) (opens : list OpenTag) : Prop :=
  forallb elseWellPlaced (out st) = true /\ Forall2 frameOk (stack st) opens.

Definition tokensNested : list Token :=
  lex "{% if a %}{% if b %}B{% else %}C{% endif %}{% elif c %}D{% else %}E{% endif %}".

(** ** Chains of extends *)

Definition filesChain (p : string) : option string :=
  if String.eqb p "./templates/base.html" then
    Some "<html>{% block body %}DEFAULT{% endblock %}</html>"
  else if String.eqb p "./templates/child.html" then
    Some ("{% extends " ++ DQ ++ "base.html" ++ DQ
            ++ " %}{% block body %}CHILD{% endblock %}")
  else if String.eqb p "./templates/plain.html" then
    Some ("{% extends " ++ DQ ++ "base.html" ++ DQ ++ " %}")
  else if String.eqb p "./templates/mid.html" then
    Some ("{% extends " ++ DQ ++ "base.html" ++ DQ
            ++ " %}{% block body %}MID{% endblock %}")
  else if String.eqb p "./templates/leaf.html" then
    Some ("{% extends " ++ DQ ++ "mid.html" ++ DQ ++ " %}")
  else if String.eqb p "./templates/leaf2.html" then
    Some ("{% extends " ++ DQ ++ "mid.html" ++ DQ
            ++ " %}{% block body %}LEAF{% endblock %}")
  else None.

Definition renderFile (files : string -> option string) (p : string)
    : result string :=
  fst (renderTemplate noCalls files 8 p [] loader).

(** ** Comparisons *)

Definition ctxCompare : Context := [("s", VString "a>b")].

(** ** Positions and lengths in the matcher *)

(** [cur'] is a position of the input at or after [cur]. *)
Definition after (cur cur' : cursor) : Prop :=
  exists d,
    d <= List.length (snd cur) /\
    cur' = (fst cur + d, skipn d (snd cur)).

(** The least number of characters a pattern consumes. *)
Fixpoint minLen (r : regex) : nat :=
  match r with
  | RChar _ => 1
  | RSeq a b => minLen a + minLen b
  | RAlt a b => Nat.min (minLen a) (minLen b)
  | RGroup _ a => minLen a
  | _ => 0
  end.

(** ** Templates without a closing delimiter *)

(** The character [c] does not occur in [s]. *)
Definition noChar (c : ascii) (s : string) : bool :=
  allChars (fun x => negb (Ascii.eqb x c)) s.

(** What [lex] gives for a template in which no delimiter is closed. *)
Definition oneTextToken (template : string) : list Token :=
  match template with
  | EmptyString => []
  | String _ _ => [mkToken TText template (mkPos 1 1 0)]
  end.

(** [r] fails at every position at or after [cur], whatever follows it. *)
Definition failsAfter (R : Type) (r : regex) (cur : cursor) : Prop :=
  forall cur' cs' (k : cursor -> captures -> option R),
    after cur cur' -> rmatch r cur' cs' k = None.

(** ** What escaping leaves out *)

(** The characters that open or close markup or an attribute value. *)
Definition markupChar (c : ascii) : bool :=
  Ascii.eqb c "<" || Ascii.eqb c ">" || Ascii.eqb c dquote
    || Ascii.eqb c squote.

(** One of the five characters that [escapeHtml] replaces. *)
Definition escapedChar (c : ascii) : bool :=
  Ascii.eqb c "&" || markupChar c.

Definition isSafeString (v : Value) : bool :=
  match v with
  | VSafe _ => true
  | _ => false
  end.

(** The text [</script], in any mix of cases, starts [s]: the test of
    [escapeClosingScript]. *)
Definition startsClosingScript (s : string) : bool :=
  String.eqb (toLowerCase (take 8 s)) "</script".

(** The text [</script], in any mix of cases, occurs in [s]. *)
Fixpoint containsClosingScript (s : string) : bool :=
  match s with
  | EmptyString => false
  | String _ r => startsClosingScript s || containsClosingScript r
  end.

(** ** The cache of the loader *)

Definition isOk {A : Type} (r : result A) : bool :=
  match r with
  | Ok _ => true
  | _ => false
  end.

(** No top-level node is an [extends]. *)
Definition noExtends (nodes : list Node) : bool :=
  forallb (fun n => match n with NExtends _ _ => false | _ => true end) nodes.

(** The nodes that take part in inheritance: blocks and [extends]. *)
Definition inheritanceNode (n : Node) : bool :=
  match n with
  | NBlock _ _ _ | NExtends _ _ => true
  | _ => false
  end.

Definition filesOne (p : string) : option string :=
  if String.eqb p "./templates/a.html" then Some "A{{ x }}" else None.

(** ** Tokens without tags, and comments *)

Definition isComment (t : Token) : bool :=
  match type t with
  | TComment => true
  | _ => false
  end.

Definition isTag (t : Token) : bool :=
  match type t with
  | TTag => true
  | _ => false
  end.

(** The nodes of the tokens that are not tags: a text, a variable, and
    nothing for a comment. *)
Definition plainNodes (tokens : list Token) : list Node :=
  flat_map
    (fun t =>
       match type t with
       | TText => [NText (content t)]
       | TVar => [NVar (content t) (Some (pos t))]
       | _ => []
       end) tokens.

(** The kind of frame that a tag needs on top of the stack: [elif], [else]
    and [endif] need a conditional, [endfor] a loop, [endblock] a block. *)
Definition neededFrame (tag : string) : option string :=
  if String.eqb tag "elif" || String.eqb tag "else" || String.eqb tag "endif"
  then Some "if"
  else if String.eqb tag "endfor" then Some "for"
  else if String.eqb tag "endblock" then Some "block"
  else None.

(** The top of the stack is not a frame of the kind [kind]. *)
Definition topIsNot (kind : string) (frames : list StackFrame) : Prop :=
  match frames with
  | [] => True
  | top :: _ => frameKind top <> kind
  end.

Definition opensFrame (t : Token) : bool :=
  isTag t
    && (String.eqb (tagOf t) "if" || String.eqb (tagOf t) "for"
        || String.eqb (tagOf t) "block").

Definition closesFrame (t : Token) : bool :=
  isTag t
    && (String.eqb (tagOf t) "endif" || String.eqb (tagOf t) "endfor"
        || String.eqb (tagOf t) "endblock").

Definition countIf {A : Type} (p : A -> bool) (l : list A) : nat :=
  List.length (filter p l).

Definition tokensForEndif : list Token :=
  lex ("{% for a in b %}" ++ NL ++ "{% endif %}x").

Definition b2n (b : bool) : nat := if b then 1 else 0.

(** ** Names, white space and pipes in expressions *)

(** [A-Za-z_$][A-Za-z0-9_$]*: a name of the expression language. *)
Definition isIdentifier (s : string) : bool :=
  match s with
  | EmptyString => false
  | String c r => is_ident_start c && allChars is_ident_part r
  end.

(** One of the four words that are read as literals. *)
Definition isKeyword (s : string) : bool :=
  String.eqb s "true" || String.eqb s "false" || String.eqb s "null"
    || String.eqb s "undefined".

(** A pattern that matches at the start of the input only. *)
Definition anchored (r : regex) : Prop :=
  forall (R : Type) i rest cs (k : cursor -> captures -> option R),
    rmatch r (S i, rest) cs k = None.

(** The expressions of the index steps of a chain are evaluated alike by
    the two evaluators. *)
Definition indexAgree (ev1 ev2 : string -> result Value) (st : ChainStep)
    : Prop :=
  match st with
  | StepIndex e => ev1 e = ev2 e
  | _ => True
  end.

(** ** Quoted literals *)

(** The literal of the text [s] between two quotes [q]. *)
Definition quotedLiteral (q : ascii) (s : string) : string :=
  String q (s ++ String q EmptyString).

(** ** Lines, columns and the order of the tokens *)

(** The number of characters [c] in [s]. *)
Fixpoint countChar (c : ascii) (s : string) : nat :=
  match s with
  | EmptyString => 0
  | String x r => (if Ascii.eqb x c then 1 else 0) + countChar c r
  end.

(** The text after the last line feed of [s], the whole of [s] when it has
    none. *)
Fixpoint lastLine (s : string) : string :=
  match s with
  | EmptyString => EmptyString
  | String _ r => if noChar newline s then s else lastLine r
  end.

Definition posEqb (p q : TokenPos) : bool :=
  (line p =? line q) && (col p =? col q) && (index p =? index q).

(** The numbers from [lo] on, each greater than the one before. *)
Fixpoint ascending (lo : nat) (l : list nat) : bool :=
  match l with
  | [] => true
  | x :: t => (lo <=? x) && ascending (S x) t
  end.

(** A token of [template] lies inside it, at the line and column of its
    index; a text token is not empty and is the text found at its index. *)
Definition wellPlaced (template : string) (t : Token) : bool :=
  (index (pos t) <? String.length template)
  && posEqb (pos t) (countLineCol template (index (pos t)))
  && match type t with
     | TText =>
         nonEmpty (content t)
         && startsWith (content t) (drop (index (pos t)) template)
     | _ => true
     end.

Definition tokenIndex (t : Token) : nat := index (pos t).

(** The tokens read so far are well placed, in ascending order, and all
    before [hi]. *)
Definition lexed (template : string) (hi : nat) (tokens : list Token) : Prop :=
  forallb (wellPlaced template) tokens = true /\
  ascending 0 (map tokenIndex tokens) = true /\
  Forall (fun y => y < hi) (map tokenIndex tokens).

(** ** Tests with an operator *)






(** ** The order of values *)

(** The text by which a value that is not a number is compared. *)
(** A value that is not a string holding the sharp s. *)
Definition sharpFree (v : Value) : bool :=
  match v with
  | VString s => allChars (fun c => negb (is_sharp_s c)) s
  | _ => true
  end.

Definition compareText (v : Value) : string :=
  if isNullish v then EmptyString else toStr v.





(** ** Whole templates *)

(** The first node of the template includes the template [p]. *)
Definition includesFirst (p : string) (nodes : list Node) : bool :=
  match nodes with
  | NInclude q _ :: _ => String.eqb q p
  | _ => false
  end.

Definition filesPlain (p : string) : option string :=
  if String.eqb p "./templates/note.txt" then Some "a {{ b c {% d" else None.

Definition loaderSelf : TemplateLoader :=
  mkLoader TEMPLATES_DIR
    [("a.html",
      mkTemplate "a.html" "x{% include 'a.html' %}"
        [NInclude "a.html" None; NText "x"])].

(** * Properties *)

(** ** Lengths of the pieces of a string *)

Lemma length_trimStart (s : string) :
  String.length (trimStart s) <= String.length s.
Proof.
  induction s as [|c r IH]; simpl; [lia|].
  destruct (is_space c); simpl; lia.
Qed.

Lemma length_trimEnd (s : string) :
  String.length (trimEnd s) <= String.length s.
Proof.
  induction s as [|c r IH]; simpl; [lia|].
  destruct (trimEnd r) eqn:E; simpl in *.
  - destruct (is_space c); simpl; lia.
  - lia.
Qed.

Lemma length_trim (s : string) : String.length (trim s) <= String.length s.
Proof.
  unfold trim.
  pose proof (length_trimEnd (trimStart s)).
  pose proof (length_trimStart s). lia.
Qed.

Lemma length_drop (n : nat) (s : string) :
  String.length (drop n s) = String.length s - n.
Proof.
  revert s; induction n as [|n IH]; intros [|c r]; simpl; auto; lia.
Qed.

Lemma length_take (n : nat) (s : string) :
  String.length (take n s) <= String.length s.
Proof.
  revert s; induction n as [|n IH]; intros [|c r]; simpl; auto; try lia.
  specialize (IH r); lia.
Qed.

Lemma length_slice (a b : nat) (s : string) :
  String.length (slice a b s) <= String.length s - a.
Proof.
  unfold slice.
  pose proof (length_take (b - a) (drop a s)).
  rewrite length_drop in H. exact H.
Qed.

(** ** The steps of a path *)

Lemma parseChain_short (fuel : nat) (expr : string) :
  forall i chain chain',
    Forall (indexShort (String.length expr)) chain ->
    parseChain fuel expr i chain = Some chain' ->
    Forall (indexShort (String.length expr)) chain'.
Proof.
  induction fuel as [|f IH]; intros i chain chain' Hc Hp;
    cbn [parseChain] in Hp.
  - inversion Hp; subst; exact Hc.
  - destruct (i <? String.length expr) eqn:Hi; [|inversion Hp; subst; exact Hc].
    apply Nat.ltb_lt in Hi.
    destruct (String.get i expr) as [ch|]; [|inversion Hp; subst; exact Hc].
    destruct (Ascii.eqb ch ".").
    + destruct (smatch identRe (drop (S i) expr)) as [m|]; [|discriminate].
      eapply IH; [|exact Hp].
      apply Forall_app; split; [exact Hc|].
      constructor; [exact I|constructor].
    + destruct (Ascii.eqb ch "[").
      * destruct (bracketScan (drop (S i) expr) (S i) 1) as [j depth].
        destruct (negb (depth =? 0)); [discriminate|].
        eapply IH; [|exact Hp].
        apply Forall_app; split; [exact Hc|].
        constructor; [|constructor].
        simpl.
        pose proof (length_trim (slice (S i) (j - 1) expr)).
        pose proof (length_slice (S i) (j - 1) expr). lia.
      * destruct (startsWith "()" (drop i expr)).
        -- eapply IH; [|exact Hp].
           apply Forall_app; split; [exact Hc|].
           constructor; [exact I|constructor].
        -- inversion Hp; subst; exact Hc.
Qed.

(** ** Escaping *)

Lemma escapeHtml_substitutes (s : string) :
  escapeHtml s = substituteEntities s.
Proof.
  induction s as [|c r IH]; [reflexivity|].
  cbn [substituteEntities]. rewrite <- IH.
  destruct c as [[] [] [] [] [] [] [] []]; reflexivity.
Qed.

(** ** Variables *)



(** ** Conditionals *)

Section ConditionalFacts.

Variable callFn : nat -> Context -> option Value.
Variable readFile : string -> option string.
Variable rec : list Node -> Context -> M string.

Lemma renderIf_first (ctx : Context) (pre : list (Branch Node))
    (br : Branch Node) (post : list (Branch Node)) (ld : TemplateLoader) :
  Forall (testFails callFn ctx) pre ->
  testSelects callFn ctx br ->
  renderIf callFn rec (pre ++ br :: post) ctx ld = rec (body br) ctx ld.
Proof.
  intros Hpre Hbr.
  induction Hpre as [|b pre' [t [Ht He]] _ IH]; cbn [app renderIf].
  - destruct Hbr as [Hn|[t [Ht He]]].
    + now rewrite Hn.
    + rewrite Ht. unfold bind, lift. now rewrite He.
  - rewrite Ht. unfold bind, lift. rewrite He. exact IH.
Qed.

Lemma renderIf_none (ctx : Context) (brs : list (Branch Node))
    (ld : TemplateLoader) :
  Forall (testFails callFn ctx) brs ->
  renderIf callFn rec brs ctx ld = (Ok EmptyString, ld).
Proof.
  intros Hall.
  induction Hall as [|b brs' [t [Ht He]] _ IH]; cbn [renderIf].
  - reflexivity.
  - rewrite Ht. unfold bind, lift. rewrite He. exact IH.
Qed.

End ConditionalFacts.

(** C2. A Conditional node renders the body of the first branch, in source
    order, whose test is null or evaluates to true, all the tests before it
    having evaluated to false; it renders the empty string when every test
    evaluates to false.  For the context [{x: 5}] the template
    [{% if x > 10 %}A{% elif x > 3 %}B{% else %}C{% endif %}] renders [B]. *)
Theorem C2_conditional_first_match :
  (forall callFn readFile rec ctx pre br post p ld,
     Forall (testFails callFn ctx) pre ->
     testSelects callFn ctx br ->
     renderNode callFn readFile rec (NIf (pre ++ br :: post) p) ctx ld
       = rec (body br) ctx ld) /\
  (forall callFn readFile rec ctx brs p ld,
     Forall (testFails callFn ctx) brs ->
     renderNode callFn readFile rec (NIf brs p) ctx ld
       = (Ok EmptyString, ld)) /\
  renderText noCalls noFiles 2
    "{% if x > 10 %}A{% elif x > 3 %}B{% else %}C{% endif %}" [("x", num 5)]
    = Ok "B".
Proof.
  split; [|split].
  - intros. cbn [renderNode]. now apply renderIf_first.
  - intros. cbn [renderNode]. now apply renderIf_none.
  - vm_compute. reflexivity.
Qed.

Lemma C2_conditional_first_match_witness :
  renderNode noCalls noFiles (fun _ _ => ret "X")
    (NIf ([mkBranch (Some "x > 10") [NText "A"]]
            ++ mkBranch (Some "x > 3") [NText "B"]
            :: [mkBranch None [NText "C"]]) None)
    [("x", num 5)] loader
  = (Ok "X", loader) /\
  renderNode noCalls noFiles (fun _ _ => ret "X")
    (NIf [mkBranch (Some "x > 10") [NText "A"]] None) [("x", num 5)] loader
  = (Ok EmptyString, loader).
Proof.
  destruct C2_conditional_first_match as [Hfirst [Hnone _]].
  split.
  - apply (Hfirst noCalls noFiles (fun _ _ => ret "X") [("x", num 5)]
             [mkBranch (Some "x > 10") [NText "A"]]
             (mkBranch (Some "x > 3") [NText "B"])
             [mkBranch None [NText "C"]] None loader).
    + constructor; [|constructor].
      exists "x > 10". split; [reflexivity|vm_compute; reflexivity].
    + right. exists "x > 3". split; [reflexivity|vm_compute; reflexivity].
  - apply (Hnone noCalls noFiles (fun _ _ => ret "X") [("x", num 5)]
             [mkBranch (Some "x > 10") [NText "A"]] None loader).
    constructor; [|constructor].
    exists "x > 10". split; [reflexivity|vm_compute; reflexivity].
Defined.

(** ** Path chains *)

(** C5. The evaluation of a path can raise.  The reads of a member,
    [cur[step.name]] and [cur[String(idx)]], stand outside the [try] that
    guards an invocation: in the empty context [constructor] is the function
    [Object], inherited from [Object.prototype], and the expression
    [constructor.caller] reads its accessor [caller], which throws; the
    error leaves [getValueFromExpr].  The rest of the claim holds: in the
    walk over the steps, a step applied to a null or missing value, a
    property access or an index on a value that is not an object, and the
    invocation of a value that is not a function all give undefined; an
    invocation that throws is caught and gives undefined; the expression of
    an index is itself evaluated, and its value selects the member that is
    read. *)
Theorem C5_path_chain_raises :
  getValueFromExpr noCalls "constructor.caller" [] = Throw "TypeError" /\
  forall callFn : nat -> Context -> option Value,
    (forall evalIndex ctx st rest cur,
       isNullish cur = true ->
       evalChain callFn evalIndex ctx (st :: rest) cur = Ok VUndefined) /\
    (forall evalIndex ctx nm rest cur,
       isObjectOrFunction cur = false ->
       evalChain callFn evalIndex ctx (StepProp nm :: rest) cur
         = Ok VUndefined) /\
    (forall evalIndex ctx e idx rest cur,
       evalIndex e = Ok idx ->
       isObjectOrFunction cur = false ->
       evalChain callFn evalIndex ctx (StepIndex e :: rest) cur
         = Ok VUndefined) /\
    (forall evalIndex ctx rest cur,
       isFunction cur = false ->
       evalChain callFn evalIndex ctx (StepCall :: rest) cur = Ok VUndefined) /\
    (forall evalIndex ctx rest id src props,
       callFn id ctx = None ->
       evalChain callFn evalIndex ctx (StepCall :: rest)
         (VFunction id src props) = Ok VUndefined) /\
    (forall evalIndex ctx nm rest cur,
       isObjectOrFunction cur = true ->
       evalChain callFn evalIndex ctx (StepProp nm :: rest) cur
       = rbind (getProp cur nm) (evalChain callFn evalIndex ctx rest)) /\
    (forall f e ctx idx rest cur,
       getValueFromExprF callFn f e ctx = Ok idx ->
       isObjectOrFunction cur = true ->
       (exists s, idx = VString s) \/ (exists n, idx = VNumber n) ->
       evalChain callFn (fun e' => getValueFromExprF callFn f e' ctx) ctx
         (StepIndex e :: rest) cur
       = rbind (getProp cur (toStr idx))
           (evalChain callFn (fun e' => getValueFromExprF callFn f e' ctx)
              ctx rest)).
Proof.
  split; [vm_compute; reflexivity|].
  intros callFn.
  assert (Hundef : forall evalIndex ctx rest,
             evalChain callFn evalIndex ctx rest VUndefined = Ok VUndefined).
  { intros evalIndex ctx [|st rest]; reflexivity. }
  repeat split.
  - intros evalIndex ctx st rest cur Hn. cbn [evalChain]. now rewrite Hn.
  - intros evalIndex ctx nm rest cur Ho. cbn [evalChain].
    destruct (isNullish cur); [reflexivity|]. now rewrite Ho.
  - intros evalIndex ctx e idx rest cur Hi Ho. cbn [evalChain].
    destruct (isNullish cur); [reflexivity|].
    rewrite Hi. cbn [rbind]. rewrite Ho. now destruct idx.
  - intros evalIndex ctx rest cur Hc. cbn [evalChain].
    destruct (isNullish cur); [reflexivity|].
    destruct cur; try apply Hundef; [discriminate|].
    rewrite Hc. apply Hundef.
  - intros evalIndex ctx rest id src props Hc. cbn [evalChain isNullish].
    rewrite Hc. apply Hundef.
  - intros evalIndex ctx nm rest cur Ho. cbn [evalChain].
    destruct (isNullish cur) eqn:Hn; [now destruct cur|].
    now rewrite Ho.
  - intros f e ctx idx rest cur Hi Ho Hk. cbn [evalChain].
    destruct (isNullish cur) eqn:Hn; [now destruct cur|].
    rewrite Hi. cbn [rbind]. rewrite Ho.
    destruct Hk as [[s ->]|[n ->]]; reflexivity.
Qed.

Lemma C5_path_chain_raises_witness :
  getValueFromExpr noCalls "n.a.b" ctxPaths = Ok VUndefined /\
  getValueFromExpr noCalls "o.i.a" ctxPaths = Ok VUndefined /\
  getValueFromExpr noCalls "o.i['a']" ctxPaths = Ok VUndefined /\
  getValueFromExpr noCalls "o()" ctxPaths = Ok VUndefined /\
  getValueFromExpr noCalls "f().a" ctxPaths = Ok VUndefined /\
  getValueFromExpr noCalls "o.k" ctxPaths
    = Ok (VArray [VString "p"; VString "q"]) /\
  evalChain noCalls (fun e => getValueFromExprF noCalls 1 e ctxPaths) ctxPaths
    [StepIndex "1"; StepProp "x"] (VArray [VNull; VObject [("x", num 7)]])
  = Ok (num 7).
Proof.
  destruct C5_path_chain_raises as [_ Hsteps].
  destruct (Hsteps noCalls)
    as [Hnull [Hprop [Hindex [Hcall [Hthrow [Hread Hrec]]]]]].
  split; [|split; [|split; [|split; [|split; [|split]]]]].
  - transitivity (evalChain noCalls
                    (fun e => getValueFromExprF noCalls 5 e ctxPaths) ctxPaths
                    [StepProp "a"; StepProp "b"] VNull);
      [vm_compute; reflexivity|].
    apply Hnull. reflexivity.
  - transitivity (evalChain noCalls
                    (fun e => getValueFromExprF noCalls 5 e ctxPaths) ctxPaths
                    [StepProp "a"] (num 1)); [vm_compute; reflexivity|].
    apply Hprop. reflexivity.
  - transitivity (evalChain noCalls
                    (fun e => getValueFromExprF noCalls 8 e ctxPaths) ctxPaths
                    [StepIndex "'a'"] (num 1)); [vm_compute; reflexivity|].
    apply (Hindex _ _ _ (VString "a")); reflexivity.
  - transitivity (evalChain noCalls
                    (fun e => getValueFromExprF noCalls 3 e ctxPaths) ctxPaths
                    [StepCall] (lookup "o" ctxPaths)); [vm_compute; reflexivity|].
    apply Hcall. reflexivity.
  - transitivity (evalChain noCalls
                    (fun e => getValueFromExprF noCalls 5 e ctxPaths) ctxPaths
                    [StepCall; StepProp "a"] (lookup "f" ctxPaths));
      [vm_compute; reflexivity|].
    apply Hthrow. reflexivity.
  - transitivity (evalChain noCalls
                    (fun e => getValueFromExprF noCalls 3 e ctxPaths) ctxPaths
                    [StepProp "k"] (lookup "o" ctxPaths));
      [vm_compute; reflexivity|].
    rewrite Hread; [vm_compute; reflexivity|reflexivity].
  - rewrite (Hrec 1 "1" ctxPaths (num 1) [StepProp "x"]
               (VArray [VNull; VObject [("x", num 7)]]));
      [vm_compute; reflexivity|vm_compute; reflexivity|reflexivity|].
    right. now exists (numOfNat 1).
Defined.

(** ** Strings and runs *)

Lemma append_empty_r (s : string) : s ++ EmptyString = s.
Proof. induction s as [|c r IH]; simpl; [reflexivity|now rewrite IH]. Qed.

Lemma append_assoc (a b c : string) : (a ++ b) ++ c = a ++ (b ++ c).
Proof. induction a as [|x r IH]; simpl; [reflexivity|now rewrite IH]. Qed.

Lemma appendEach_concat {A : Type} (f : A -> M string) (l : list A) :
  forall acc ld,
    appendEach f l acc ld
    = bind (concatInOrder (map f l)) (fun s => ret (acc ++ s)) ld.
Proof.
  induction l as [|x t IH]; intros acc ld; cbn [appendEach map concatInOrder].
  - unfold bind, ret. now rewrite append_empty_r.
  - unfold bind at 1 2 3. destruct (f x ld) as [[a|e| |] ld1]; try reflexivity.
    rewrite IH. unfold bind, ret.
    destruct (concatInOrder (map f t) ld1) as [[b|e| |] ld2]; try reflexivity.
    now rewrite append_assoc.
Qed.

Lemma appendEach_runs {A : Type} (f : A -> M string) (l : list A)
    (ld : TemplateLoader) :
  appendEach f l EmptyString ld = concatInOrder (map f l) ld.
Proof.
  rewrite appendEach_concat. unfold bind, ret.
  destruct (concatInOrder (map f l) ld) as [[b|e| |] ld1]; reflexivity.
Qed.

(** ** Loops *)

Lemma own_assign_same {A : Type} (x : string) (v : A)
    (o : list (string * A)) :
  own x (assign x v o) = Some v.
Proof.
  induction o as [|[k w] t IH]; simpl.
  - now rewrite String.eqb_refl.
  - destruct (String.eqb k x) eqn:E; simpl.
    + now rewrite String.eqb_refl.
    + now rewrite E.
Qed.

Lemma own_assign_other {A : Type} (x y : string) (v : A)
    (o : list (string * A)) :
  y <> x -> own y (assign x v o) = own y o.
Proof.
  intros Hne.
  induction o as [|[k w] t IH]; simpl.
  - destruct (String.eqb x y) eqn:E; [|reflexivity].
    apply String.eqb_eq in E. congruence.
  - destruct (String.eqb k x) eqn:E; simpl.
    + apply String.eqb_eq in E; subst k.
      destruct (String.eqb x y) eqn:E'; [|reflexivity].
      apply String.eqb_eq in E'. congruence.
    + destruct (String.eqb k y); [reflexivity|exact IH].
Qed.

Lemma truthy_not_iterated (v : Value) :
  truthy v = false -> isIterated v = false.
Proof. destruct v; simpl; congruence. Qed.

Lemma setProp_plain (x : string) (v : Value) (ctx : Context) :
  plainName x = true -> setProp x v ctx = Ok (assign x v ctx).
Proof.
  unfold plainName, setProp. intros H.
  apply negb_true_iff in H. now rewrite H.
Qed.

Section LoopFacts.

Variable callFn : nat -> Context -> option Value.
Variable readFile : string -> option string.
Variable rec : list Node -> Context -> M string.

Lemma bindElement_names (ln : LoopNames) (it : Value) (ctx : Context) :
  plainNames ln = true ->
  bindElement (namesOf ln) it ctx = Ok (elementContext ln it ctx).
Proof.
  destruct ln as [x|a b]; unfold plainNames; cbn [namesOf forallb];
    rewrite ?andb_true_r; intros H.
  - cbn [bindElement elementContext]. now apply setProp_plain.
  - apply andb_true_iff in H as [Ha Hb].
    destruct it; cbn [bindElement bindFrom elementContext position];
      rewrite (setProp_plain _ _ _ Ha); cbn [rbind];
      rewrite (setProp_plain _ _ _ Hb); reflexivity.
Qed.

Lemma bindEntry_names (ln : LoopNames) (kv : string * Value) (ctx : Context) :
  plainNames ln = true ->
  bindEntry (namesOf ln) kv ctx = Ok (entryContext ln kv ctx).
Proof.
  destruct ln as [x|a b]; unfold plainNames; cbn [namesOf forallb];
    rewrite ?andb_true_r; intros H.
  - cbn [bindEntry entryContext]. now apply setProp_plain.
  - apply andb_true_iff in H as [Ha Hb].
    cbn [bindEntry entryContext].
    rewrite (setProp_plain _ _ _ Ha); cbn [rbind].
    now apply setProp_plain.
Qed.

Lemma renderFor_steps (ln : LoopNames) (e : string) (nodes : list Node)
    (ctx : Context) (v : Value) (ld : TemplateLoader) :
  plainNames ln = true ->
  getValueFromExpr callFn e ctx = Ok v ->
  renderFor callFn rec (namesOf ln) e nodes ctx ld
  = concatInOrder
      (map (rec nodes)
         (loopContexts ln (if truthy v then v else VArray []) ctx)) ld.
Proof.
  intros Hln Hv. unfold renderFor. unfold bind at 1. unfold lift at 1.
  rewrite Hv.
  assert (Hseq : forall items,
             appendEach
               (fun it =>
                  bind (lift (bindElement (namesOf ln) it ctx)) (rec nodes))
               items EmptyString ld
             = concatInOrder
                 (map (rec nodes)
                    (map (fun it => elementContext ln it ctx) items)) ld).
  { intros items. rewrite appendEach_runs, map_map.
    f_equal. apply map_ext. intros it.
    now rewrite (bindElement_names _ _ _ Hln). }
  assert (Hobj : forall props,
             appendEach
               (fun kv =>
                  bind (lift (bindEntry (namesOf ln) kv ctx)) (rec nodes))
               props EmptyString ld
             = concatInOrder
                 (map (rec nodes)
                    (map (fun kv => entryContext ln kv ctx) props)) ld).
  { intros props. rewrite appendEach_runs, map_map.
    f_equal. apply map_ext. intros kv.
    now rewrite (bindEntry_names _ _ _ Hln). }
  destruct (truthy v) eqn:Ht; [|apply (Hseq [])].
  destruct v as [| |b|n|s|s|items|props|id src props|nm];
    cbn [loopContexts entries]; try reflexivity.
  - apply (Hobj [("value", VString s)]).
  - apply Hseq.
  - apply Hobj.
Qed.

Lemma renderFor_nothing (names : list string) (e : string)
    (nodes : list Node) (ctx : Context) (v : Value) (ld : TemplateLoader) :
  getValueFromExpr callFn e ctx = Ok v ->
  isIterated v = false ->
  renderFor callFn rec names e nodes ctx ld = (Ok EmptyString, ld).
Proof.
  intros Hv Hk. unfold renderFor. unfold bind at 1. unfold lift at 1.
  rewrite Hv.
  destruct (truthy v); [|reflexivity].
  destruct v; try discriminate; reflexivity.
Qed.

End LoopFacts.

(** C6 fails as it is stated, in three places.  A mapping is iterated in
    the order in which [Object.entries] lists its keys, the array indices
    first: the mapping whose key [b] was made before its key [1] renders
    [1=2;b=1;], not [b=1;1=2;].  A SafeString is neither a sequence nor a
    mapping, and a loop over it runs once, on its property [value].  And a
    loop whose name is [__proto__] does not bind it: the assignment of a
    number runs the inherited setter, which ignores it, and [{{ __proto__ }}]
    still finds [Object.prototype]. *)
Lemma C6_counterexample :
  ~ (forall rec ln e nodes ctx v ld,
       getValueFromExpr noCalls e ctx = Ok v ->
       renderNode noCalls noFiles rec (NFor (namesOf ln) e nodes None) ctx ld
       = concatInOrder (map (rec nodes) (statedLoopContexts ln v ctx)) ld) /\
  renderText noCalls noFiles 3
    "{% for k, v in m %}{{ k }}={{ v }};{% endfor %}" ctxMixed
  = Ok "1=2;b=1;" /\
  renderText noCalls noFiles 3 "{% for x in s %}[{{ x }}]{% endfor %}"
    ctxMixed
  = Ok "[a]" /\
  renderText noCalls noFiles 3
    "{% for __proto__ in items %}{{ __proto__ }};{% endfor %}" ctxItems
  = Ok "[object Object];[object Object];[object Object];".
Proof.
  split; [|repeat split; vm_compute; reflexivity].
  intros H.
  specialize (H (fun _ c => ret (toStr (lookup "k" c))) (TwoNames "k" "v")
                "m" [] ctxMixed (VObject [("b", num 1); ("1", num 2)])
                loader eq_refl).
  vm_compute in H. discriminate H.
Qed.

(** C6, amended.  A Loop node with one or two names, none of them
    [__proto__], whose iterable evaluates to a value, renders its body once
    per element of a sequence, in element order, or once per entry of an
    object that is not an array, in the order in which [Object.entries]
    lists the entries (the keys that are array indices first, in ascending
    order, then the other keys in the order of their creation; a SafeString
    has the one entry [value]), each time against the current context
    changed only at the bound names (the assignment of such a name makes
    or changes a property of the new context and leaves every other name as
    it was), and joins the outputs in that order:
    one name is bound to the element or to the value of the entry; two names
    are bound to the key and the value of an entry, or to the positions 0
    and 1 of an element, a missing position giving undefined.  A value that
    is falsy, or that is neither an array, nor a plain object, nor a
    SafeString, renders nothing and raises no error, whatever the names.
    [{% for i in items %}{{ i }}{% endfor %}] over [1, 2, 3] renders [123],
    and [{% for k, v in pairs %}{{ k }}={{ v }};{% endfor %}] over the
    entries [a: 1] and [b: 2] renders [a=1;b=2;]. *)
Theorem C6_loop_iteration :
  (forall callFn readFile rec ln e nodes p ctx v ld,
     plainNames ln = true ->
     getValueFromExpr callFn e ctx = Ok v ->
     renderNode callFn readFile rec (NFor (namesOf ln) e nodes p) ctx ld
     = concatInOrder
         (map (rec nodes)
            (loopContexts ln (if truthy v then v else VArray []) ctx)) ld) /\
  (forall callFn readFile rec names e nodes p ctx v ld,
     getValueFromExpr callFn e ctx = Ok v ->
     truthy v = false \/ isIterated v = false ->
     renderNode callFn readFile rec (NFor names e nodes p) ctx ld
     = (Ok EmptyString, ld)) /\
  (forall (x y : string) (v : Value) (ctx : Context),
     plainName x = true ->
     setProp x v ctx = Ok (assign x v ctx) /\
     lookup x (assign x v ctx) = v /\
     (y <> x -> lookup y (assign x v ctx) = lookup y ctx)) /\
  renderText noCalls noFiles 3 "{% for i in items %}{{ i }}{% endfor %}"
    ctxItems = Ok "123" /\
  renderText noCalls noFiles 3
    "{% for k, v in pairs %}{{ k }}={{ v }};{% endfor %}" ctxPairs
  = Ok "a=1;b=2;".
Proof.
  split; [|split; [|split; [|split]]].
  - intros. cbn [renderNode]. now apply renderFor_steps.
  - intros callFn readFile rec names e nodes p ctx v ld Hv Hk.
    cbn [renderNode]. apply (renderFor_nothing _ _ _ _ _ _ v); [exact Hv|].
    destruct Hk as [Hk|Hk]; [now apply truthy_not_iterated|exact Hk].
  - intros x y v ctx Hx. split; [now apply setProp_plain|].
    unfold lookup. split.
    + now rewrite own_assign_same.
    + intros Hne. now rewrite own_assign_other.
  - vm_compute. reflexivity.
  - vm_compute. reflexivity.
Qed.

Lemma C6_loop_iteration_witness :
  renderNode noCalls noFiles (fun _ c => ret (toStr (lookup "k" c)))
    (NFor (namesOf (TwoNames "k" "v")) "m" [] None) ctxMixed loader
  = (Ok "1b", loader) /\
  renderNode noCalls noFiles (fun _ c => ret (toStr (lookup "i" c)))
    (NFor (namesOf (OneName "i")) "items.length" [] None) ctxItems loader
  = (Ok EmptyString, loader) /\
  lookup "items" (assign "i" (num 1) ctxItems) = lookup "items" ctxItems.
Proof.
  destruct C6_loop_iteration as [Hsteps [Hnone [Hassign _]]].
  split; [|split].
  - rewrite (Hsteps noCalls noFiles _ (TwoNames "k" "v") "m" [] None ctxMixed
               (VObject [("b", num 1); ("1", num 2)]) loader);
      vm_compute; reflexivity.
  - apply (Hnone noCalls noFiles _ ["i"] "items.length" [] None
             ctxItems (num 3) loader); [vm_compute; reflexivity|].
    right. reflexivity.
  - apply (Hassign "i" "items" (num 1) ctxItems); [reflexivity|discriminate].
Defined.

(** ** The filter pipeline *)


Lemma isQuote_cases (q : ascii) : isQuote q = true -> q = squote \/ q = dquote.
Proof.
  unfold isQuote. intros H. apply orb_true_iff in H as [H|H];
    apply Ascii.eqb_eq in H; auto.
Qed.




Section PipelineFacts.

Variable callFn : nat -> Context -> option Value.





End PipelineFacts.




(** ** Unclosed tags *)

Lemma openedIn_frameTag (tokens : list Token) (f g : StackFrame) :
  frameTag f = frameTag g -> openedIn tokens f -> openedIn tokens g.
Proof.
  unfold frameTag, openedIn, openedBy.
  intros Heq [t [Hin [Hty [Htag Hpos]]]].
  injection Heq as Hk Hp.
  exists t. rewrite <- Hk, <- Hp. auto.
Qed.

Lemma pushNode_frames (tokens : list Token) (n : Node) (st st' : ParseState) :
  pushNode n st = Ok st' ->
  Forall (openedIn tokens) (stack st) ->
  Forall (openedIn tokens) (stack st').
Proof.
  unfold pushNode. intros Hp Hall.
  destruct (stack st) as [|[nodes brs cur tp|nodes vs it tp|nodes nm tp] rest]
    eqn:Hs.
  - inversion Hp; subst. constructor.
  - destruct (nth_error brs cur); [|discriminate].
    inversion Hp; subst. cbn [stack].
    inversion Hall as [|? ? Hf Hr]; subst.
    constructor; [|exact Hr].
    eapply openedIn_frameTag; [|exact Hf]. reflexivity.
  - inversion Hp; subst. cbn [stack].
    inversion Hall as [|? ? Hf Hr]; subst.
    constructor; [|exact Hr].
    eapply openedIn_frameTag; [|exact Hf]. reflexivity.
  - inversion Hp; subst. cbn [stack].
    inversion Hall as [|? ? Hf Hr]; subst.
    constructor; [|exact Hr].
    eapply openedIn_frameTag; [|exact Hf]. reflexivity.
Qed.

Lemma parseToken_frames (tokens : list Token) (t : Token)
    (st st' : ParseState) :
  In t tokens ->
  parseToken t st = Ok st' ->
  Forall (openedIn tokens) (stack st) ->
  Forall (openedIn tokens) (stack st').
Proof.
  intros Hin Hp Hall. unfold parseToken in Hp.
  destruct (type t) eqn:Hty.
  - eapply pushNode_frames; eauto.
  - eapply pushNode_frames; eauto.
  - unfold parseTag in Hp. fold (tagOf t) in Hp.
    destruct (String.eqb (tagOf t) "if") eqn:E1.
    { apply String.eqb_eq in E1. inversion Hp; subst. cbn [stack].
      constructor; [|exact Hall].
      exists t. split; [exact Hin|]. repeat split; assumption. }
    destruct (String.eqb (tagOf t) "elif" || String.eqb (tagOf t) "else").
    { destruct (stack st) as [|[nodes brs cur tp| |] rest] eqn:Hs;
        try discriminate.
      inversion Hp; subst. cbn [stack].
      inversion Hall as [|? ? Hf Hr]; subst.
      constructor; [|exact Hr].
      eapply openedIn_frameTag; [|exact Hf]. reflexivity. }
    destruct (String.eqb (tagOf t) "endif").
    { destruct (stack st) as [|[nodes brs cur tp| |] rest] eqn:Hs;
        try discriminate.
      eapply pushNode_frames; [exact Hp|]. cbn [stack].
      now inversion Hall. }
    destruct (String.eqb (tagOf t) "for") eqn:E4.
    { apply String.eqb_eq in E4.
      destruct (smatch forRe (content t)); [|discriminate].
      inversion Hp; subst. cbn [stack].
      constructor; [|exact Hall].
      exists t. split; [exact Hin|]. repeat split; assumption. }
    destruct (String.eqb (tagOf t) "endfor").
    { destruct (stack st) as [|[|nodes vs it tp|] rest] eqn:Hs;
        try discriminate.
      eapply pushNode_frames; [exact Hp|]. cbn [stack].
      now inversion Hall. }
    destruct (String.eqb (tagOf t) "include").
    { destruct (smatch includeRe (content t)); [|discriminate].
      eapply pushNode_frames; eauto. }
    destruct (String.eqb (tagOf t) "block") eqn:E7.
    { apply String.eqb_eq in E7.
      destruct (smatch blockRe (content t)); [|discriminate].
      inversion Hp; subst. cbn [stack].
      constructor; [|exact Hall].
      exists t. split; [exact Hin|]. repeat split; assumption. }
    destruct (String.eqb (tagOf t) "endblock").
    { destruct (stack st) as [|[| |nodes nm tp] rest] eqn:Hs;
        try discriminate.
      eapply pushNode_frames; [exact Hp|]. cbn [stack].
      now inversion Hall. }
    destruct (String.eqb (tagOf t) "extends").
    { destruct (smatch extendsRe (content t)); [|discriminate].
      eapply pushNode_frames; eauto. }
    eapply pushNode_frames; eauto.
  - inversion Hp; subst. exact Hall.
Qed.

Lemma parseLoop_frames (all : list Token) (tokens : list Token) :
  incl tokens all ->
  forall st st',
    parseLoop tokens st = Ok st' ->
    Forall (openedIn all) (stack st) ->
    Forall (openedIn all) (stack st').
Proof.
  induction tokens as [|t rest IH]; intros Hincl st st' Hp Hall;
    cbn [parseLoop] in Hp.
  - inversion Hp; subst. exact Hall.
  - destruct (parseToken t st) as [st1| | |] eqn:Ht; try discriminate.
    cbn [rbind] in Hp.
    eapply (IH (fun x Hx => Hincl x (or_intror Hx))); [exact Hp|].
    eapply parseToken_frames; [|exact Ht|exact Hall].
    apply Hincl. now left.
Qed.

(** C9. When the tokens are used up and the stack of frames is not empty,
    parsing fails with the error [Unclosed tag at line:col], the position
    being that of the tag token that opened the frame on top of the stack,
    the one pushed last.  [load] does not catch the error: it leaves [load],
    and [renderTemplate], with the same message.  An [if] tag that is never
    closed, on line 2 and column 3 of a file, makes [load] fail with
    [Unclosed tag at 2:3]. *)
Theorem C9_unclosed_tag :
  (forall tokens st top rest,
     parseLoop tokens (mkPS [] []) = Ok st ->
     stack st = top :: rest ->
     exists t,
       In t tokens /\ openedBy t top /\
       parse tokens
       = Throw ("Unclosed tag at " ++ string_of_nat (line (pos t)) ++ ":"
                  ++ string_of_nat (col (pos t)))) /\
  (forall readFile ld relpath text e,
     own relpath (cache ld) = None ->
     readFile (joinPath (dir ld) relpath) = Some text ->
     parse (lex text) = Throw e ->
     load readFile relpath ld = (Throw e, ld)) /\
  (forall callFn readFile fuel ld relpath ctx text e,
     own relpath (cache ld) = None ->
     readFile (joinPath (dir ld) relpath) = Some text ->
     parse (lex text) = Throw e ->
     renderTemplate callFn readFile fuel relpath ctx ld = (Throw e, ld)) /\
  load filesUnclosed "page.html" loader
  = (Throw "Unclosed tag at 2:3", loader).
Proof.
  split; [|split; [|split]].
  - intros tokens st top rest Hloop Hstack.
    assert (Hall : Forall (openedIn tokens) (stack st)).
    { eapply (parseLoop_frames tokens tokens (incl_refl _)); [exact Hloop|].
      constructor. }
    rewrite Hstack in Hall. inversion Hall as [|? ? [t [Hin Hop]] _]; subst.
    exists t. split; [exact Hin|]. split; [exact Hop|].
    unfold parse. rewrite Hloop. cbn [rbind]. rewrite Hstack.
    destruct Hop as [_ [_ Hpos]]. rewrite Hpos. reflexivity.
  - intros readFile ld relpath text e Hc Hr Hp.
    unfold load. now rewrite Hc, Hr, Hp.
  - intros callFn readFile fuel ld relpath ctx text e Hc Hr Hp.
    unfold renderTemplate, bind, load. now rewrite Hc, Hr, Hp.
  - vm_compute. reflexivity.
Qed.

Lemma C9_unclosed_tag_witness :
  parse tokensUnclosed = Throw "Unclosed tag at 2:3" /\
  load filesUnclosed "page.html" loader
  = (Throw "Unclosed tag at 2:3", loader) /\
  renderTemplate noCalls filesUnclosed 5 "page.html" [] loader
  = (Throw "Unclosed tag at 2:3", loader).
Proof.
  destruct C9_unclosed_tag as [Hparse [Hload [Hrender _]]].
  split; [|split].
  - destruct (Hparse tokensUnclosed
                (mkPS []
                   [IfFrame [] [mkBranch (Some "x") [NText "yes"]] 0
                      (Some (mkPos 2 3 19));
                    ForFrame [NText (NL ++ "  ")] ["a"] "b"
                      (Some (mkPos 1 1 0))])
                (IfFrame [] [mkBranch (Some "x") [NText "yes"]] 0
                   (Some (mkPos 2 3 19)))
                [ForFrame [NText (NL ++ "  ")] ["a"] "b" (Some (mkPos 1 1 0))])
      as [t [_ [[_ [_ Hpos]] Hthrow]]].
    + vm_compute. reflexivity.
    + reflexivity.
    + rewrite Hthrow. cbn [frameTokenPos] in Hpos.
      injection Hpos as Hp. rewrite <- Hp. reflexivity.
  - apply (Hload filesUnclosed loader "page.html"
             ("{% for a in b %}" ++ NL ++ "  {% if x %}yes"));
      vm_compute; reflexivity.
  - apply (Hrender noCalls filesUnclosed 5 loader "page.html" []
             ("{% for a in b %}" ++ NL ++ "  {% if x %}yes"));
      vm_compute; reflexivity.
Defined.

(** ** Quotes around a path *)

Lemma list_ascii_of_string_append (a b : string) :
  list_ascii_of_string (a ++ b)
  = (list_ascii_of_string a ++ list_ascii_of_string b)%list.
Proof. induction a as [|c r IH]; simpl; [reflexivity|now rewrite IH]. Qed.

(** A lazy run of arbitrary characters in front of a continuation that
    needs the input to end after one more character: the run takes
    everything but the last character. *)
Lemma lazyAny_to_last {R : Type} (k : cursor -> captures -> option R)
    (last : ascii) (x : R) (cs : captures) :
  (forall j c rest, rest <> [] -> k (j, c :: rest) cs = None) ->
  forall g fuel i,
    List.length g < fuel ->
    k (i + List.length g, [last]) cs = Some x ->
    starLoop (fun c s k' => rmatch RAny c s k') false k fuel
      (i, (g ++ [last])%list) cs = Some x.
Proof.
  intros Hk.
  induction g as [|c g IH]; intros fuel i Hfuel Hlast.
  - destruct fuel; cbn [starLoop app]; cbn [List.length] in Hlast;
      rewrite Nat.add_0_r in Hlast; now rewrite Hlast.
  - destruct fuel as [|f]; [cbn [List.length] in Hfuel; lia|].
    cbn [starLoop app].
    rewrite Hk by (destruct g; discriminate).
    cbn [rmatch RAny snd fst].
    assert (Hlt : (S i <=? i) = false) by (apply Nat.leb_gt; lia).
    rewrite Hlt.
    apply IH.
    + cbn [List.length] in Hfuel. lia.
    + cbn [List.length] in Hlast.
      replace (S i + List.length g) with (i + S (List.length g)) by lia.
      exact Hlast.
Qed.

Lemma isQuote_notSpace (q : ascii) : isQuote q = true -> is_space q = false.
Proof.
  intros H. destruct (isQuote_cases q H) as [-> | ->]; reflexivity.
Qed.

Lemma RQuote_isQuote (q : ascii) :
  (Ascii.eqb q dquote || Ascii.eqb q squote) = isQuote q.
Proof. unfold isQuote. apply orb_comm. Qed.

(** A greedy run of white space stops in front of a character that is not
    white space. *)
Lemma greedySpace_stops {R : Type} (k : cursor -> captures -> option R)
    (fuel i : nat) (c : ascii) (rest : list ascii) (cs : captures) :
  is_space c = false ->
  starLoop (fun cu s k' => rmatch RSpace cu s k') true k fuel
    (i, c :: rest) cs
  = k (i, c :: rest) cs.
Proof.
  intros Hc. destruct fuel; cbn [starLoop rmatch RSpace snd]; [reflexivity|].
  now rewrite Hc.
Qed.

Lemma quotedArg_tail (q1 q2 c : ascii) (path' : list ascii) (i : nat) :
  isQuote q1 = true ->
  isQuote q2 = true ->
  rmatch (RCat [RPlus true RSpace; RQuote; RGroup 1 (RPlus false RAny);
                RQuote; REol])
    (i, (" "%char :: q1 :: c :: path' ++ [q2])%list) []
    (fun cu cs => Some (fst cu, cs))
  = Some (i + 4 + List.length path',
          [(1, (i + 2, i + 3 + List.length path'))]).
Proof.
  intros H1 H2.
  cbn [RCat RPlus rmatch RSpace snd fst].
  change (is_space " ") with true. cbn iota.
  etransitivity; [apply greedySpace_stops; now apply isQuote_notSpace|].
  cbn [RQuote rmatch snd fst]. rewrite RQuote_isQuote, H1.
  cbn [RAny rmatch snd fst].
  apply lazyAny_to_last.
  - intros j x rest Hrest. cbn [snd fst].
    destruct (Ascii.eqb x dquote || Ascii.eqb x squote); [|reflexivity].
    destruct rest; [congruence|reflexivity].
  - cbn [snd]. rewrite length_app. cbn [List.length]. lia.
  - cbn [snd fst]. rewrite RQuote_isQuote, H2.
    do 2 f_equal; [lia|]. do 3 f_equal; lia.
Qed.

Lemma rsearch_here (r : regex) (i : nat) (rest : list ascii) (e : nat)
    (cs : captures) :
  rmatch r (i, rest) [] (fun c s => Some (fst c, s)) = Some (e, cs) ->
  rsearch r i rest = Some (mkMatched i e cs).
Proof. intros H. destruct rest; cbn [rsearch]; now rewrite H. Qed.

Lemma length_list_ascii (s : string) :
  List.length (list_ascii_of_string s) = String.length s.
Proof. induction s as [|c r IH]; simpl; [reflexivity|now rewrite IH]. Qed.

Lemma include_matches (q1 q2 c : ascii) (path' : string) :
  isQuote q1 = true ->
  isQuote q2 = true ->
  smatch includeRe
    ("include " ++ String q1 (String c path' ++ String q2 EmptyString))
  = Some (mkMatched 0 (11 + String.length path')
            [(1, (9, 10 + String.length path'))]).
Proof.
  intros H1 H2.
  unfold smatch, rexec. cbn [skipn].
  rewrite list_ascii_of_string_append.
  cbn [append list_ascii_of_string app].
  rewrite list_ascii_of_string_append.
  cbn [list_ascii_of_string].
  pose proof (quotedArg_tail q1 q2 c (list_ascii_of_string path') 7 H1 H2)
    as Ht.
  rewrite length_list_ascii in Ht.
  apply rsearch_here. exact Ht.
Qed.

Lemma extends_matches (q1 q2 c : ascii) (path' : string) :
  isQuote q1 = true ->
  isQuote q2 = true ->
  smatch extendsRe
    ("extends " ++ String q1 (String c path' ++ String q2 EmptyString))
  = Some (mkMatched 0 (11 + String.length path')
            [(1, (9, 10 + String.length path'))]).
Proof.
  intros H1 H2.
  unfold smatch, rexec. cbn [skipn].
  rewrite list_ascii_of_string_append.
  cbn [append list_ascii_of_string app].
  rewrite list_ascii_of_string_append.
  cbn [list_ascii_of_string].
  pose proof (quotedArg_tail q1 q2 c (list_ascii_of_string path') 7 H1 H2)
    as Ht.
  rewrite length_list_ascii in Ht.
  apply rsearch_here. exact Ht.
Qed.

Lemma take_append (a b : string) : take (String.length a) (a ++ b) = a.
Proof. induction a as [|c r IH]; simpl; [now destruct b|now rewrite IH]. Qed.

Lemma splitLoop_keeps_parts (sep : ascii) (input : string) :
  forall parts buf s d e,
    exists more,
      splitLoop sep input parts buf s d e = (parts ++ more)%list.
Proof.
  induction input as [|c r IH]; intros parts buf s d e; cbn [splitLoop].
  - eauto.
  - destruct e; [apply IH|].
    destruct (Ascii.eqb c backslash); [apply IH|].
    destruct (Ascii.eqb c squote && negb d); [apply IH|].
    destruct (Ascii.eqb c dquote && negb s); [apply IH|].
    destruct (negb s && negb d && Ascii.eqb c sep); [|apply IH].
    destruct (IH (parts ++ [buf])%list EmptyString s d false) as [more Hm].
    exists (buf :: more). rewrite Hm. now rewrite <- app_assoc.
Qed.

Lemma tag_include (rest : string) :
  hd EmptyString (splitUnquoted ("include " ++ rest) " ") = "include".
Proof.
  unfold splitUnquoted.
  change (splitLoop " " ("include " ++ rest) [] EmptyString false false false)
    with (splitLoop " " rest ["include"] EmptyString false false false).
  destruct (splitLoop_keeps_parts " " rest ["include"] EmptyString
              false false false) as [more ->].
  reflexivity.
Qed.

Lemma tag_extends (rest : string) :
  hd EmptyString (splitUnquoted ("extends " ++ rest) " ") = "extends".
Proof.
  unfold splitUnquoted.
  change (splitLoop " " ("extends " ++ rest) [] EmptyString false false false)
    with (splitLoop " " rest ["extends"] EmptyString false false false).
  destruct (splitLoop_keeps_parts " " rest ["extends"] EmptyString
              false false false) as [more ->].
  reflexivity.
Qed.

Lemma quotedArg_group (kw : string) (q1 q2 c : ascii) (path' : string) :
  String.length kw = 8 ->
  groupOr (kw ++ String q1 (String c path' ++ String q2 EmptyString))
    (mkMatched 0 (11 + String.length path')
       [(1, (9, 10 + String.length path'))]) 1
  = String c path'.
Proof.
  intros Hk. unfold groupOr, group. cbn [m_caps lookupCap Nat.eqb].
  unfold slice.
  replace (10 + String.length path' - 9) with (S (String.length path'))
    by lia.
  do 9 (destruct kw as [|? kw]; try discriminate).
  cbn [append drop take]. now rewrite take_append.
Qed.

(** C10. The argument of [include] and of [extends] is accepted with any
    mix of single and double quotes at its two ends: for every path that is
    not empty and every choice of the opening and of the closing quote,
    also two different ones, parsing succeeds and gives an Include (or
    Extends) node whose path is the text between the quotes.  The tag
    [include] followed by a double quote, [partial.html] and a single quote
    parses to the Include node of [partial.html]. *)
Theorem C10_mismatched_quotes :
  (forall q1 q2 path p,
     isQuote q1 = true ->
     isQuote q2 = true ->
     nonEmpty path = true ->
     parse [mkToken TTag
              ("include " ++ String q1 (path ++ String q2 EmptyString)) p]
     = Ok [NInclude path (Some p)] /\
     parse [mkToken TTag
              ("extends " ++ String q1 (path ++ String q2 EmptyString)) p]
     = Ok [NExtends path (Some p)]) /\
  parse (lex ("{% include " ++ DQ ++ "partial.html' %}"))
  = Ok [NInclude "partial.html" (Some (mkPos 1 1 0))] /\
  parse (lex ("{% extends 'base.html" ++ DQ ++ " %}"))
  = Ok [NExtends "base.html" (Some (mkPos 1 1 0))].
Proof.
  split; [|split; vm_compute; reflexivity].
  intros q1 q2 path p H1 H2 Hne.
  destruct path as [|c path']; [discriminate|].
  split.
  - unfold parse. cbn [parseLoop parseToken type].
    unfold parseTag. cbn [content pos]. cbv zeta.
    rewrite tag_include.
    change (String.eqb "include" "if") with false.
    change (String.eqb "include" "elif" || String.eqb "include" "else")
      with false.
    change (String.eqb "include" "endif") with false.
    change (String.eqb "include" "for") with false.
    change (String.eqb "include" "endfor") with false.
    change (String.eqb "include" "include") with true.
    cbn iota.
    rewrite (include_matches q1 q2 c path' H1 H2).
    rewrite (quotedArg_group "include " q1 q2 c path' eq_refl).
    reflexivity.
  - unfold parse. cbn [parseLoop parseToken type].
    unfold parseTag. cbn [content pos]. cbv zeta.
    rewrite tag_extends.
    change (String.eqb "extends" "if") with false.
    change (String.eqb "extends" "elif" || String.eqb "extends" "else")
      with false.
    change (String.eqb "extends" "endif") with false.
    change (String.eqb "extends" "for") with false.
    change (String.eqb "extends" "endfor") with false.
    change (String.eqb "extends" "include") with false.
    change (String.eqb "extends" "block") with false.
    change (String.eqb "extends" "endblock") with false.
    change (String.eqb "extends" "extends") with true.
    cbn iota.
    rewrite (extends_matches q1 q2 c path' H1 H2).
    rewrite (quotedArg_group "extends " q1 q2 c path' eq_refl).
    reflexivity.
Qed.

Lemma C10_mismatched_quotes_witness :
  parse [mkToken TTag ("include " ++ String dquote ("partial.html" ++ SQ))
           (mkPos 1 1 0)]
  = Ok [NInclude "partial.html" (Some (mkPos 1 1 0))] /\
  parse [mkToken TTag ("extends " ++ String squote ("base.html" ++ DQ))
           (mkPos 1 1 0)]
  = Ok [NExtends "base.html" (Some (mkPos 1 1 0))].
Proof.
  destruct C10_mismatched_quotes as [Hany _].
  split.
  - apply (Hany dquote squote "partial.html" (mkPos 1 1 0)); reflexivity.
  - apply (Hany squote dquote "base.html" (mkPos 1 1 0)); reflexivity.
Defined.

(** ** The place of the else branch *)

(** C8 fails as it is stated: the tokens of
    [{% if a %}A{% else %}B{% else %}C{% endif %}] parse to a Conditional
    node with two branches whose test is null. *)
Lemma C8_counterexample :
  ~ (forall tokens nodes,
       parse tokens = Ok nodes -> forallb elseWellPlaced nodes = true).
Proof.
  intros H.
  specialize (H tokensTwoElse
                [NIf [mkBranch (Some "a") [NText "A"];
                      mkBranch None [NText "B"];
                      mkBranch None [NText "C"]]
                   (Some (mkPos 1 1 0))] eq_refl).
  discriminate H.
Qed.

Lemma nullOnlyLast_count (brs : list (Branch Node)) :
  nullOnlyLast brs = true -> nullTests brs <= 1.
Proof.
  unfold nullTests.
  induction brs as [|b rest IH]; intros H; [simpl; lia|].
  destruct rest as [|b' rest'].
  - simpl. destruct (negb (hasTest b)); simpl; lia.
  - cbn [nullOnlyLast] in H. apply andb_true_iff in H as [Hb Hr].
    cbn [filter]. rewrite Hb. cbn [negb]. now apply IH.
Qed.

Lemma nullOnlyLast_placed (brs : list (Branch Node)) :
  nullOnlyLast brs = true -> elsePlaced brs = true.
Proof.
  intros H. unfold elsePlaced. rewrite H, andb_true_r.
  apply Nat.leb_le. now apply nullOnlyLast_count.
Qed.

Lemma nullOnlyLast_cons (b : Branch Node) (brs : list (Branch Node)) :
  brs <> [] -> nullOnlyLast (b :: brs) = hasTest b && nullOnlyLast brs.
Proof. destruct brs; [congruence|reflexivity]. Qed.

Lemma nullOnlyLast_snoc (brs : list (Branch Node)) (b : Branch Node) :
  forallb hasTest brs = true -> nullOnlyLast (brs ++ [b]) = true.
Proof.
  induction brs as [|x rest IH]; intros H; [reflexivity|].
  cbn [forallb] in H. apply andb_true_iff in H as [Hx Hr].
  cbn [app]. rewrite nullOnlyLast_cons by (destruct rest; discriminate).
  now rewrite Hx, IH.
Qed.

Lemma length_updateNth {A : Type} (i : nat) (f : A -> A) (l : list A) :
  List.length (updateNth i f l) = List.length l.
Proof.
  revert i; induction l as [|x t IH]; intros [|i]; simpl; auto.
Qed.

Lemma forallb_updateNth {A : Type} (P : A -> bool) (i : nat) (f : A -> A)
    (l : list A) :
  (forall x, P x = true -> P (f x) = true) ->
  forallb P l = true -> forallb P (updateNth i f l) = true.
Proof.
  intros Hf. revert i; induction l as [|x t IH]; intros [|i] H; simpl in *;
    auto; apply andb_true_iff in H as [Hx Ht]; apply andb_true_iff; auto.
Qed.

Lemma nullOnlyLast_updateNth (i : nat) (f : Branch Node -> Branch Node)
    (l : list (Branch Node)) :
  (forall x, hasTest (f x) = hasTest x) ->
  nullOnlyLast (updateNth i f l) = nullOnlyLast l.
Proof.
  intros Hf. revert i; induction l as [|x t IH]; intros i;
    [destruct i; reflexivity|].
  destruct i as [|i].
  - cbn [updateNth]. destruct t; [reflexivity|].
    cbn [nullOnlyLast]. now rewrite Hf.
  - cbn [updateNth]. specialize (IH i).
    destruct t as [|y t']; [destruct i; reflexivity|].
    rewrite nullOnlyLast_cons.
    + rewrite IH. reflexivity.
    + intros E. apply (f_equal (@List.length _)) in E.
      rewrite length_updateNth in E. discriminate.
Qed.

Lemma pushNode_inv (n : Node) (st st' : ParseState) (opens : list OpenTag) :
  elseWellPlaced n = true ->
  pushNode n st = Ok st' ->
  parseInv st opens -> parseInv st' opens.
Proof.
  unfold pushNode, parseInv. intros Hn Hp [Hout Hst].
  destruct (stack st) as [|[nodes brs cur tp|nodes vs it tp|nodes nm tp] rest]
    eqn:Hs.
  - inversion Hp; subst. cbn [out stack]. split; [|exact Hst].
    rewrite forallb_app, Hout. cbn [forallb]. now rewrite Hn.
  - destruct (nth_error brs cur); [|discriminate].
    inversion Hp; subst. cbn [out stack]. split; [exact Hout|].
    inversion Hst as [|? o ? os Hf Hr]; subst.
    constructor; [|exact Hr].
    destruct o as [seen|]; [|contradiction].
    destruct Hf as [Hc [Hne [Hl [Hseen Hb]]]].
    cbn [frameOk]. rewrite length_updateNth.
    split; [exact Hc|]. split.
    { intros E. apply (f_equal (@List.length _)) in E.
      rewrite length_updateNth in E. destruct brs; [congruence|discriminate]. }
    split; [now rewrite nullOnlyLast_updateNth|].
    split.
    { intros Hs'. apply forallb_updateNth; [auto|now apply Hseen]. }
    unfold bodiesPlaced. apply forallb_updateNth; [|exact Hb].
    intros x Hx. cbn [body]. rewrite forallb_app, Hx. cbn [forallb].
    now rewrite Hn.
  - inversion Hp; subst. cbn [out stack]. split; [exact Hout|].
    inversion Hst as [|? o ? os Hf Hr]; subst.
    constructor; [|exact Hr].
    destruct o as [seen|]; [contradiction|]. cbn [frameOk] in *.
    rewrite forallb_app, Hf. cbn [forallb]. now rewrite Hn.
  - inversion Hp; subst. cbn [out stack]. split; [exact Hout|].
    inversion Hst as [|? o ? os Hf Hr]; subst.
    constructor; [|exact Hr].
    destruct o as [seen|]; [contradiction|]. cbn [frameOk] in *.
    rewrite forallb_app, Hf. cbn [forallb]. now rewrite Hn.
Qed.

Lemma parseToken_inv (t : Token) (st st' : ParseState)
    (opens opens' : list OpenTag) :
  parseToken t st = Ok st' ->
  elseStep t opens = Some opens' ->
  parseInv st opens -> parseInv st' opens'.
Proof.
  intros Hp He Hinv. unfold parseToken in Hp. unfold elseStep in He.
  destruct (type t) eqn:Hty.
  - inversion He; subst.
    eapply pushNode_inv; [|exact Hp|exact Hinv]. reflexivity.
  - inversion He; subst.
    eapply pushNode_inv; [|exact Hp|exact Hinv]. reflexivity.
  - unfold parseTag in Hp. fold (tagOf t) in Hp. cbv zeta in He.
    destruct Hinv as [Hout Hst].
    destruct (String.eqb (tagOf t) "if").
    { inversion Hp; inversion He; subst. split; [exact Hout|].
      cbn [stack]. constructor; [|exact Hst].
      cbn [frameOk]. repeat split; try reflexivity. discriminate. }
    destruct (String.eqb (tagOf t) "elif" || String.eqb (tagOf t) "else")
      eqn:E2.
    { destruct (stack st) as [|[nodes brs cur tp| |] rest] eqn:Hs;
        try discriminate.
      inversion Hp; subst. cbn [out stack].
      inversion Hst as [|? o ? os Hf Hr]; subst.
      destruct o as [[|]|]; try discriminate; [|contradiction].
      inversion He; subst.
      split; [exact Hout|]. constructor; [|exact Hr].
      destruct Hf as [Hc [Hne [Hl [Hseen Hb]]]].
      specialize (Hseen eq_refl).
      cbn [frameOk]. split; [reflexivity|].
      split; [destruct brs; discriminate|].
      split; [now apply nullOnlyLast_snoc|].
      split.
      { intros Helse. rewrite forallb_app, Hseen. cbn [forallb andb].
        unfold hasTest. cbn [test].
        destruct (String.eqb (tagOf t) "elif") eqn:E; [reflexivity|].
        cbn [orb] in E2. congruence. }
      unfold bodiesPlaced in *. rewrite forallb_app, Hb. reflexivity. }
    destruct (String.eqb (tagOf t) "endif").
    { destruct (stack st) as [|[nodes brs cur tp| |] rest] eqn:Hs;
        try discriminate.
      inversion He; subst.
      inversion Hst as [|? o ? os Hf Hr]; subst. cbn [tl].
      destruct o as [seen|]; [|contradiction].
      destruct Hf as [Hc [Hne [Hl [Hseen Hb]]]].
      eapply pushNode_inv; [|exact Hp|split; [exact Hout|exact Hr]].
      cbn [elseWellPlaced]. rewrite (nullOnlyLast_placed _ Hl).
      exact Hb. }
    destruct (String.eqb (tagOf t) "for").
    { destruct (smatch forRe (content t)); [|discriminate].
      inversion Hp; inversion He; subst. split; [exact Hout|].
      cbn [stack]. constructor; [|exact Hst]. reflexivity. }
    destruct (String.eqb (tagOf t) "endfor").
    { destruct (stack st) as [|[|nodes vs it tp|] rest] eqn:Hs;
        try discriminate.
      inversion He; subst.
      inversion Hst as [|? o ? os Hf Hr]; subst. cbn [tl].
      destruct o as [seen|]; [contradiction|].
      eapply pushNode_inv; [|exact Hp|split; [exact Hout|exact Hr]].
      exact Hf. }
    destruct (String.eqb (tagOf t) "include").
    { destruct (smatch includeRe (content t)); [|discriminate].
      inversion He; subst.
      eapply pushNode_inv; [|exact Hp|split; assumption]. reflexivity. }
    destruct (String.eqb (tagOf t) "block").
    { destruct (smatch blockRe (content t)); [|discriminate].
      inversion Hp; inversion He; subst. split; [exact Hout|].
      cbn [stack]. constructor; [|exact Hst]. reflexivity. }
    destruct (String.eqb (tagOf t) "endblock").
    { destruct (stack st) as [|[| |nodes nm tp] rest] eqn:Hs;
        try discriminate.
      inversion He; subst.
      inversion Hst as [|? o ? os Hf Hr]; subst. cbn [tl].
      destruct o as [seen|]; [contradiction|].
      eapply pushNode_inv; [|exact Hp|split; [exact Hout|exact Hr]].
      exact Hf. }
    inversion He; subst.
    destruct (String.eqb (tagOf t) "extends").
    { destruct (smatch extendsRe (content t)); [|discriminate].
      eapply pushNode_inv; [|exact Hp|split; assumption]. reflexivity. }
    eapply pushNode_inv; [|exact Hp|split; assumption]. reflexivity.
  - inversion Hp; inversion He; subst. exact Hinv.
Qed.

Lemma parseLoop_inv (tokens : list Token) :
  forall st st' opens,
    parseLoop tokens st = Ok st' ->
    elseNotFollowed tokens opens = true ->
    parseInv st opens ->
    forallb elseWellPlaced (out st') = true.
Proof.
  induction tokens as [|t rest IH]; intros st st' opens Hp He Hinv;
    cbn [parseLoop elseNotFollowed] in *.
  - inversion Hp; subst. apply Hinv.
  - destruct (parseToken t st) as [st1| | |] eqn:Ht; try discriminate.
    destruct (elseStep t opens) as [opens1|] eqn:Hs; [|discriminate].
    cbn [rbind] in Hp.
    eapply IH; [exact Hp|exact He|].
    eapply parseToken_inv; eauto.
Qed.

(** C8, as the code has it.  Parsing does not refuse an [elif] or a second
    [else] after an [else]: it adds one more branch.  When no [elif] and no
    [else] follows the [else] of its conditional in the tokens, and parsing
    succeeds, every Conditional node of the tree has at most one branch
    whose test is null, and that branch is the last one. *)
Theorem C8_else_last_when_not_followed :
  forall tokens nodes,
    parse tokens = Ok nodes ->
    elseNotFollowed tokens [] = true ->
    forallb elseWellPlaced nodes = true.
Proof.
  intros tokens nodes Hp He. unfold parse in Hp.
  destruct (parseLoop tokens (mkPS [] [])) as [st| | |] eqn:Hl; try discriminate.
  cbn [rbind] in Hp.
  destruct (stack st); [|discriminate].
  inversion Hp; subst.
  eapply parseLoop_inv; [exact Hl|exact He|].
  split; [reflexivity|constructor].
Qed.

Lemma C8_else_last_when_not_followed_witness :
  forallb elseWellPlaced
    [NIf [mkBranch (Some "a")
            [NIf [mkBranch (Some "b") [NText "B"];
                  mkBranch None [NText "C"]] (Some (mkPos 1 11 10))];
          mkBranch (Some "c") [NText "D"];
          mkBranch None [NText "E"]] (Some (mkPos 1 1 0))]
  = true.
Proof.
  apply (C8_else_last_when_not_followed tokensNested).
  - vm_compute. reflexivity.
  - vm_compute. reflexivity.
Defined.

(** ** Chains of extends *)

(** C3, at a chain of three templates.  With one parent the block of the
    child replaces the block of the base, and the default is rendered when
    the child supplies none.  With [leaf.html] extending [mid.html]
    extending [base.html], the block of [mid.html] does not replace the
    default of the base: the base is rendered with the blocks of the leaf
    alone, and the block of [mid.html] is rendered after it; a block of the
    leaf is rendered twice, in the base and in place of the block of
    [mid.html]. *)
Theorem C3_chain_of_three :
  renderFile filesChain "child.html" = Ok "<html>CHILD</html>" /\
  renderFile filesChain "plain.html" = Ok "<html>DEFAULT</html>" /\
  renderFile filesChain "leaf.html" = Ok "<html>DEFAULT</html>MID" /\
  renderFile filesChain "leaf2.html" = Ok "<html>LEAF</html>LEAF".
Proof. repeat split; vm_compute; reflexivity. Qed.

(** ** Comparisons *)

(** C4, at a literal that holds an operator.  The test
    ['a>b' == s] is cut at the [>] inside the literal: its operands are
    the texts ['a] and [b' == s], and it is false in a context where [s]
    is the string [a>b]; the test [s == 'a>b'], whose first operator is
    outside the literal, is true there. *)
Theorem C4_operator_inside_literal :
  evalTestExpression noCalls "'a>b' == s" ctxCompare = Ok false /\
  evalTestExpression noCalls "s == 'a>b'" ctxCompare = Ok true /\
  (exists cmp,
     smatch cmpRe "'a>b' == s" = Some cmp /\
     groupOr "'a>b' == s" cmp 1 = "'a" /\
     groupOr "'a>b' == s" cmp 2 = ">" /\
     groupOr "'a>b' == s" cmp 3 = "b' == s").
Proof.
  split; [vm_compute; reflexivity|].
  split; [vm_compute; reflexivity|].
  eexists. split; [vm_compute; reflexivity|].
  repeat split; vm_compute; reflexivity.
Qed.

(** ** The fuel of the loops is never used up *)

Lemma after_refl (cur : cursor) : after cur cur.
Proof.
  exists 0. split; [lia|]. destruct cur as [i rest]. cbn [fst snd skipn].
  now rewrite Nat.add_0_r.
Qed.

Lemma after_trans (a b c : cursor) : after a b -> after b c -> after a c.
Proof.
  intros [d1 [H1 ->]] [d2 [H2 ->]]. cbn [fst snd] in *.
  rewrite length_skipn in H2.
  exists (d1 + d2). split; [lia|].
  rewrite skipn_skipn. f_equal; [lia|]. f_equal. lia.
Qed.

Lemma after_char (i : nat) (c : ascii) (rest : list ascii) :
  after (i, c :: rest) (S i, rest).
Proof.
  exists 1. split; [cbn; lia|]. cbn [fst snd skipn]. f_equal. lia.
Qed.

(** A pattern reaches its continuation only at positions of the input at or
    after the one it starts from. *)
Lemma starLoop_ext {R : Type}
    (step : cursor -> captures -> (cursor -> captures -> option R) -> option R)
    (g : bool) :
  (forall cur cs k1 k2,
     (forall cur' cs', after cur cur' -> k1 cur' cs' = k2 cur' cs') ->
     step cur cs k1 = step cur cs k2) ->
  forall fuel cur cs k1 k2,
    (forall cur' cs', after cur cur' -> k1 cur' cs' = k2 cur' cs') ->
    starLoop step g k1 fuel cur cs = starLoop step g k2 fuel cur cs.
Proof.
  intros Hstep. induction fuel as [|f IH]; intros cur cs k1 k2 Hk;
    cbn [starLoop]; rewrite (Hk cur cs (after_refl cur)).
  - reflexivity.
  - assert (Hmore :
              step cur cs
                (fun cur' cs' =>
                   if fst cur' <=? fst cur then None
                   else starLoop step g k1 f cur' cs')
              = step cur cs
                  (fun cur' cs' =>
                     if fst cur' <=? fst cur then None
                     else starLoop step g k2 f cur' cs')).
    { apply Hstep. intros cur' cs' Ha.
      destruct (fst cur' <=? fst cur); [reflexivity|].
      apply IH. intros cur'' cs'' Hb. apply Hk.
      eapply after_trans; eauto. }
    now rewrite Hmore.
Qed.

Lemma rmatch_ext {R : Type} (r : regex) :
  forall cur cs (k1 k2 : cursor -> captures -> option R),
    (forall cur' cs', after cur cur' -> k1 cur' cs' = k2 cur' cs') ->
    rmatch r cur cs k1 = rmatch r cur cs k2.
Proof.
  induction r as [p| |a IHa b IHb|a IHa b IHb|g a IHa|n a IHa| |];
    intros cur cs k1 k2 Hk; cbn [rmatch].
  - destruct cur as [i [|c rest]]; cbn [fst snd]; [reflexivity|].
    destruct (p c); [|reflexivity]. apply Hk, after_char.
  - apply Hk, after_refl.
  - apply IHa. intros cur' cs' Ha. apply IHb. intros cur'' cs'' Hb.
    apply Hk. eapply after_trans; eauto.
  - rewrite (IHa cur cs k1 k2 Hk), (IHb cur cs k1 k2 Hk). reflexivity.
  - apply starLoop_ext; [|exact Hk].
    intros c s j1 j2 Hj. now apply IHa.
  - apply IHa. intros cur' cs' Ha. now apply Hk.
  - destruct (fst cur =? 0); [|reflexivity]. apply Hk, after_refl.
  - destruct (snd cur); [|reflexivity]. apply Hk, after_refl.
Qed.

Lemma starLoop_S {R : Type}
    (step : cursor -> captures -> (cursor -> captures -> option R) -> option R)
    (g : bool) (k : cursor -> captures -> option R) (f : nat) (cur : cursor)
    (cs : captures) :
  starLoop step g k (S f) cur cs
  = let more :=
      step cur cs
        (fun cur' cs' =>
           if fst cur' <=? fst cur then None
           else starLoop step g k f cur' cs') in
    if g then match more with Some x => Some x | None => k cur cs end
    else match k cur cs with Some x => Some x | None => more end.
Proof. reflexivity. Qed.

(** Any fuel above the length of the rest of the input gives the same
    repetition: the fuel that [rmatch] gives to [starLoop] is never used
    up. *)
Lemma starLoop_fuel {R : Type} (a : regex) (g : bool)
    (k : cursor -> captures -> option R) :
  forall n m cur cs,
    List.length (snd cur) <= n ->
    List.length (snd cur) <= m ->
    starLoop (fun c s k' => rmatch a c s k') g k (S n) cur cs
    = starLoop (fun c s k' => rmatch a c s k') g k (S m) cur cs.
Proof.
  induction n as [|n IH]; intros m cur cs Hn Hm; rewrite !starLoop_S;
    cbv zeta.
  - assert (Hmore : forall f,
               rmatch a cur cs
                 (fun cur' cs' =>
                    if fst cur' <=? fst cur then None
                    else starLoop (fun c s k' => rmatch a c s k') g k f
                           cur' cs')
               = rmatch a cur cs (fun _ _ => None)).
    { intros f. apply rmatch_ext. intros cur' cs' [d [Hd ->]].
      cbn [fst]. replace d with 0 by lia.
      rewrite Nat.add_0_r, Nat.leb_refl. reflexivity. }
    now rewrite (Hmore 0), (Hmore m).
  - assert (Hmore :
              rmatch a cur cs
                (fun cur' cs' =>
                   if fst cur' <=? fst cur then None
                   else starLoop (fun c s k' => rmatch a c s k') g k (S n)
                          cur' cs')
              = rmatch a cur cs
                  (fun cur' cs' =>
                     if fst cur' <=? fst cur then None
                     else starLoop (fun c s k' => rmatch a c s k') g k m
                            cur' cs')).
    { apply rmatch_ext. intros cur' cs' [d [Hd ->]]. cbn [fst].
      destruct (fst cur + d <=? fst cur) eqn:E; [reflexivity|].
      apply Nat.leb_gt in E.
      destruct m as [|m]; [lia|].
      apply IH; cbn [snd]; rewrite length_skipn; lia. }
    now rewrite Hmore.
Qed.

Lemma rmatch_consumes {R : Type} (r : regex) :
  forall cur cs (k : cursor -> captures -> option R) x,
    rmatch r cur cs k = Some x ->
    exists cur' cs', fst cur + minLen r <= fst cur' /\ k cur' cs' = Some x.
Proof.
  induction r as [p| |a IHa b IHb|a IHa b IHb|g a IHa|n a IHa| |];
    intros cur cs k x H; cbn [rmatch minLen] in *.
  - destruct cur as [i [|c rest]]; cbn [fst snd] in *; [discriminate|].
    destruct (p c); [|discriminate].
    exists (S i, rest), cs. cbn [fst]. split; [lia|exact H].
  - exists cur, cs. split; [lia|exact H].
  - apply IHa in H as [cur1 [cs1 [H1 H]]].
    apply IHb in H as [cur2 [cs2 [H2 H]]].
    exists cur2, cs2. split; [lia|exact H].
  - destruct (rmatch a cur cs k) eqn:Ea.
    + inversion H; subst. apply IHa in Ea as [cur1 [cs1 [H1 Hk]]].
      exists cur1, cs1. split; [lia|exact Hk].
    + apply IHb in H as [cur1 [cs1 [H1 Hk]]].
      exists cur1, cs1. split; [lia|exact Hk].
  - rewrite Nat.add_0_r.
    remember (S (List.length (snd cur))) as fuel eqn:Ef. clear Ef.
    revert cur cs x H.
    induction fuel as [|f IHf]; intros cur cs x H.
    + cbn [starLoop] in H.
      destruct g; (exists cur, cs; split; [lia|]);
        destruct (k cur cs); [exact H|discriminate|exact H|discriminate].
    + rewrite starLoop_S in H. cbv zeta in H.
      assert (Hmore :
                forall y,
                  rmatch a cur cs
                    (fun cur' cs' =>
                       if fst cur' <=? fst cur then None
                       else starLoop (fun c s k' => rmatch a c s k') g k f
                              cur' cs') = Some y ->
                  exists cur' cs', fst cur <= fst cur' /\ k cur' cs' = Some y).
      { intros y Hy. apply IHa in Hy as [cur1 [cs1 [H1 Hy]]].
        destruct (fst cur1 <=? fst cur); [discriminate|].
        apply IHf in Hy as [cur2 [cs2 [H2 Hy]]].
        exists cur2, cs2. split; [lia|exact Hy]. }
      destruct g.
      * destruct (rmatch a cur cs _) eqn:Em.
        -- inversion H; subst. now apply Hmore.
        -- exists cur, cs. split; [lia|exact H].
      * destruct (k cur cs) eqn:Ek.
        -- inversion H; subst. exists cur, cs. split; [lia|exact Ek].
        -- now apply Hmore.
  - apply IHa in H as [cur1 [cs1 [H1 H]]].
    exists cur1, ((n, (fst cur, fst cur1)) :: cs1). split; [exact H1|exact H].
  - destruct (fst cur =? 0); [|discriminate].
    exists cur, cs. split; [lia|exact H].
  - destruct (snd cur); [|discriminate].
    exists cur, cs. split; [lia|exact H].
Qed.

Lemma rsearch_bounds (r : regex) (rest : list ascii) :
  forall i m,
    rsearch r i rest = Some m ->
    i <= m_index m /\ m_index m + minLen r <= m_end m.
Proof.
  induction rest as [|c t IH]; intros i m H; cbn [rsearch] in H.
  - destruct (rmatch r (i, []) [] (fun c cs => Some (fst c, cs)))
      as [[e cs]|] eqn:E; [|discriminate].
    inversion H; subst. cbn [m_index m_end].
    apply rmatch_consumes in E as [cur' [cs' [H1 H2]]].
    inversion H2; subst. cbn [fst] in H1. lia.
  - destruct (rmatch r (i, c :: t) [] (fun c cs => Some (fst c, cs)))
      as [[e cs]|] eqn:E.
    + inversion H; subst. cbn [m_index m_end].
      apply rmatch_consumes in E as [cur' [cs' [H1 H2]]].
      inversion H2; subst. cbn [fst] in H1. lia.
    + apply IH in H. lia.
Qed.

Lemma rexec_lexRe_end (template : string) (from : nat) :
  String.length template <= from -> rexec lexRe template from = None.
Proof.
  intros H. unfold rexec.
  rewrite skipn_all2 by (rewrite length_list_ascii; exact H).
  reflexivity.
Qed.

(** Any fuel above the number of characters still to be read gives the same
    tokens: the fuel that [lex] gives to [lexLoop] is never used up. *)
Lemma lexLoop_fuel (template : string) :
  forall n m lastIndex tokens,
    String.length template - lastIndex <= n ->
    String.length template - lastIndex <= m ->
    lexLoop n template lastIndex tokens = lexLoop m template lastIndex tokens.
Proof.
  induction n as [|n IH]; intros m lastIndex tokens Hn Hm.
  - destruct m as [|m]; [reflexivity|].
    cbn [lexLoop]. rewrite rexec_lexRe_end by lia. reflexivity.
  - destruct m as [|m].
    + cbn [lexLoop]. rewrite rexec_lexRe_end by lia. reflexivity.
    + cbn [lexLoop].
      destruct (rexec lexRe template lastIndex) as [mt|] eqn:E; [|reflexivity].
      unfold rexec in E. apply rsearch_bounds in E.
      change (minLen lexRe) with 4 in E.
      apply IH; lia.
Qed.

Lemma bracketScan_ge (rest : string) :
  forall j depth, j <= fst (bracketScan rest j depth).
Proof.
  induction rest as [|c r IH]; intros j depth; destruct depth;
    cbn [bracketScan fst]; try lia.
  eapply Nat.le_trans; [|apply IH]. lia.
Qed.

(** Any fuel above the number of characters still to be read gives the same
    chain: the fuel that [getValueFromExprF] gives to [parseChain] is never
    used up. *)
Lemma parseChain_fuel (expr : string) :
  forall n m i chain,
    String.length expr - i <= n ->
    String.length expr - i <= m ->
    parseChain n expr i chain = parseChain m expr i chain.
Proof.
  induction n as [|n IH]; intros m i chain Hn Hm.
  - destruct m as [|m]; [reflexivity|]. cbn [parseChain].
    replace (i <? String.length expr) with false
      by (symmetry; apply Nat.ltb_ge; lia).
    reflexivity.
  - destruct m as [|m]; cbn [parseChain].
    + replace (i <? String.length expr) with false
        by (symmetry; apply Nat.ltb_ge; lia).
      reflexivity.
    + destruct (i <? String.length expr) eqn:Hi; [|reflexivity].
      apply Nat.ltb_lt in Hi.
      destruct (String.get i expr) as [ch|]; [|reflexivity].
      destruct (Ascii.eqb ch ".").
      * destruct (smatch identRe (drop (S i) expr)); [|reflexivity].
        apply IH; lia.
      * destruct (Ascii.eqb ch "[").
        -- pose proof (bracketScan_ge (drop (S i) expr) (S i) 1) as Hj.
           destruct (bracketScan (drop (S i) expr) (S i) 1) as [j depth].
           cbn [fst] in Hj.
           destruct (negb (depth =? 0)); [reflexivity|].
           apply IH; lia.
        -- destruct (startsWith "()" (drop i expr)); [|reflexivity].
           apply IH; lia.
Qed.

(** ** Templates without a closing delimiter *)

Lemma starLoop_none {R : Type}
    (step : cursor -> captures -> (cursor -> captures -> option R) -> option R)
    (g : bool) :
  (forall cur cs, step cur cs (fun _ _ => None) = None) ->
  (forall cur cs k1 k2,
     (forall cur' cs', after cur cur' -> k1 cur' cs' = k2 cur' cs') ->
     step cur cs k1 = step cur cs k2) ->
  forall fuel cur cs, starLoop step g (fun _ _ => None) fuel cur cs = None.
Proof.
  intros Hnone Hext. induction fuel as [|f IH]; intros cur cs.
  - cbn [starLoop]. now destruct g.
  - rewrite starLoop_S. cbv zeta.
    assert (Hmore :
              step cur cs
                (fun cur' cs' =>
                   if fst cur' <=? fst cur then None
                   else starLoop step g (fun _ _ => None) f cur' cs') = None).
    { transitivity (step cur cs (fun _ _ => None)); [|apply Hnone].
      apply Hext. intros cur' cs' _.
      destruct (fst cur' <=? fst cur); [reflexivity|apply IH]. }
    rewrite Hmore. now destruct g.
Qed.

Lemma rmatch_none {R : Type} (r : regex) :
  forall cur cs, rmatch r cur cs (fun _ _ => @None R) = None.
Proof.
  induction r as [p| |a IHa b IHb|a IHa b IHb|g a IHa|n a IHa| |];
    intros cur cs; cbn [rmatch].
  - destruct (snd cur); [reflexivity|]. now destruct (p a).
  - reflexivity.
  - transitivity (rmatch a cur cs (fun _ _ => @None R)); [|apply IHa].
    apply rmatch_ext. intros cur' cs' _. apply IHb.
  - now rewrite IHa, IHb.
  - apply starLoop_none.
    + exact IHa.
    + intros c s k1 k2 Hk. now apply rmatch_ext.
  - apply IHa.
  - now destruct (fst cur =? 0).
  - now destruct (snd cur).
Qed.

(** A pattern fails when its continuation fails at every position it can
    reach. *)
Lemma rmatch_fails {R : Type} (r : regex) (cur : cursor) (cs : captures)
    (k : cursor -> captures -> option R) :
  (forall cur' cs', after cur cur' -> k cur' cs' = None) ->
  rmatch r cur cs k = None.
Proof.
  intros Hk. transitivity (rmatch r cur cs (fun _ _ => @None R));
    [|apply rmatch_none].
  now apply rmatch_ext.
Qed.

Lemma failsAfter_seq (R : Type) (a b : regex) (cur : cursor) :
  failsAfter R b cur -> failsAfter R (RSeq a b) cur.
Proof.
  intros Hb cur' cs' k Ha. cbn [rmatch]. apply rmatch_fails.
  intros cur'' cs'' Hb'. apply Hb. eapply after_trans; eauto.
Qed.

Lemma failsAfter_group (R : Type) (n : nat) (a : regex) (cur : cursor) :
  failsAfter R a cur -> failsAfter R (RGroup n a) cur.
Proof. intros Ha cur' cs' k H. cbn [rmatch]. now apply Ha. Qed.

Lemma failsAfter_alt (R : Type) (a b : regex) (cur : cursor) :
  failsAfter R a cur -> failsAfter R b cur -> failsAfter R (RAlt a b) cur.
Proof.
  intros Ha Hb cur' cs' k H. cbn [rmatch]. now rewrite Ha, Hb.
Qed.

Lemma literal_needs_char {R : Type} (x : ascii) (lit : string) :
  (exists a b, lit = a ++ String x b) ->
  forall i rest cs (k : cursor -> captures -> option R),
    Forall (fun c => c <> x) rest ->
    rmatch (RLit lit) (i, rest) cs k = None.
Proof.
  induction lit as [|a l IH]; intros [p [q Hpq]] i rest cs k Hrest.
  - destruct p; discriminate.
  - cbn [RLit rmatch snd fst].
    destruct rest as [|c r]; [reflexivity|].
    inversion Hrest as [|? ? Hc Hr]; subst.
    destruct (Ascii.eqb a c) eqn:E; [|reflexivity].
    apply Ascii.eqb_eq in E. subst c.
    apply IH; [|exact Hr].
    destruct p as [|p0 p'].
    + cbn in Hpq. inversion Hpq. congruence.
    + cbn in Hpq. inversion Hpq. eauto.
Qed.

Lemma after_Forall (P : ascii -> Prop) (cur cur' : cursor) :
  after cur cur' -> Forall P (snd cur) -> Forall P (snd cur').
Proof.
  intros [d [_ ->]] H. cbn [snd].
  rewrite <- (firstn_skipn d (snd cur)) in H.
  now apply Forall_app in H.
Qed.

Lemma lexRe_fails (R : Type) (cur : cursor) :
  Forall (fun c => c <> "}"%char) (snd cur) -> failsAfter R lexRe cur.
Proof.
  intros Hrest.
  assert (Hlit : forall lit,
             (exists a b, lit = a ++ String "}"%char b) ->
             failsAfter R (RLit lit) cur).
  { intros lit Hl [i rest] cs' k Ha.
    apply (literal_needs_char "}"%char); [exact Hl|].
    apply (after_Forall _ cur (i, rest) Ha Hrest). }
  unfold lexRe. cbn [RCat].
  apply failsAfter_alt; [|apply failsAfter_alt].
  - apply failsAfter_group. do 4 apply failsAfter_seq.
    apply Hlit. exists "}", EmptyString. reflexivity.
  - apply failsAfter_group. do 4 apply failsAfter_seq.
    apply Hlit. exists "%", EmptyString. reflexivity.
  - apply failsAfter_group. do 2 apply failsAfter_seq.
    apply Hlit. exists "#", EmptyString. reflexivity.
Qed.

Lemma rsearch_lexRe_none (rest : list ascii) :
  Forall (fun c => c <> "}"%char) rest ->
  forall i, rsearch lexRe i rest = None.
Proof.
  induction rest as [|c t IH]; intros H i; cbn [rsearch].
  - now rewrite (lexRe_fails _ (i, []) H (i, []) [] _ (after_refl _)).
  - rewrite (lexRe_fails _ (i, c :: t) H (i, c :: t) [] _ (after_refl _)).
    apply IH. now inversion H.
Qed.

Lemma noChar_Forall (x : ascii) (s : string) :
  noChar x s = true -> Forall (fun c => c <> x) (list_ascii_of_string s).
Proof.
  unfold noChar. induction s as [|c r IH]; cbn; intros H; [constructor|].
  apply andb_true_iff in H as [Hc Hr].
  constructor; [|now apply IH].
  apply negb_true_iff, Ascii.eqb_neq in Hc. exact Hc.
Qed.

Lemma drop_0 (s : string) : drop 0 s = s.
Proof. now destruct s. Qed.

(** A template in which the character [}] does not occur holds no
    variable, tag or comment: it is lexed to one text token with its whole
    text, at line 1 and column 1, and to no token when it is empty.  This
    covers the template without delimiters and the one whose delimiters are
    opened and never closed. *)
Theorem lex_without_closing_delimiter (template : string) :
  noChar "}" template = true -> lex template = oneTextToken template.
Proof.
  intros H. unfold lex. cbn [lexLoop].
  unfold rexec. cbn [skipn].
  rewrite (rsearch_lexRe_none _ (noChar_Forall _ _ H) 0).
  destruct template as [|c r]; reflexivity.
Qed.

Lemma lex_without_closing_delimiter_witness :
  lex "<p>{{ name, {% if" = [mkToken TText "<p>{{ name, {% if" (mkPos 1 1 0)].
Proof.
  apply (lex_without_closing_delimiter "<p>{{ name, {% if"). reflexivity.
Defined.

(** ** What escaping leaves out *)

Lemma allChars_append (p : ascii -> bool) (a b : string) :
  allChars p (a ++ b) = allChars p a && allChars p b.
Proof.
  induction a as [|c r IH]; cbn [append allChars]; [reflexivity|].
  now rewrite IH, andb_assoc.
Qed.

Lemma htmlEntity_no_markup (c : ascii) :
  allChars (fun x => negb (markupChar x)) (htmlEntity c) = true.
Proof. destruct c as [[] [] [] [] [] [] [] []]; reflexivity. Qed.

Lemma htmlEntity_plain (c : ascii) :
  escapedChar c = false -> htmlEntity c = String c EmptyString.
Proof. destruct c as [[] [] [] [] [] [] [] []]; intros H; try reflexivity; discriminate. Qed.

Lemma escapeHtml_free (s : string) :
  allChars (fun x => negb (markupChar x)) (escapeHtml s) = true.
Proof.
  rewrite escapeHtml_substitutes.
  induction s as [|c r IH]; [reflexivity|].
  cbn [substituteEntities]. now rewrite allChars_append, htmlEntity_no_markup.
Qed.

Lemma escapeHtml_plain (s : string) :
  allChars (fun x => negb (escapedChar x)) s = true -> escapeHtml s = s.
Proof.
  rewrite escapeHtml_substitutes.
  induction s as [|c r IH]; intros H; [reflexivity|].
  cbn [allChars] in H. apply andb_true_iff in H as [Hc Hr].
  apply negb_true_iff in Hc.
  cbn [substituteEntities]. rewrite (htmlEntity_plain c Hc), (IH Hr).
  reflexivity.
Qed.

(** The output of [escapeHtml] holds no [<], no [>] and no quote of either
    kind, whatever its input; a text without the five characters is left as
    it is. *)
Theorem escapeHtml_no_markup :
  (forall s, allChars (fun x => negb (markupChar x)) (escapeHtml s) = true) /\
  (forall s,
     allChars (fun x => negb (escapedChar x)) s = true -> escapeHtml s = s).
Proof. split; [exact escapeHtml_free|exact escapeHtml_plain]. Qed.

Lemma escapeHtml_no_markup_witness : escapeHtml "a b;c" = "a b;c".
Proof.
  destruct escapeHtml_no_markup as [_ Hid]. apply Hid. reflexivity.
Defined.

(** A Variable node never puts a [<], a [>] or a quote in the output
    unless the value of its expression is a SafeString. *)
Theorem renderVar_no_markup :
  forall callFn expr ctx v,
    evalVarExpression callFn expr ctx = Ok v ->
    isSafeString v = false ->
    exists text,
      renderVar callFn expr ctx = Ok text /\
      allChars (fun x => negb (markupChar x)) text = true.
Proof.
  intros callFn expr ctx v Hv Hs. unfold renderVar. rewrite Hv. cbn [rbind].
  destruct (isNullish v); [now exists EmptyString|].
  destruct v; try discriminate;
    (eexists; split; [reflexivity|apply escapeHtml_free]).
Qed.

Lemma renderVar_no_markup_witness :
  exists text,
    renderVar noCalls "s | upper" ctxEscaping = Ok text /\
    allChars (fun x => negb (markupChar x)) text = true.
Proof.
  apply (renderVar_no_markup noCalls "s | upper" ctxEscaping
           (VString ("<B>&'" ++ DQ))); reflexivity.
Defined.

(** ** The closing script tag *)

Lemma startsClosingScript_cons (c : ascii) (x : string) :
  startsClosingScript (String c x)
  = Ascii.eqb (toLowerChar c) "<"
      && String.eqb (toLowerCase (take 7 x)) "/script".
Proof. reflexivity. Qed.

Lemma toLowerCase_keeps_lt (t u : string) :
  toLowerCase t = u ->
  allChars (fun x => negb (Ascii.eqb x "<")) u = true ->
  allChars (fun x => negb (Ascii.eqb x "<")) t = true.
Proof.
  revert u; induction t as [|c r IH]; intros u Hu Hall; [reflexivity|].
  cbn in Hu. subst u. cbn [allChars] in *.
  apply andb_true_iff in Hall as [Hc Hr].
  apply andb_true_iff. split; [|now apply (IH _ eq_refl)].
  destruct (Ascii.eqb c "<") eqn:E; [|reflexivity].
  apply Ascii.eqb_eq in E. subst c. discriminate.
Qed.

(** Where the output starts without a [<], it starts like the input. *)
Lemma escapeClosingScript_copies (n : nat) :
  forall r,
    allChars (fun x => negb (Ascii.eqb x "<"))
      (take n (escapeClosingScriptFrom 0 r)) = true ->
    take n (escapeClosingScriptFrom 0 r) = take n r.
Proof.
  induction n as [|n IH]; intros r H; [now destruct r|].
  destruct r as [|c r']; [reflexivity|].
  cbn [escapeClosingScriptFrom] in *.
  destruct (String.eqb (toLowerCase (take 8 (String c r'))) "</script").
  - cbn in H. discriminate.
  - cbn [take allChars] in *. apply andb_true_iff in H as [_ H].
    now rewrite (IH r' H).
Qed.

Lemma escapeClosingScript_head (c : ascii) (r : string) :
  startsClosingScript (String c r) = false ->
  startsClosingScript (String c (escapeClosingScriptFrom 0 r)) = false.
Proof.
  intros H.
  destruct (startsClosingScript (String c (escapeClosingScriptFrom 0 r)))
    eqn:E; [|reflexivity].
  rewrite startsClosingScript_cons in E, H.
  apply andb_true_iff in E as [Ec Er].
  rewrite Ec in H. cbn [andb] in H.
  apply String.eqb_eq in Er.
  assert (Hlt : allChars (fun x => negb (Ascii.eqb x "<"))
                  (take 7 (escapeClosingScriptFrom 0 r)) = true).
  { eapply toLowerCase_keeps_lt; [exact Er|reflexivity]. }
  rewrite (escapeClosingScript_copies 7 r Hlt) in Er.
  rewrite Er in H. discriminate.
Qed.

Lemma escapeClosingScriptFrom_clean (s : string) :
  forall skip,
    containsClosingScript (escapeClosingScriptFrom skip s) = false.
Proof.
  induction s as [|c r IH]; intros skip; [reflexivity|].
  cbn [escapeClosingScriptFrom].
  destruct skip as [|k]; [|apply IH].
  destruct (String.eqb (toLowerCase (take 8 (String c r))) "</script") eqn:E.
  - cbn. apply IH.
  - cbn [containsClosingScript]. rewrite IH, orb_false_r.
    now apply escapeClosingScript_head.
Qed.

(** The output of [escapeClosingScript] holds no [</script], in any mix of
    cases, and so does the text that the [raw_json] filter wraps: a value
    cannot close the script element it is written into. *)
Theorem escapeClosingScript_clean :
  (forall json, containsClosingScript (escapeClosingScript json) = false) /\
  (forall v arg,
     exists text,
       filter_raw_json v arg = VSafe text /\
       containsClosingScript text = false).
Proof.
  split.
  - intros json. apply escapeClosingScriptFrom_clean.
  - intros v arg. unfold filter_raw_json.
    destruct (jsonStringify v) as [j|].
    + eexists. split; [reflexivity|apply escapeClosingScriptFrom_clean].
    + now exists "null".
Qed.

(** ** The cache of the loader *)

(** Once a path is loaded, loading it again gives the same template
    whatever the files have become: the file is read and parsed once.  A
    load that fails leaves the loader as it was, and a load never changes
    what is cached for another path. *)
Theorem load_caches :
  (forall readFile p ld tpl ld',
     load readFile p ld = (Ok tpl, ld') ->
     forall readFile', load readFile' p ld' = (Ok tpl, ld')) /\
  (forall readFile p ld r ld',
     load readFile p ld = (r, ld') -> isOk r = false -> ld' = ld) /\
  (forall readFile p q ld r ld',
     load readFile p ld = (r, ld') ->
     q <> p -> own q (cache ld') = own q (cache ld)).
Proof.
  split; [|split].
  - intros readFile p ld tpl ld' H readFile'. unfold load in *.
    destruct (own p (cache ld)) as [t|] eqn:Hc.
    + inversion H; subst. now rewrite Hc.
    + destruct (readFile (joinPath (dir ld) p)); [|discriminate].
      destruct (parse (lex s)); try discriminate.
      inversion H; subst. cbn [cache dir].
      now rewrite own_assign_same.
  - intros readFile p ld r ld' H Hr. unfold load in H.
    destruct (own p (cache ld)) as [t|].
    + inversion H; subst. discriminate.
    + destruct (readFile (joinPath (dir ld) p)); [|now inversion H].
      destruct (parse (lex s)); inversion H; subst; [discriminate| | |];
        reflexivity.
  - intros readFile p q ld r ld' H Hq. unfold load in H.
    destruct (own p (cache ld)) as [t|].
    + now inversion H.
    + destruct (readFile (joinPath (dir ld) p)); [|now inversion H].
      destruct (parse (lex s)); inversion H; subst; try reflexivity.
      cbn [cache]. now apply own_assign_other.
Qed.

Lemma load_caches_witness :
  load noFiles "a.html" (snd (load filesOne "a.html" loader))
  = load filesOne "a.html" (snd (load filesOne "a.html" loader)) /\
  snd (load filesOne "b.html" loader) = loader /\
  own "b.html" (cache (snd (load filesOne "a.html" loader)))
  = own "b.html" (cache loader).
Proof.
  destruct load_caches as [Hsame [Hfail Hother]].
  split; [|split].
  - rewrite (Hsame filesOne "a.html" loader
               (mkTemplate "a.html" "A{{ x }}"
                  [NText "A"; NVar "x" (Some (mkPos 1 2 1))])
               (snd (load filesOne "a.html" loader)) eq_refl noFiles).
    rewrite (Hsame filesOne "a.html" loader
               (mkTemplate "a.html" "A{{ x }}"
                  [NText "A"; NVar "x" (Some (mkPos 1 2 1))])
               (snd (load filesOne "a.html" loader)) eq_refl filesOne).
    reflexivity.
  - apply (Hfail filesOne "b.html" loader
             (fst (load filesOne "b.html" loader))); reflexivity.
  - apply (Hother filesOne "a.html" "b.html" loader
             (fst (load filesOne "a.html" loader))); [reflexivity|discriminate].
Defined.

(** ** Paths *)

Lemma replaceChar_free (c : ascii) (rep s : string) :
  noChar c rep = true -> noChar c (replaceChar c rep s) = true.
Proof.
  unfold noChar. intros Hrep.
  induction s as [|x r IH]; [reflexivity|].
  cbn [replaceChar]. destruct (Ascii.eqb x c) eqn:E.
  - now rewrite allChars_append, Hrep, IH.
  - cbn [allChars]. now rewrite E, IH.
Qed.

Lemma replaceChar_absent (c : ascii) (rep s : string) :
  noChar c s = true -> replaceChar c rep s = s.
Proof.
  unfold noChar. induction s as [|x r IH]; intros H; [reflexivity|].
  cbn [allChars] in H. apply andb_true_iff in H as [Hx Hr].
  apply negb_true_iff in Hx. cbn [replaceChar]. now rewrite Hx, (IH Hr).
Qed.

(** The path that [joinPath] builds holds no backslash, and it is the two
    parts around a slash when they hold none. *)
Theorem joinPath_slashes :
  (forall a b, noChar backslash (joinPath a b) = true) /\
  (forall a b,
     noChar backslash a = true -> noChar backslash b = true ->
     joinPath a b = a ++ "/" ++ b).
Proof.
  split.
  - intros a b. unfold joinPath. now apply replaceChar_free.
  - intros a b Ha Hb. unfold joinPath. apply replaceChar_absent.
    unfold noChar in *. rewrite allChars_append. cbn [append allChars].
    now rewrite Ha, Hb.
Qed.

Lemma joinPath_slashes_witness :
  joinPath "./templates" "base.html" = "./templates/base.html".
Proof.
  destruct joinPath_slashes as [_ H]. apply H; reflexivity.
Defined.

(** ** Rendering a sequence of nodes *)

Lemma collectBlocks_noExtends (nodes : list Node) :
  noExtends nodes = true ->
  forall blocks e, snd (collectBlocks nodes blocks e) = e.
Proof.
  unfold noExtends.
  induction nodes as [|n t IH]; intros H blocks e; [reflexivity|].
  cbn [forallb] in H. apply andb_true_iff in H as [Hn Ht].
  destruct n; cbn [collectBlocks]; try apply (IH Ht). discriminate.
Qed.

Lemma collectBlocks_extends (nodes : list Node) :
  noExtends nodes = false ->
  forall blocks e, exists p, snd (collectBlocks nodes blocks e) = Some p.
Proof.
  unfold noExtends.
  induction nodes as [|n t IH]; intros H blocks e; [discriminate|].
  cbn [forallb] in H.
  destruct n as [| | | | | |p0 ?]; cbn [collectBlocks andb] in *;
    try apply (IH H).
  destruct (forallb
              (fun n => match n with NExtends _ _ => false | _ => true end) t)
    eqn:Ht.
  - exists p0. now apply collectBlocks_noExtends.
  - now apply IH.
Qed.

Lemma collectBlocks_filter (nodes : list Node) :
  forall blocks e,
    collectBlocks (filter inheritanceNode nodes) blocks e
    = collectBlocks nodes blocks e.
Proof.
  induction nodes as [|n t IH]; intros blocks e; [reflexivity|].
  destruct n; cbn [filter inheritanceNode collectBlocks]; apply IH.
Qed.

Lemma concatInOrder_app (r1 r2 : list (M string)) (ld : TemplateLoader) :
  concatInOrder (r1 ++ r2) ld
  = bind (concatInOrder r1)
      (fun x => bind (concatInOrder r2) (fun y => ret (x ++ y))) ld.
Proof.
  revert ld. induction r1 as [|r t IH]; intros ld; cbn [app concatInOrder].
  - unfold bind, ret.
    destruct (concatInOrder r2 ld) as [[y|e| |] ld1]; reflexivity.
  - unfold bind at 1 3 4. destruct (r ld) as [[a|e| |] ld1]; try reflexivity.
    unfold bind at 1. rewrite IH. unfold bind, ret.
    destruct (concatInOrder t ld1) as [[x|e| |] ld2]; try reflexivity.
    destruct (concatInOrder r2 ld2) as [[y|e| |] ld3]; try reflexivity.
    now rewrite append_assoc.
Qed.

Lemma renderNodes_runs callFn readFile (f : nat) (nodes : list Node)
    (ctx : Context) (ld : TemplateLoader) :
  noExtends nodes = true ->
  renderNodes callFn readFile (S f) nodes ctx ld
  = concatInOrder
      (map (fun n => renderNode callFn readFile
                       (renderNodes callFn readFile f) n ctx) nodes) ld.
Proof.
  intros H. cbn [renderNodes].
  pose proof (collectBlocks_noExtends nodes H noBlocks None) as Hc.
  destruct (collectBlocks nodes noBlocks None) as [blocks e]. cbn [snd] in Hc.
  subst e. apply appendEach_runs.
Qed.

(** Without an [extends] at top level, rendering two sequences of nodes one
    after the other is rendering the first, then the second with the cache
    the first has left, and joining the two outputs; an error of the first
    is the error of the whole and the second is not rendered. *)
Theorem renderNodes_append :
  forall callFn readFile f a b ctx ld,
    noExtends (a ++ b) = true ->
    renderNodes callFn readFile (S f) (a ++ b) ctx ld
    = bind (renderNodes callFn readFile (S f) a ctx)
        (fun x =>
           bind (renderNodes callFn readFile (S f) b ctx)
             (fun y => ret (x ++ y))) ld.
Proof.
  intros callFn readFile f a b ctx ld H.
  assert (Ha : noExtends a = true /\ noExtends b = true).
  { unfold noExtends in *. rewrite forallb_app in H.
    now apply andb_true_iff in H. }
  destruct Ha as [Ha Hb].
  rewrite (renderNodes_runs _ _ _ _ _ _ H), map_app, concatInOrder_app.
  unfold bind at 1 3.
  rewrite <- (renderNodes_runs callFn readFile f a ctx ld Ha).
  destruct (renderNodes callFn readFile (S f) a ctx ld) as [[x|e| |] ld1];
    try reflexivity.
  unfold bind.
  now rewrite <- (renderNodes_runs callFn readFile f b ctx ld1 Hb).
Qed.

Lemma renderNodes_append_witness :
  renderNodes noCalls noFiles 2 ([NText "a"; NVar "x" None] ++ [NText "b"])
    [("x", num 1)] loader
  = (Ok "a1b", loader).
Proof.
  rewrite (renderNodes_append noCalls noFiles 1 [NText "a"; NVar "x" None]
             [NText "b"] [("x", num 1)] loader eq_refl).
  reflexivity.
Defined.

(** In a template that extends another, what stands at top level outside
    the blocks is not rendered: the template renders like the one that
    keeps only its blocks and its [extends] nodes. *)
Theorem renderNodes_extends_ignores_rest :
  forall callFn readFile fuel nodes ctx ld,
    noExtends nodes = false ->
    renderNodes callFn readFile fuel nodes ctx ld
    = renderNodes callFn readFile fuel (filter inheritanceNode nodes) ctx ld.
Proof.
  intros callFn readFile fuel nodes ctx ld H.
  destruct fuel as [|f]; [reflexivity|]. cbn [renderNodes].
  rewrite collectBlocks_filter.
  destruct (collectBlocks_extends nodes H noBlocks None) as [p Hp].
  destruct (collectBlocks nodes noBlocks None) as [blocks e]. cbn [snd] in Hp.
  now subst e.
Qed.

Lemma renderNodes_extends_ignores_rest_witness :
  renderNodes noCalls filesChain 5
    [NText "dropped"; NExtends "base.html" None;
     NBlock "body" [NText "B"] None; NVar "x" None] [] loader
  = renderNodes noCalls filesChain 5
      [NExtends "base.html" None; NBlock "body" [NText "B"] None] [] loader.
Proof.
  apply (renderNodes_extends_ignores_rest noCalls filesChain 5
           [NText "dropped"; NExtends "base.html" None;
            NBlock "body" [NText "B"] None; NVar "x" None] [] loader).
  reflexivity.
Defined.

(** ** Tokens without tags, and comments *)

Lemma parseLoop_app (a b : list Token) :
  forall st, parseLoop (a ++ b) st = rbind (parseLoop a st) (parseLoop b).
Proof.
  induction a as [|t r IH]; intros st; cbn [app parseLoop]; [reflexivity|].
  destruct (parseToken t st); cbn [rbind]; [apply IH|reflexivity..].
Qed.

Lemma parseLoop_comments (tokens : list Token) :
  forall st,
    parseLoop (filter (fun t => negb (isComment t)) tokens) st
    = parseLoop tokens st.
Proof.
  induction tokens as [|t r IH]; intros st; [reflexivity|].
  cbn [filter]. unfold isComment at 1.
  destruct (type t) eqn:Ht; cbn [negb parseLoop]; unfold parseToken;
    rewrite Ht.
  - destruct (pushNode _ st); cbn [rbind]; [apply IH|reflexivity..].
  - destruct (pushNode _ st); cbn [rbind]; [apply IH|reflexivity..].
  - destruct (parseTag t st); cbn [rbind]; [apply IH|reflexivity..].
  - cbn [rbind]. apply IH.
Qed.

(** Comment tokens leave no trace: parsing gives the same tree, or the same
    error, when they are taken out of the tokens. *)
Theorem parse_drops_comments (tokens : list Token) :
  parse (filter (fun t => negb (isComment t)) tokens) = parse tokens.
Proof. unfold parse. now rewrite parseLoop_comments. Qed.

Lemma parseLoop_plain (tokens : list Token) :
  forallb (fun t => negb (isTag t)) tokens = true ->
  forall nodes,
    parseLoop tokens (mkPS nodes [])
    = Ok (mkPS (nodes ++ plainNodes tokens) []).
Proof.
  induction tokens as [|t r IH]; intros H nodes.
  - cbn. now rewrite app_nil_r.
  - cbn [forallb] in H. apply andb_true_iff in H as [Ht Hr].
    unfold isTag in Ht. cbn [parseLoop plainNodes flat_map].
    unfold parseToken.
    destruct (type t); try discriminate; cbn [pushNode stack out rbind];
      rewrite (IH Hr); unfold plainNodes; now rewrite <- ?app_assoc.
Qed.

(** Tokens among which there is no tag always parse, to the nodes of the
    texts and of the variables in their order. *)
Theorem parse_without_tags (tokens : list Token) :
  forallb (fun t => negb (isTag t)) tokens = true ->
  parse tokens = Ok (plainNodes tokens).
Proof.
  intros H. unfold parse. now rewrite (parseLoop_plain tokens H []).
Qed.

Lemma parse_without_tags_witness :
  parse (lex "a{{ x }}{# c #}b")
  = Ok [NText "a"; NVar "x" (Some (mkPos 1 2 1)); NText "b"].
Proof.
  apply (parse_without_tags (lex "a{{ x }}{# c #}b")). reflexivity.
Defined.

(** ** Tags that close what is not open *)

Lemma parseTag_unexpected (t : Token) (st : ParseState) (kind : string) :
  neededFrame (tagOf t) = Some kind ->
  topIsNot kind (stack st) ->
  parseTag t st = Throw ("Unexpected " ++ tagOf t ++ " at " ++ at_ (pos t)).
Proof.
  unfold neededFrame, parseTag. fold (tagOf t). cbv zeta.
  intros Hk Htop.
  destruct (String.eqb (tagOf t) "if") eqn:E0.
  { apply String.eqb_eq in E0. rewrite E0 in Hk. discriminate. }
  destruct (String.eqb (tagOf t) "elif" || String.eqb (tagOf t) "else")
    eqn:E1.
  { cbn [orb] in Hk. inversion Hk; subst kind.
    destruct (stack st) as [|[| |] rest]; try reflexivity.
    cbn in Htop. congruence. }
  cbn [orb] in Hk.
  destruct (String.eqb (tagOf t) "endif") eqn:E2.
  { inversion Hk; subst kind. apply String.eqb_eq in E2. rewrite E2.
    destruct (stack st) as [|[| |] rest]; try reflexivity.
    cbn in Htop. congruence. }
  destruct (String.eqb (tagOf t) "for") eqn:E3.
  { apply String.eqb_eq in E3. rewrite E3 in Hk. discriminate. }
  destruct (String.eqb (tagOf t) "endfor") eqn:E4.
  { inversion Hk; subst kind. apply String.eqb_eq in E4. rewrite E4.
    destruct (stack st) as [|[| |] rest]; try reflexivity.
    cbn in Htop. congruence. }
  destruct (String.eqb (tagOf t) "include") eqn:E5.
  { apply String.eqb_eq in E5. rewrite E5 in Hk. discriminate. }
  destruct (String.eqb (tagOf t) "block") eqn:E6.
  { apply String.eqb_eq in E6. rewrite E6 in Hk. discriminate. }
  destruct (String.eqb (tagOf t) "endblock") eqn:E7.
  { inversion Hk; subst kind. apply String.eqb_eq in E7. rewrite E7.
    destruct (stack st) as [|[| |] rest]; try reflexivity.
    cbn in Htop. congruence. }
  discriminate.
Qed.

(** An [elif], [else], [endif], [endfor] or [endblock] tag that comes when
    the stack is empty, or when the frame on top is of another kind, makes
    parsing fail with [Unexpected tag at line:col], the position being that
    of the tag itself, whatever follows it. *)
Theorem parse_unexpected_tag :
  forall before t rest st kind,
    parseLoop before (mkPS [] []) = Ok st ->
    type t = TTag ->
    neededFrame (tagOf t) = Some kind ->
    topIsNot kind (stack st) ->
    parse (before ++ t :: rest)
    = Throw ("Unexpected " ++ tagOf t ++ " at "
               ++ string_of_nat (line (pos t)) ++ ":"
               ++ string_of_nat (col (pos t))).
Proof.
  intros before t rest st kind Hb Ht Hk Htop.
  unfold parse. rewrite parseLoop_app, Hb. cbn [rbind parseLoop].
  unfold parseToken. rewrite Ht.
  now rewrite (parseTag_unexpected t st kind Hk Htop).
Qed.

Lemma parse_unexpected_tag_witness :
  parse tokensForEndif = Throw "Unexpected endif at 2:1".
Proof.
  apply (parse_unexpected_tag
           [mkToken TTag "for a in b" (mkPos 1 1 0); mkToken TText NL (mkPos 1 17 16)]
           (mkToken TTag "endif" (mkPos 2 1 17))
           [mkToken TText "x" (mkPos 2 12 28)]
           (mkPS [] [ForFrame [NText NL] ["a"] "b" (Some (mkPos 1 1 0))])
           "if").
  - vm_compute. reflexivity.
  - reflexivity.
  - reflexivity.
  - cbn. discriminate.
Defined.

(** ** Opening and closing tags *)

Lemma pushNode_depth (n : Node) (st st' : ParseState) :
  pushNode n st = Ok st' ->
  List.length (stack st') = List.length (stack st).
Proof.
  unfold pushNode. intros H.
  destruct (stack st) as [|[nodes brs cur tp|nodes vs it tp|nodes nm tp] rest].
  - now inversion H.
  - destruct (nth_error brs cur); [|discriminate]. now inversion H.
  - now inversion H.
  - now inversion H.
Qed.

Lemma parseToken_depth (t : Token) (st st' : ParseState) :
  parseToken t st = Ok st' ->
  List.length (stack st') + b2n (closesFrame t)
  = List.length (stack st) + b2n (opensFrame t).
Proof.
  unfold parseToken, opensFrame, closesFrame, isTag. intros H.
  destruct (type t).
  - apply pushNode_depth in H. cbn. lia.
  - apply pushNode_depth in H. cbn. lia.
  - unfold parseTag in H. fold (tagOf t) in H. cbv zeta in H. cbn [andb].
    destruct (String.eqb (tagOf t) "if") eqn:E0.
    { apply String.eqb_eq in E0. rewrite ?E0. inversion H. cbn. lia. }
    destruct (String.eqb (tagOf t) "elif" || String.eqb (tagOf t) "else")
      eqn:E1.
    { assert (Hn : String.eqb (tagOf t) "endif" = false
                   /\ String.eqb (tagOf t) "for" = false
                   /\ String.eqb (tagOf t) "endfor" = false
                   /\ String.eqb (tagOf t) "block" = false
                   /\ String.eqb (tagOf t) "endblock" = false).
      { apply orb_true_iff in E1 as [E|E]; apply String.eqb_eq in E;
          rewrite E; repeat split; reflexivity. }
      destruct Hn as [-> [-> [-> [-> ->]]]].
      destruct (stack st) as [|[| |] rest]; try discriminate.
      inversion H. cbn. lia. }
    destruct (String.eqb (tagOf t) "endif") eqn:E2.
    { apply String.eqb_eq in E2. rewrite ?E2.
      destruct (stack st) as [|[| |] rest]; try discriminate.
      apply pushNode_depth in H. cbn in *. lia. }
    destruct (String.eqb (tagOf t) "for") eqn:E3.
    { apply String.eqb_eq in E3. rewrite ?E3.
      destruct (smatch forRe (content t)); [|discriminate].
      inversion H. cbn. lia. }
    destruct (String.eqb (tagOf t) "endfor") eqn:E4.
    { apply String.eqb_eq in E4. rewrite ?E4.
      destruct (stack st) as [|[| |] rest]; try discriminate.
      apply pushNode_depth in H. cbn in *. lia. }
    destruct (String.eqb (tagOf t) "include") eqn:E5.
    { apply String.eqb_eq in E5. rewrite ?E5.
      destruct (smatch includeRe (content t)); [|discriminate].
      apply pushNode_depth in H. cbn. lia. }
    destruct (String.eqb (tagOf t) "block") eqn:E6.
    { apply String.eqb_eq in E6. rewrite ?E6.
      destruct (smatch blockRe (content t)); [|discriminate].
      inversion H. cbn. lia. }
    destruct (String.eqb (tagOf t) "endblock") eqn:E7.
    { apply String.eqb_eq in E7. rewrite ?E7.
      destruct (stack st) as [|[| |] rest]; try discriminate.
      apply pushNode_depth in H. cbn in *. lia. }
    cbn.
    destruct (String.eqb (tagOf t) "extends").
    { destruct (smatch extendsRe (content t)); [|discriminate].
      apply pushNode_depth in H. lia. }
    apply pushNode_depth in H. lia.
  - inversion H. cbn. lia.
Qed.

Lemma parseLoop_depth (tokens : list Token) :
  forall st st',
    parseLoop tokens st = Ok st' ->
    List.length (stack st') + countIf closesFrame tokens
    = List.length (stack st) + countIf opensFrame tokens.
Proof.
  unfold countIf.
  induction tokens as [|t r IH]; intros st st' H; cbn [parseLoop] in H.
  - inversion H. cbn. lia.
  - destruct (parseToken t st) as [st1| | |] eqn:Ht; try discriminate.
    cbn [rbind] in H. apply IH in H. apply parseToken_depth in Ht.
    cbn [filter].
    destruct (closesFrame t), (opensFrame t); cbn [b2n List.length] in *; lia.
Qed.

(** Tokens that parse hold as many [endif], [endfor] and [endblock] tags as
    [if], [for] and [block] tags. *)
Theorem parse_balanced (tokens : list Token) (nodes : list Node) :
  parse tokens = Ok nodes ->
  countIf closesFrame tokens = countIf opensFrame tokens.
Proof.
  unfold parse. intros H.
  destruct (parseLoop tokens (mkPS [] [])) as [st| | |] eqn:Hl; try discriminate.
  cbn [rbind] in H. apply parseLoop_depth in Hl.
  destruct (stack st); [|discriminate]. cbn in Hl. lia.
Qed.

Lemma parse_balanced_witness :
  countIf closesFrame (lex "{% if a %}{% for x in y %}{% endfor %}{% endif %}")
  = countIf opensFrame (lex "{% if a %}{% for x in y %}{% endfor %}{% endif %}").
Proof.
  apply (parse_balanced
           (lex "{% if a %}{% for x in y %}{% endfor %}{% endif %}")
           [NIf [mkBranch (Some "a")
                   [NFor ["x"] "y" [] (Some (mkPos 1 11 10))]]
              (Some (mkPos 1 1 0))]).
  vm_compute. reflexivity.
Defined.

(** ** Names, white space and pipes in expressions *)

Lemma anchored_bol (r : regex) : anchored (RSeq RBol r).
Proof. intros R i rest cs k. reflexivity. Qed.

Lemma anchored_alt (a b : regex) :
  anchored a -> anchored b -> anchored (RAlt a b).
Proof. intros Ha Hb R i rest cs k. cbn [rmatch]. now rewrite Ha, Hb. Qed.

Lemma rsearch_anchored (r : regex) (rest : list ascii) :
  anchored r -> forall i, rsearch r (S i) rest = None.
Proof.
  intros Ha. induction rest as [|c t IH]; intros i; cbn [rsearch];
    rewrite Ha; [reflexivity|apply IH].
Qed.

Lemma smatch_anchored (r : regex) (s : string) :
  anchored r ->
  smatch r s
  = match rmatch r (0, list_ascii_of_string s) []
            (fun c cs => Some (fst c, cs)) with
    | Some (e, cs) => Some (mkMatched 0 e cs)
    | None => None
    end.
Proof.
  intros Ha. unfold smatch, rexec. cbn [skipn].
  destruct (list_ascii_of_string s) as [|c t]; cbn [rsearch].
  - now destruct (rmatch r (0, []) [] _) as [[e cs]|].
  - destruct (rmatch r (0, c :: t) [] _) as [[e cs]|]; [reflexivity|].
    now apply rsearch_anchored.
Qed.

Lemma rsearch_fails (r : regex) (rest : list ascii) :
  forall i,
    failsAfter (nat * captures) r (i, rest) -> rsearch r i rest = None.
Proof.
  induction rest as [|c t IH]; intros i H; cbn [rsearch].
  - now rewrite (H (i, []) [] _ (after_refl _)).
  - rewrite (H (i, c :: t) [] _ (after_refl _)).
    apply IH. intros cur' cs' k Ha. apply H.
    eapply after_trans; [apply after_char|exact Ha].
Qed.

Lemma failsAfter_first (R : Type) (a b : regex) (cur : cursor) :
  failsAfter R a cur -> failsAfter R (RSeq a b) cur.
Proof. intros Ha cur' cs' k H. cbn [rmatch]. now apply Ha. Qed.

(** *** White space *)

Lemma ident_not_space (c : ascii) : is_ident_part c = true -> is_space c = false.
Proof. destruct c as [[] [] [] [] [] [] [] []]; intros H; try reflexivity; discriminate. Qed.

Lemma ident_start_part (c : ascii) :
  is_ident_start c = true -> is_ident_part c = true.
Proof. unfold is_ident_part. now intros ->. Qed.

Lemma trimEnd_solid (s : string) :
  allChars (fun c => negb (is_space c)) s = true -> trimEnd s = s.
Proof.
  induction s as [|c r IH]; intros H; [reflexivity|].
  cbn [allChars] in H. apply andb_true_iff in H as [Hc Hr].
  apply negb_true_iff in Hc. cbn [trimEnd]. rewrite (IH Hr), Hc.
  now destruct r.
Qed.

Lemma trim_solid (s : string) :
  allChars (fun c => negb (is_space c)) s = true -> trim s = s.
Proof.
  intros H. unfold trim.
  assert (Hs : trimStart s = s).
  { destruct s as [|c r]; [reflexivity|]. cbn [allChars] in H.
    apply andb_true_iff in H as [Hc _]. apply negb_true_iff in Hc.
    cbn [trimStart]. now rewrite Hc. }
  rewrite Hs. now apply trimEnd_solid.
Qed.

Lemma allChars_impl (p q : ascii -> bool) (s : string) :
  (forall c, p c = true -> q c = true) ->
  allChars p s = true -> allChars q s = true.
Proof.
  intros Hpq. induction s as [|c r IH]; intros H; [reflexivity|].
  cbn [allChars] in *. apply andb_true_iff in H as [Hc Hr].
  now rewrite (Hpq c Hc), (IH Hr).
Qed.

Lemma trimEnd_head (c : ascii) (r : string) :
  is_space c = false -> exists r', trimEnd (String c r) = String c r'.
Proof.
  intros Hc. cbn [trimEnd]. rewrite Hc. destruct (trimEnd r); eauto.
Qed.

Lemma trimEnd_idempotent (s : string) : trimEnd (trimEnd s) = trimEnd s.
Proof.
  induction s as [|c r IH]; [reflexivity|].
  cbn [trimEnd]. destruct (trimEnd r) as [|d r'] eqn:E.
  - destruct (is_space c) eqn:Hc; [reflexivity|]. cbn [trimEnd]. now rewrite Hc.
  - cbn [trimEnd]. cbn [trimEnd] in IH. now rewrite IH.
Qed.

Lemma trimStart_head (s : string) :
  match trimStart s with
  | EmptyString => True
  | String c _ => is_space c = false
  end.
Proof.
  induction s as [|c r IH]; [exact I|].
  cbn [trimStart]. destruct (is_space c) eqn:Hc; [exact IH|exact Hc].
Qed.

(** Trimming a trimmed text changes nothing. *)
Lemma trim_idempotent (s : string) : trim (trim s) = trim s.
Proof.
  unfold trim. pose proof (trimStart_head s) as H.
  destruct (trimStart s) as [|c r]; [reflexivity|].
  destruct (trimEnd_head c r H) as [r' Hr]. rewrite Hr.
  cbn [trimStart]. rewrite H, <- Hr. apply trimEnd_idempotent.
Qed.

(** *** The fuel of the evaluator *)

Lemma evalChain_agree callFn (ev1 ev2 : string -> result Value)
    (ctx : Context) (chain : list ChainStep) :
  Forall (indexAgree ev1 ev2) chain ->
  forall cur,
    evalChain callFn ev1 ctx chain cur = evalChain callFn ev2 ctx chain cur.
Proof.
  induction chain as [|st rest IH]; intros H cur; [reflexivity|].
  inversion H as [|? ? Hst Hrest]; subst. cbn [evalChain].
  destruct (isNullish cur); [reflexivity|].
  destruct st as [nm|nm|e|]; cbn [indexAgree] in Hst.
  - now apply IH.
  - destruct (isObjectOrFunction cur); [|reflexivity].
    destruct (getProp cur nm) as [w|msg| |]; cbn [rbind]; try reflexivity.
    now apply IH.
  - rewrite Hst. destruct (ev2 e) as [idx|msg| |]; cbn [rbind]; try reflexivity.
    destruct idx; try reflexivity;
      (destruct (isObjectOrFunction cur); [|reflexivity];
       match goal with
       | |- rbind ?g _ = _ => destruct g as [w|msg| |]
       end; cbn [rbind]; try reflexivity; now apply IH).
  - destruct cur; try now apply IH.
    + destruct (callFn id ctx); now apply IH.
    + destruct (isFunction (VNative name)); [|now apply IH].
      destruct (callNative callFn name ctx) as [w|msg| |]; cbn [rbind];
        try reflexivity.
      now apply IH.
Qed.

(** Any fuel above the length of the trimmed expression gives the same
    value. *)
Lemma getValueFromExprF_fuel callFn (n : nat) :
  forall m expr ctx,
    String.length (trim expr) < n ->
    String.length (trim expr) < m ->
    getValueFromExprF callFn n expr ctx = getValueFromExprF callFn m expr ctx.
Proof.
  induction n as [|n IH]; intros m expr ctx Hn Hm; [lia|].
  destruct m as [|m]; [lia|].
  cbn [getValueFromExprF].
  set (e := trim expr) in *.
  destruct (String.eqb e "true"); [reflexivity|].
  destruct (String.eqb e "false"); [reflexivity|].
  destruct (String.eqb e "null" || String.eqb e "undefined"); [reflexivity|].
  destruct (smatch numberRe e); [reflexivity|].
  destruct (smatch quotedRe e); [reflexivity|].
  destruct (smatch identRe e) as [nameMatch|]; [|reflexivity].
  destruct (parseChain (String.length e) e
              (String.length (matched e nameMatch))
              [StepName (matched e nameMatch)]) as [chain|] eqn:Hp;
    [|reflexivity].
  apply parseChain_short in Hp; [|constructor; [exact I|constructor]].
  destruct chain as [|[name| | |] steps]; try reflexivity.
  apply evalChain_agree.
  inversion Hp as [|? ? _ Hsteps]; subst.
  eapply Forall_impl; [|exact Hsteps].
  intros [nm|nm|ie|] Hs; cbn [indexAgree indexShort] in *; auto.
  pose proof (length_trim ie). apply IH; lia.
Qed.

Lemma getValueFromExprF_trim callFn (f : nat) (expr : string) (ctx : Context) :
  getValueFromExprF callFn (S f) (trim expr) ctx
  = getValueFromExprF callFn (S f) expr ctx.
Proof. cbn [getValueFromExprF]. now rewrite trim_idempotent. Qed.

Lemma getValueFromExpr_trimmed callFn (expr : string) (ctx : Context) :
  getValueFromExpr callFn (trim expr) ctx = getValueFromExpr callFn expr ctx.
Proof.
  unfold getValueFromExpr. rewrite getValueFromExprF_trim.
  pose proof (length_trim expr).
  apply getValueFromExprF_fuel; lia.
Qed.

(** White space around an expression does not change its value. *)
Theorem getValueFromExpr_ignores_outer_space :
  forall callFn expr ctx,
    getValueFromExpr callFn (trim expr) ctx = getValueFromExpr callFn expr ctx.
Proof. exact getValueFromExpr_trimmed. Qed.

(** *** Names *)

Lemma greedy_takes_all {R : Type} (p : ascii -> bool)
    (k : cursor -> captures -> option R) (x : R) (cs : captures) :
  forall l fuel i,
    forallb p l = true ->
    List.length l < fuel ->
    k (i + List.length l, []) cs = Some x ->
    starLoop (fun c s k' => rmatch (RChar p) c s k') true k fuel (i, l) cs
    = Some x.
Proof.
  set (step := fun c s k' => rmatch (R := R) (RChar p) c s k').
  induction l as [|c t IH]; intros fuel i Hp Hf Hk;
    (destruct fuel as [|f]; [cbn [List.length] in Hf; lia|]);
    rewrite starLoop_S; cbv zeta; unfold step at 1; cbn [rmatch snd fst].
  - cbn [List.length] in Hk. rewrite Nat.add_0_r in Hk. exact Hk.
  - cbn [forallb] in Hp. apply andb_true_iff in Hp as [Hc Ht]. rewrite Hc.
    assert (Hlt : (S i <=? i) = false) by (apply Nat.leb_gt; lia).
    rewrite Hlt.
    rewrite (IH f (S i) Ht).
    + reflexivity.
    + cbn [List.length] in Hf. lia.
    + cbn [List.length] in Hk.
      replace (S i + List.length t) with (i + S (List.length t)) by lia.
      exact Hk.
Qed.

Lemma allChars_forallb (p : ascii -> bool) (s : string) :
  allChars p s = forallb p (list_ascii_of_string s).
Proof.
  induction s as [|c r IH]; [reflexivity|]. cbn. now rewrite IH.
Qed.

Lemma take_all (s : string) : take (String.length s) s = s.
Proof. induction s as [|c r IH]; cbn; [reflexivity|now rewrite IH]. Qed.

Lemma ident_start_facts (c : ascii) :
  is_ident_start c = true ->
  is_digit c = false /\ Ascii.eqb "-" c = false
  /\ Ascii.eqb dquote c = false /\ Ascii.eqb squote c = false.
Proof.
  destruct c as [[] [] [] [] [] [] [] []]; intros H;
    try discriminate; repeat split.
Qed.

Lemma ident_part_facts (c : ascii) :
  is_ident_part c = true ->
  Ascii.eqb c "|" = false.
Proof.
  destruct c as [[] [] [] [] [] [] [] []]; intros H;
    try discriminate; reflexivity.
Qed.

Lemma anchored_numberRe : anchored numberRe.
Proof. apply anchored_bol. Qed.

Lemma anchored_quotedRe : anchored quotedRe.
Proof. apply anchored_alt; apply anchored_bol. Qed.

Lemma anchored_identRe : anchored identRe.
Proof. apply anchored_bol. Qed.


Lemma identifier_value callFn (f : nat) (name : string) (ctx : Context) :
  isIdentifier name = true ->
  isKeyword name = false ->
  getValueFromExprF callFn (S f) name ctx = Ok (lookup name ctx).
Proof.
  intros Hid Hkw.
  destruct name as [|c r]; [discriminate|].
  cbn [isIdentifier] in Hid. apply andb_true_iff in Hid as [Hc Hr].
  assert (Hsolid : allChars (fun x => negb (is_space x)) (String c r) = true).
  { cbn [allChars]. rewrite (ident_not_space c (ident_start_part c Hc)).
    cbn [negb andb]. eapply allChars_impl; [|exact Hr].
    intros x Hx. now rewrite (ident_not_space x Hx). }
  cbn [getValueFromExprF]. rewrite (trim_solid _ Hsolid).
  unfold isKeyword in Hkw.
  apply orb_false_iff in Hkw as [Hkw Hk4].
  apply orb_false_iff in Hkw as [Hkw Hk3].
  apply orb_false_iff in Hkw as [Hk1 Hk2].
  rewrite Hk1, Hk2, Hk3, Hk4. cbn [orb].
  destruct (ident_start_facts c Hc) as [Hd [Hm [Hdq Hsq]]].
  rewrite (smatch_anchored _ _ anchored_numberRe).
  rewrite (smatch_anchored _ _ anchored_quotedRe).
  rewrite (smatch_anchored _ _ anchored_identRe).
  cbn [list_ascii_of_string].
  assert (Hnum : rmatch numberRe (0, c :: list_ascii_of_string r) []
                   (fun cu cs => Some (fst cu, cs)) = None).
  { cbn [numberRe RCat ROpt RLit RPlus rmatch snd fst Nat.eqb].
    now rewrite Hm, Hd. }
  assert (Hquo : rmatch quotedRe (0, c :: list_ascii_of_string r) []
                   (fun cu cs => Some (fst cu, cs)) = None).
  { cbn [quotedRe RCat rmatch snd fst Nat.eqb]. now rewrite Hdq, Hsq. }
  assert (Hide : rmatch identRe (0, c :: list_ascii_of_string r) []
                   (fun cu cs => Some (fst cu, cs))
                 = Some (S (String.length r), [])).
  { cbn [identRe RCat rmatch snd fst Nat.eqb]. rewrite Hc.
    apply greedy_takes_all.
    - now rewrite <- allChars_forallb.
    - lia.
    - cbn [fst]. now rewrite length_list_ascii. }
  rewrite Hnum, Hquo, Hide.
  unfold matched. cbn [m_index m_end]. unfold slice.
  rewrite Nat.sub_0_r, drop_0.
  change (S (String.length r)) with (String.length (String c r)).
  rewrite take_all.
  assert (Hchain : forall fuel chain,
             parseChain fuel (String c r) (String.length (String c r)) chain
             = Some chain).
  { intros [|fuel] chain; cbn [parseChain]; [reflexivity|].
    now rewrite Nat.ltb_irrefl. }
  rewrite Hchain. reflexivity.
Qed.

Lemma splitLoop_noSep (sep : ascii) (input : string) :
  noChar sep input = true ->
  forall parts buf s d e,
    splitLoop sep input parts buf s d e
    = (parts ++ [(buf ++ input)%string])%list.
Proof.
  unfold noChar. induction input as [|c r IH]; intros H parts buf s d e.
  - cbn [splitLoop]. now rewrite append_empty_r.
  - cbn [allChars] in H. apply andb_true_iff in H as [Hc Hr].
    apply negb_true_iff in Hc. cbn [splitLoop]. rewrite Hc, andb_false_r.
    repeat match goal with
           | |- context [if ?b then _ else _] => destruct b
           end;
      rewrite (IH Hr); unfold snoc; now rewrite append_assoc.
Qed.

Lemma rbind_Ok {A : Type} (r : result A) : rbind r Ok = r.
Proof. now destruct r. Qed.

Lemma evalVarExpression_noPipe callFn (expr : string) (ctx : Context) :
  noChar "|" expr = true ->
  evalVarExpression callFn expr ctx = getValueFromExpr callFn expr ctx.
Proof.
  intros H. unfold evalVarExpression, splitUnquoted.
  rewrite (splitLoop_noSep "|" expr H). cbn [app map hd tl applyFilters append].
  rewrite getValueFromExpr_trimmed. apply rbind_Ok.
Qed.

(** An expression in which no pipe occurs is evaluated as it stands, no
    filter applied, also when a quoted literal or an index stands in it. *)
Theorem evalVarExpression_without_pipe :
  forall callFn expr ctx,
    noChar "|" expr = true ->
    evalVarExpression callFn expr ctx = getValueFromExpr callFn expr ctx.
Proof. exact evalVarExpression_noPipe. Qed.

Lemma evalVarExpression_without_pipe_witness :
  evalVarExpression noCalls "o.k[o.i]" ctxPaths
  = getValueFromExpr noCalls "o.k[o.i]" ctxPaths.
Proof.
  apply (evalVarExpression_without_pipe noCalls "o.k[o.i]" ctxPaths).
  reflexivity.
Defined.

(** A name that is not one of the words [true], [false], [null] and
    [undefined] evaluates to what the context, a plain object, gives for
    it: its own property of that name, else the member of
    [Object.prototype] of that name, else undefined.  A Variable node with a
    name that is neither a property of the context nor the name of a member
    of [Object.prototype] renders the empty string; in the empty context
    [{{ toString }}] renders the text of the built-in function. *)
Theorem identifier_is_looked_up :
  (forall callFn name ctx,
     isIdentifier name = true ->
     isKeyword name = false ->
     getValueFromExpr callFn name ctx = Ok (lookup name ctx) /\
     evalVarExpression callFn name ctx = Ok (lookup name ctx) /\
     (own name ctx = None ->
      inherited name = None ->
      renderVar callFn name ctx = Ok EmptyString)) /\
  renderVar noCalls "toString" []
  = Ok "function toString() { [native code] }".
Proof.
  split; [|vm_compute; reflexivity].
  intros callFn name ctx Hid Hkw.
  assert (Hv : getValueFromExpr callFn name ctx = Ok (lookup name ctx)).
  { unfold getValueFromExpr. now apply identifier_value. }
  assert (He : evalVarExpression callFn name ctx = Ok (lookup name ctx)).
  { rewrite evalVarExpression_noPipe; [exact Hv|].
    destruct name as [|c r]; [discriminate|].
    cbn [isIdentifier] in Hid. apply andb_true_iff in Hid as [Hc Hr].
    unfold noChar. cbn [allChars].
    rewrite (ident_part_facts c (ident_start_part c Hc)). cbn [negb andb].
    eapply allChars_impl; [|exact Hr].
    intros x Hx. now rewrite (ident_part_facts x Hx). }
  split; [exact Hv|]. split; [exact He|].
  intros Hown Hinh. unfold renderVar. rewrite He. unfold lookup.
  now rewrite Hown, Hinh.
Qed.

Lemma identifier_is_looked_up_witness :
  getValueFromExpr noCalls "items" ctxItems
  = Ok (VArray [num 1; num 2; num 3]) /\
  getValueFromExpr noCalls "valueOf" ctxItems = Ok (VNative "valueOf") /\
  renderVar noCalls "missing_name" ctxItems = Ok EmptyString.
Proof.
  destruct identifier_is_looked_up as [H _].
  destruct (H noCalls "items" ctxItems eq_refl eq_refl) as [Hv _].
  destruct (H noCalls "valueOf" ctxItems eq_refl eq_refl) as [Hn _].
  destruct (H noCalls "missing_name" ctxItems eq_refl eq_refl)
    as [_ [_ Hr]].
  split; [exact Hv|]. split; [exact Hn|]. apply Hr; reflexivity.
Defined.

(** *** Tests without an operator *)

Lemma trimStart_allChars (p : ascii -> bool) (s : string) :
  allChars p s = true -> allChars p (trimStart s) = true.
Proof.
  induction s as [|c r IH]; intros H; [reflexivity|].
  cbn [trimStart]. destruct (is_space c); [|exact H].
  cbn [allChars] in H. apply andb_true_iff in H as [_ Hr]. now apply IH.
Qed.

Lemma trimEnd_allChars (p : ascii -> bool) (s : string) :
  allChars p s = true -> allChars p (trimEnd s) = true.
Proof.
  induction s as [|c r IH]; intros H; [reflexivity|].
  cbn [allChars] in H. apply andb_true_iff in H as [Hc Hr].
  cbn [trimEnd]. specialize (IH Hr).
  destruct (trimEnd r) as [|d r'].
  - destruct (is_space c); [reflexivity|]. cbn [allChars]. now rewrite Hc.
  - cbn [allChars] in *. now rewrite Hc, IH.
Qed.

Lemma trim_allChars (p : ascii -> bool) (s : string) :
  allChars p s = true -> allChars p (trim s) = true.
Proof. intros H. now apply trimEnd_allChars, trimStart_allChars. Qed.

Lemma cmpRe_fails (cur : cursor) :
  Forall (fun c => c <> "="%char) (snd cur) ->
  Forall (fun c => c <> "<"%char) (snd cur) ->
  Forall (fun c => c <> ">"%char) (snd cur) ->
  failsAfter (nat * captures) cmpRe cur.
Proof.
  intros He Hl Hg.
  assert (Hlit : forall x lit,
             Forall (fun c => c <> x) (snd cur) ->
             (exists a b, lit = a ++ String x b) ->
             failsAfter (nat * captures) (RLit lit) cur).
  { intros x lit Hx Hlit [i rest] cs' k Ha.
    apply (literal_needs_char x); [exact Hlit|].
    apply (after_Forall _ cur (i, rest) Ha Hx). }
  unfold cmpRe. cbn [RCat].
  do 3 apply failsAfter_seq. apply failsAfter_first. apply failsAfter_group.
  repeat apply failsAfter_alt.
  - apply (Hlit "="%char); [exact He|]. exists EmptyString, "=". reflexivity.
  - apply (Hlit "="%char); [exact He|]. exists "!", EmptyString. reflexivity.
  - apply (Hlit "="%char); [exact He|]. exists ">", EmptyString. reflexivity.
  - apply (Hlit "="%char); [exact He|]. exists "<", EmptyString. reflexivity.
  - apply (Hlit ">"%char); [exact Hg|].
    exists EmptyString, EmptyString. reflexivity.
  - apply (Hlit "<"%char); [exact Hl|].
    exists EmptyString, EmptyString. reflexivity.
Qed.

(** A test in which none of [=], [<] and [>] occurs is false, without any
    evaluation, when it is empty or white space; otherwise the whole test
    is evaluated as an expression, what that evaluation raises the test
    raises, and for the value it yields the test holds when the value is
    truthy: it is false for undefined, null, false, zero and the empty
    string, and true for every other value, an empty array or object
    too. *)
Theorem evalTestExpression_without_operator :
  forall callFn expr ctx,
    noChar "=" expr = true ->
    noChar "<" expr = true ->
    noChar ">" expr = true ->
    evalTestExpression callFn expr ctx
    = if nonEmpty (trim expr)
      then rbind (getValueFromExpr callFn expr ctx) (fun v => Ok (truthy v))
      else Ok false.
Proof.
  intros callFn expr ctx He Hl Hg.
  unfold evalTestExpression.
  destruct (nonEmpty (trim expr)); cbn [negb]; [|reflexivity].
  assert (Hm : smatch cmpRe (trim expr) = None).
  { unfold smatch, rexec. cbn [skipn]. apply rsearch_fails.
    apply cmpRe_fails; cbn [snd]; apply noChar_Forall;
      now apply trim_allChars. }
  now rewrite Hm, getValueFromExpr_trimmed.
Qed.

Lemma evalTestExpression_without_operator_witness :
  evalTestExpression noCalls "items" ctxItems = Ok true /\
  evalTestExpression noCalls "constructor.caller" ctxItems
  = Throw "TypeError".
Proof.
  split.
  - rewrite (evalTestExpression_without_operator noCalls "items" ctxItems);
      reflexivity.
  - rewrite (evalTestExpression_without_operator noCalls
               "constructor.caller" ctxItems); reflexivity.
Defined.

(** ** Quoted literals *)

Lemma trimEnd_last (s : string) (q : ascii) :
  is_space q = false ->
  trimEnd (s ++ String q EmptyString) = s ++ String q EmptyString.
Proof.
  intros Hq. induction s as [|c r IH].
  - cbn. now rewrite Hq.
  - cbn [append trimEnd]. rewrite IH.
    destruct r; reflexivity.
Qed.

Lemma trim_quotedLiteral (q : ascii) (s : string) :
  isQuote q = true -> trim (quotedLiteral q s) = quotedLiteral q s.
Proof.
  intros Hq. unfold trim, quotedLiteral.
  assert (Hs : is_space q = false)
    by (destruct (isQuote_cases q Hq) as [-> | ->]; reflexivity).
  cbn [trimStart]. rewrite Hs.
  apply (trimEnd_last (String q s) q Hs).
Qed.

(** A greedy run of arbitrary characters in front of a continuation that
    fails at the end of the input and succeeds one character before it:
    the run takes everything but the last character. *)
Lemma greedyAny_to_last {R : Type}
    (k : cursor -> captures -> option R) (x : R) (q : ascii) (cs : captures) :
  forall l fuel i,
    List.length l + 1 < fuel ->
    k (i + List.length l, [q]) cs = Some x ->
    k (S (i + List.length l), []) cs = None ->
    starLoop (fun c s k' => rmatch RAny c s k') true k fuel (i, l ++ [q])%list cs
    = Some x.
Proof.
  set (step := fun c s k' => rmatch (R := R) RAny c s k').
  induction l as [|c t IH]; intros fuel i Hf Hk Hend;
    (destruct fuel as [|f]; [lia|]);
    rewrite starLoop_S; cbv zeta; unfold step at 1;
    cbn [rmatch RAny snd fst app List.length] in *.
  - rewrite Nat.add_0_r in Hk, Hend.
    assert (Hlt : (S i <=? i) = false) by (apply Nat.leb_gt; lia).
    rewrite Hlt.
    destruct f as [|f]; [lia|].
    rewrite starLoop_S; cbv zeta; unfold step at 1; cbn [rmatch RAny snd fst].
    now rewrite Hend, Hk.
  - assert (Hlt : (S i <=? i) = false) by (apply Nat.leb_gt; lia).
    rewrite Hlt.
    rewrite (IH f (S i)).
    + reflexivity.
    + lia.
    + replace (S i + List.length t) with (i + S (List.length t)) by lia.
      exact Hk.
    + replace (S (S i + List.length t)) with (S (i + S (List.length t)))
        by lia.
      exact Hend.
Qed.

Lemma take_append_one (s : string) (q : ascii) :
  take (String.length s) (s ++ String q EmptyString) = s.
Proof. apply take_append. Qed.

Lemma quoted_value callFn (f : nat) (q : ascii) (s : string) (ctx : Context) :
  isQuote q = true ->
  getValueFromExprF callFn (S f) (quotedLiteral q s) ctx = Ok (VString s).
Proof.
  intros Hq. cbn [getValueFromExprF]. rewrite (trim_quotedLiteral q s Hq).
  assert (Hkw : String.eqb (quotedLiteral q s) "true" = false /\
                String.eqb (quotedLiteral q s) "false" = false /\
                String.eqb (quotedLiteral q s) "null" = false /\
                String.eqb (quotedLiteral q s) "undefined" = false).
  { destruct (isQuote_cases q Hq) as [-> | ->]; repeat split. }
  destruct Hkw as [H1 [H2 [H3 H4]]]. rewrite H1, H2, H3, H4. cbn [orb].
  rewrite (smatch_anchored _ _ anchored_numberRe).
  rewrite (smatch_anchored _ _ anchored_quotedRe).
  assert (Hl : list_ascii_of_string (quotedLiteral q s)
               = q :: (list_ascii_of_string s ++ [q])%list).
  { unfold quotedLiteral. cbn [list_ascii_of_string].
    now rewrite list_ascii_of_string_append. }
  rewrite Hl.
  assert (Hnum : rmatch numberRe
                   (0, q :: (list_ascii_of_string s ++ [q])%list) []
                   (fun cu cs => Some (fst cu, cs)) = None).
  { cbn [numberRe RCat ROpt RLit RPlus rmatch snd fst Nat.eqb].
    destruct (isQuote_cases q Hq) as [-> | ->]; reflexivity. }
  rewrite Hnum.
  assert (Hlen : forall i, i + List.length (list_ascii_of_string s)
                           = i + String.length s)
    by (intros i; now rewrite length_list_ascii).
  assert (Hfuel : List.length (list_ascii_of_string s) + 1
                  < S (List.length (list_ascii_of_string s ++ [q])%list))
    by (rewrite length_app; cbn [List.length]; lia).
  assert (Hqq : Ascii.eqb q q = true) by apply Ascii.eqb_refl.
  assert (Hslice : slice 1 (1 + String.length s) (quotedLiteral q s) = s).
  { unfold slice, quotedLiteral.
    replace (1 + String.length s - 1) with (String.length s) by lia.
    cbn [drop]. apply take_append. }
  destruct (isQuote_cases q Hq) as [-> | ->].
  - (* single quotes: the second alternative *)
    cbn [quotedRe RCat rmatch snd fst Nat.eqb].
    change (Ascii.eqb dquote squote) with false. cbv iota.
    change (Ascii.eqb squote squote) with true. cbv iota.
    rewrite (greedyAny_to_last _ (S (S (String.length s)), [(2, (1, 1 + String.length s))])
               squote [] (list_ascii_of_string s) _ 1 Hfuel).
    + unfold group. cbn [m_caps lookupCap Nat.eqb]. unfold groupOr, group.
      cbn [m_caps lookupCap Nat.eqb]. now rewrite Hslice.
    + cbn [fst snd]. rewrite Hlen.
      change (Ascii.eqb squote squote) with true. cbv iota. reflexivity.
    + reflexivity.
  - cbn [quotedRe RCat rmatch snd fst Nat.eqb].
    change (Ascii.eqb dquote dquote) with true. cbv iota.
    rewrite (greedyAny_to_last _ (S (S (String.length s)), [(1, (1, 1 + String.length s))])
               dquote [] (list_ascii_of_string s) _ 1 Hfuel).
    + unfold group. cbn [m_caps lookupCap Nat.eqb]. now rewrite Hslice.
    + cbn [fst snd]. rewrite Hlen.
      change (Ascii.eqb dquote dquote) with true. cbv iota. reflexivity.
    + reflexivity.
Qed.

(** A text between two double quotes, or between two single quotes,
    evaluates to that text as it stands, in every context: quotes and
    backslashes inside it, line ends and the characters of a path are not
    interpreted. *)
Theorem getValueFromExpr_quoted :
  forall callFn q s ctx,
    isQuote q = true ->
    getValueFromExpr callFn (quotedLiteral q s) ctx = Ok (VString s).
Proof.
  intros callFn q s ctx Hq. unfold getValueFromExpr. now apply quoted_value.
Qed.

Lemma getValueFromExpr_quoted_witness :
  getValueFromExpr noCalls (quotedLiteral squote "it's a.b[0] | x") []
  = Ok (VString "it's a.b[0] | x").
Proof.
  apply (getValueFromExpr_quoted noCalls squote "it's a.b[0] | x" []).
  reflexivity.
Defined.

(** ** Lines, columns and the order of the tokens *)

Lemma lastLine_noNewline (s : string) :
  noChar newline s = true -> lastLine s = s.
Proof. destruct s as [|c r]; intros H; cbn [lastLine]; now rewrite ?H. Qed.

Lemma countLineColFrom_spec (n : nat) :
  forall s l c,
    countLineColFrom s n l c
    = (l + countChar newline (take n s),
       (if noChar newline (take n s) then c else 1)
       + String.length (lastLine (take n s)) + (n - String.length s)).
Proof.
  induction n as [|n IH]; intros s l c.
  - cbn [countLineColFrom take countChar lastLine String.length].
    change (noChar newline EmptyString) with true. cbv iota.
    f_equal; lia.
  - destruct s as [|ch r]; cbn [countLineColFrom].
    + rewrite IH. destruct n; cbn [take countChar lastLine String.length];
        change (noChar newline EmptyString) with true; cbv iota;
        f_equal; lia.
    + cbn [take]. set (t := take n r).
      assert (Hno : noChar newline (String ch t)
                    = negb (Ascii.eqb ch newline) && noChar newline t)
        by reflexivity.
      cbn [countChar lastLine String.length]. rewrite Hno.
      destruct (Ascii.eqb ch newline) eqn:E; rewrite IH; fold t;
        cbn [negb andb].
      * destruct (noChar newline t); f_equal; lia.
      * destruct (noChar newline t) eqn:Et.
        -- rewrite (lastLine_noNewline t Et). cbn [String.length].
           f_equal; lia.
        -- f_equal; lia.
Qed.

(** The position that [countLineCol] gives to an index: the line is one
    more than the number of line feeds before the index, the column one
    more than the number of characters between the last of them and the
    index; an index past the end of the text counts a column for each
    position past it. *)
Theorem countLineCol_line_and_column :
  forall s idx,
    line (countLineCol s idx) = 1 + countChar newline (take idx s) /\
    col (countLineCol s idx)
    = 1 + String.length (lastLine (take idx s)) + (idx - String.length s) /\
    index (countLineCol s idx) = idx.
Proof.
  intros s idx. unfold countLineCol. rewrite countLineColFrom_spec.
  cbn [line col index].
  destruct (noChar newline (take idx s)); repeat split; lia.
Qed.

(** *** The matcher stays inside its input *)

Lemma rmatch_result {R : Type} (r : regex) (cur : cursor) (cs : captures)
    (k : cursor -> captures -> option R) (x : R) :
  rmatch r cur cs k = Some x ->
  exists cur' cs',
    fst cur' <= fst cur + List.length (snd cur) /\ k cur' cs' = Some x.
Proof.
  intros H.
  set (k2 := fun (c' : cursor) (s' : captures) =>
               if fst c' <=? fst cur + List.length (snd cur) then k c' s'
               else None).
  assert (H2 : rmatch r cur cs k2 = Some x).
  { rewrite <- H. apply rmatch_ext. intros cur' cs' [d [Hd ->]].
    unfold k2. cbn [fst].
    replace (fst cur + d <=? fst cur + List.length (snd cur)) with true
      by (symmetry; apply Nat.leb_le; lia).
    reflexivity. }
  apply rmatch_consumes in H2 as [cur' [cs' [_ Hk]]].
  exists cur', cs'. unfold k2 in Hk.
  destruct (fst cur' <=? fst cur + List.length (snd cur)) eqn:E;
    [|discriminate].
  apply Nat.leb_le in E. split; assumption.
Qed.

Lemma rsearch_within (r : regex) (rest : list ascii) :
  forall i m,
    rsearch r i rest = Some m -> m_end m <= i + List.length rest.
Proof.
  induction rest as [|c t IH]; intros i m H; cbn [rsearch] in H.
  - destruct (rmatch r (i, []) [] (fun c cs => Some (fst c, cs)))
      as [[e cs]|] eqn:E; [|discriminate].
    inversion H; subst. cbn [m_end].
    apply rmatch_result in E as [cur' [cs' [H1 H2]]].
    inversion H2; subst. exact H1.
  - destruct (rmatch r (i, c :: t) [] (fun c cs => Some (fst c, cs)))
      as [[e cs]|] eqn:E.
    + inversion H; subst. cbn [m_end].
      apply rmatch_result in E as [cur' [cs' [H1 H2]]].
      inversion H2; subst. exact H1.
    + apply IH in H. cbn [List.length]. lia.
Qed.

Lemma rexec_lexRe_bounds (template : string) (from : nat) (m : rmatched) :
  from <= String.length template ->
  rexec lexRe template from = Some m ->
  from <= m_index m /\ m_index m + 4 <= m_end m
  /\ m_end m <= String.length template.
Proof.
  intros Hf H. unfold rexec in H.
  pose proof (rsearch_bounds _ _ _ _ H) as [H1 H2].
  change (minLen lexRe) with 4 in H2.
  apply rsearch_within in H. rewrite length_skipn, length_list_ascii in H.
  lia.
Qed.

(** *** The tokens of [lex] *)

Lemma posEqb_refl (p : TokenPos) : posEqb p p = true.
Proof. unfold posEqb. now rewrite !Nat.eqb_refl. Qed.

Lemma index_countLineCol (s : string) (i : nat) :
  index (countLineCol s i) = i.
Proof.
  unfold countLineCol. now destruct (countLineColFrom s i 1 1).
Qed.

Lemma prefix_take (n : nat) :
  forall s, String.prefix (take n s) s = true.
Proof.
  induction n as [|n IH]; intros [|c r]; cbn [take String.prefix];
    try reflexivity.
  destruct (ascii_dec c c) as [_|Hn]; [apply IH|now elim Hn].
Qed.

Lemma prefix_refl (s : string) : String.prefix s s = true.
Proof.
  induction s as [|c r IH]; cbn [String.prefix]; [reflexivity|].
  destruct (ascii_dec c c) as [_|Hn]; [exact IH|now elim Hn].
Qed.

Lemma nonEmpty_length (s : string) :
  0 < String.length s -> nonEmpty s = true.
Proof. destruct s; cbn; [lia|reflexivity]. Qed.

Lemma length_take_exact (n : nat) :
  forall s, String.length (take n s) = Nat.min n (String.length s).
Proof.
  induction n as [|n IH]; intros [|c r]; cbn [take String.length Nat.min];
    try reflexivity.
  now rewrite IH.
Qed.

Lemma ascending_snoc (l : list nat) :
  forall lo x,
    ascending lo l = true ->
    Forall (fun y => y < x) l ->
    lo <= x ->
    ascending lo (l ++ [x]) = true.
Proof.
  induction l as [|y t IH]; intros lo x Ha Hall Hlo; cbn [app ascending].
  - rewrite andb_true_r. now apply Nat.leb_le.
  - cbn [ascending] in Ha. apply andb_true_iff in Ha as [Hy Ht].
    rewrite Hy. cbn [andb]. inversion Hall; subst.
    apply IH; [exact Ht|assumption|lia].
Qed.

Lemma lexed_push (template : string) (hi hi' : nat) (tokens : list Token)
    (t : Token) :
  lexed template hi tokens ->
  wellPlaced template t = true ->
  hi <= tokenIndex t ->
  tokenIndex t < hi' ->
  lexed template hi' (tokens ++ [t]).
Proof.
  intros [Hw [Ha Hb]] Ht Hlo Hhi. repeat split.
  - rewrite forallb_app. cbn [forallb]. now rewrite Hw, Ht.
  - rewrite map_app. cbn [map]. apply ascending_snoc; [exact Ha| |lia].
    eapply Forall_impl; [|exact Hb]. cbn. intros; lia.
  - rewrite map_app. cbn [map]. apply Forall_app. split.
    + eapply Forall_impl; [|exact Hb]. cbn. intros; lia.
    + constructor; [exact Hhi|constructor].
Qed.

Lemma lexed_weaken (template : string) (hi hi' : nat) (tokens : list Token) :
  lexed template hi tokens -> hi <= hi' -> lexed template hi' tokens.
Proof.
  intros [Hw [Ha Hb]] Hle. repeat split; try assumption.
  eapply Forall_impl; [|exact Hb]. cbn. intros; lia.
Qed.

Lemma wellPlaced_text (template : string) (a b : nat) :
  a < b ->
  a < String.length template ->
  wellPlaced template
    (mkToken TText (slice a b template) (countLineCol template a)) = true.
Proof.
  intros Hab Ha. unfold wellPlaced. cbn [pos type content].
  rewrite index_countLineCol, posEqb_refl.
  replace (a <? String.length template) with true
    by (symmetry; apply Nat.ltb_lt; exact Ha).
  cbn [andb]. unfold slice, startsWith. rewrite prefix_take, andb_true_r.
  apply nonEmpty_length. rewrite length_take_exact, length_drop. lia.
Qed.

Lemma wellPlaced_rest (template : string) (a : nat) :
  a < String.length template ->
  wellPlaced template
    (mkToken TText (drop a template) (countLineCol template a)) = true.
Proof.
  intros Ha. unfold wellPlaced. cbn [pos type content].
  rewrite index_countLineCol, posEqb_refl.
  replace (a <? String.length template) with true
    by (symmetry; apply Nat.ltb_lt; exact Ha).
  cbn [andb]. unfold startsWith. rewrite prefix_refl, andb_true_r.
  apply nonEmpty_length. rewrite length_drop. lia.
Qed.

Lemma wellPlaced_other (template : string) (ty : TokenType) (c : string)
    (a : nat) :
  ty <> TText ->
  a < String.length template ->
  wellPlaced template (mkToken ty c (countLineCol template a)) = true.
Proof.
  intros Hty Ha. unfold wellPlaced. cbn [pos type content].
  rewrite index_countLineCol, posEqb_refl.
  replace (a <? String.length template) with true
    by (symmetry; apply Nat.ltb_lt; exact Ha).
  destruct ty; [now elim Hty|reflexivity..].
Qed.

Lemma lexLoop_lexed (template : string) (fuel : nat) :
  forall lastIndex tokens,
    lastIndex <= String.length template ->
    lexed template lastIndex tokens ->
    lexed template (String.length template)
      (lexLoop fuel template lastIndex tokens).
Proof.
  assert (Hfinish : forall lastIndex tokens,
             lastIndex <= String.length template ->
             lexed template lastIndex tokens ->
             lexed template (String.length template)
               (if lastIndex <? String.length template then
                  (tokens ++ [mkToken TText (drop lastIndex template)
                                (countLineCol template lastIndex)])%list
                else tokens)).
  { intros lastIndex tokens Hle Hinv.
    destruct (lastIndex <? String.length template) eqn:E.
    - apply Nat.ltb_lt in E.
      apply (lexed_push template lastIndex); try assumption.
      + now apply wellPlaced_rest.
      + unfold tokenIndex. cbn [pos]. rewrite index_countLineCol. lia.
      + unfold tokenIndex. cbn [pos]. now rewrite index_countLineCol.
    - now apply (lexed_weaken template lastIndex). }
  induction fuel as [|fuel IH]; intros lastIndex tokens Hle Hinv;
    cbn [lexLoop]; [now apply Hfinish|].
  destruct (rexec lexRe template lastIndex) as [m|] eqn:E;
    [|now apply Hfinish].
  destruct (rexec_lexRe_bounds template lastIndex m Hle E) as [H1 [H2 H3]].
  cbv zeta.
  assert (Hin1 : lexed template (m_index m)
                   (if lastIndex <? m_index m then
                      (tokens ++ [mkToken TText
                                    (slice lastIndex (m_index m) template)
                                    (countLineCol template lastIndex)])%list
                    else tokens)).
  { destruct (lastIndex <? m_index m) eqn:El.
    - apply Nat.ltb_lt in El.
      apply (lexed_push template lastIndex); try assumption.
      + apply wellPlaced_text; lia.
      + unfold tokenIndex. cbn [pos]. rewrite index_countLineCol. lia.
      + unfold tokenIndex. cbn [pos]. now rewrite index_countLineCol.
    - now apply (lexed_weaken template lastIndex). }
  assert (Hpush : forall ty c,
             ty <> TText ->
             lexed template (m_end m)
               ((if lastIndex <? m_index m then
                   (tokens ++ [mkToken TText
                                 (slice lastIndex (m_index m) template)
                                 (countLineCol template lastIndex)])%list
                 else tokens)
                ++ [mkToken ty c (countLineCol template (m_index m))])%list).
  { intros ty c Hty.
    apply (lexed_push template (m_index m)); try assumption.
    - apply wellPlaced_other; [exact Hty|lia].
    - unfold tokenIndex. cbn [pos]. rewrite index_countLineCol. lia.
    - unfold tokenIndex. cbn [pos]. rewrite index_countLineCol. lia. }
  apply IH; [exact H3|].
  destruct (nonEmptyGroup template m 1); [apply Hpush; discriminate|].
  destruct (nonEmptyGroup template m 3); [apply Hpush; discriminate|].
  destruct (nonEmptyGroup template m 5); [apply Hpush; discriminate|].
  apply (lexed_weaken template (m_index m)); [exact Hin1|lia].
Qed.

(** The tokens of a template are in the order of the text: each lies
    inside the template, at an index greater than the one before, with the
    line and the column of that index, and a text token is never empty and
    holds the text that stands at its index. *)
Theorem lex_tokens_in_order :
  forall template,
    forallb (wellPlaced template) (lex template) = true /\
    ascending 0 (map tokenIndex (lex template)) = true.
Proof.
  intros template. unfold lex.
  destruct (lexLoop_lexed template (S (String.length template)) 0 [])
    as [Hw [Ha _]].
  - lia.
  - repeat split; constructor.
  - split; assumption.
Qed.

(** ** Tests with an operator *)

(** *** Strings *)














(** *** The run of the pattern *)















(** ** The order of values *)

Lemma dbl_eqb_sym (a b : Dbl) : dbl_eqb a b = dbl_eqb b a.
Proof.
  destruct a as [|n1 q1 e1|n1], b as [|n2 q2 e2|n2]; cbn [dbl_eqb];
    try reflexivity.
  - rewrite (Z.eqb_sym q1 q2), (Z.eqb_sym e1 e2). now destruct n1, n2.
  - now destruct n1, n2.
Qed.

Lemma safeCompare_equal (l r : Value) :
  safeCompare l r "=="
  = match l, r with
    | VNumber a, VNumber b => num_eqb a b
    | _, _ => String.eqb (compareText l) (compareText r)
    end.
Proof. destruct l, r; reflexivity. Qed.

(** The operators of a test agree with each other on every pair of
    values, numbers or not: [>] is [<] with the sides exchanged, [>=] is
    [<=] with the sides exchanged, [!=] is the negation of [==], and [==]
    does not depend on the order of its sides. *)
Theorem safeCompare_laws :
  forall l r,
    safeCompare l r ">" = safeCompare r l "<" /\
    safeCompare l r ">=" = safeCompare r l "<=" /\
    safeCompare l r "!=" = negb (safeCompare l r "==") /\
    safeCompare l r "==" = safeCompare r l "==".
Proof.
  intros l r. split; [|split; [|split]].
  - destruct l, r; reflexivity.
  - destruct l, r; reflexivity.
  - destruct l, r; reflexivity.
  - rewrite !safeCompare_equal.
    destruct l, r; try apply String.eqb_sym.
    unfold num_eqb. apply dbl_eqb_sym.
Qed.

(** ** Filters *)

Lemma toLowerChar_idempotent (c : ascii) :
  toLowerChar (toLowerChar c) = toLowerChar c.
Proof. destruct c as [[] [] [] [] [] [] [] []]; reflexivity. Qed.

Lemma toUpperChar_facts (c : ascii) :
  upperLeavesType c = false ->
  upperLeavesType (toUpperChar c) = false
  /\ is_sharp_s (toUpperChar c) = is_sharp_s c
  /\ toUpperChar (toUpperChar c) = toUpperChar c
  /\ (is_sharp_s c = false -> toLowerChar (toUpperChar c) = toLowerChar c).
Proof.
  destruct c as [[] [] [] [] [] [] [] []]; intros H;
    try discriminate H; repeat split; try reflexivity; intros H';
    discriminate H'.
Qed.

Lemma toLowerChar_facts (c : ascii) :
  upperLeavesType (toLowerChar c) = upperLeavesType c
  /\ is_sharp_s (toLowerChar c) = is_sharp_s c
  /\ toUpperChar (toLowerChar c) = toUpperChar c.
Proof. destruct c as [[] [] [] [] [] [] [] []]; repeat split. Qed.

Lemma mapString_compose (f g h : ascii -> ascii) (s : string) :
  (forall c, f (g c) = h c) ->
  mapString f (mapString g s) = mapString h s.
Proof.
  intros H. induction s as [|c r IH]; cbn [mapString]; [reflexivity|].
  now rewrite H, IH.
Qed.

Lemma toUpperCase_idempotent (s : string) :
  forall u, toUpperCase s = Some u -> toUpperCase u = Some u.
Proof.
  induction s as [|c r IH]; intros u H; cbn [toUpperCase] in H.
  - now inversion H.
  - destruct (upperLeavesType c) eqn:Hc; [discriminate|].
    destruct (toUpperCase r) as [r'|]; [|discriminate].
    specialize (IH r' eq_refl).
    destruct (toUpperChar_facts c Hc) as [H1 [H2 [H3 _]]].
    destruct (is_sharp_s c) eqn:Hs; inversion H; subst u.
    + cbn. now rewrite IH.
    + cbn [toUpperCase]. now rewrite H1, IH, H2, H3.
Qed.

Lemma toLowerCase_upper (s : string) :
  forall u,
    toUpperCase s = Some u ->
    allChars (fun c => negb (is_sharp_s c)) s = true ->
    toLowerCase u = toLowerCase s.
Proof.
  induction s as [|c r IH]; intros u H Hs; cbn [toUpperCase] in H.
  - now inversion H.
  - cbn [allChars] in Hs. apply andb_true_iff in Hs as [Hc Hr].
    apply negb_true_iff in Hc.
    destruct (upperLeavesType c) eqn:Hl; [discriminate|].
    destruct (toUpperCase r) as [r'|]; [|discriminate].
    rewrite Hc in H. inversion H; subst u.
    destruct (toUpperChar_facts c Hl) as [_ [_ [_ H4]]].
    unfold toLowerCase in *. cbn [mapString].
    now rewrite (H4 Hc), (IH r' eq_refl Hr).
Qed.

Lemma toUpperCase_lower (s : string) :
  toUpperCase (toLowerCase s) = toUpperCase s.
Proof.
  induction s as [|c r IH]; [reflexivity|].
  unfold toLowerCase in *. cbn [mapString toUpperCase].
  destruct (toLowerChar_facts c) as [H1 [H2 H3]].
  now rewrite H1, H2, H3, IH.
Qed.

(** Applying [upper], [lower] or [safe] a second time changes nothing;
    [upper] after [lower] is [upper]; and [lower] after [upper] is [lower]
    for a string without the sharp s, whose upper case is the two letters
    [SS].  The upper case of a string is followed as long as it holds no
    code unit above 255. *)
Theorem case_filters_idempotent :
  forall v a b,
    rbind (filter_upper v a) (fun u => filter_upper u b) = filter_upper v a /\
    filter_lower (filter_lower v a) b = filter_lower v a /\
    (forall u,
       filter_upper v a = Ok u ->
       sharpFree v = true ->
       filter_lower u b = filter_lower v a) /\
    filter_upper (filter_lower v a) b = filter_upper v a /\
    filter_safe (filter_safe v a) b = filter_safe v a.
Proof.
  intros v a b. unfold filter_upper, filter_lower, filter_safe, sharpFree.
  split; [|split; [|split; [|split]]].
  - destruct v; try reflexivity.
    destruct (toUpperCase s) as [u|] eqn:Hu; [|reflexivity].
    cbn [rbind]. now rewrite (toUpperCase_idempotent s u Hu).
  - destruct v; try reflexivity. f_equal.
    apply mapString_compose, toLowerChar_idempotent.
  - intros u Hu Hs. destruct v; try (now inversion Hu).
    destruct (toUpperCase s) as [w|] eqn:Hw; [|discriminate].
    inversion Hu; subst u. f_equal. now apply toLowerCase_upper.
  - destruct v; try reflexivity. now rewrite toUpperCase_lower.
  - destruct v; reflexivity.
Qed.

Lemma case_filters_idempotent_witness :
  filter_upper (VString "aB") VUndefined = Ok (VString "AB") /\
  filter_lower (VString "AB") VUndefined
  = filter_lower (VString "aB") VUndefined.
Proof.
  split; [reflexivity|].
  destruct (case_filters_idempotent (VString "aB") VUndefined VUndefined)
    as [_ [_ [H _]]].
  apply (H (VString "AB")); reflexivity.
Defined.










(** ** Whole templates *)

Lemma lex_plain (template : string) :
  noChar "}" template = true ->
  lex template
  = match template with
    | EmptyString => []
    | String _ _ => [mkToken TText template (mkPos 1 1 0)]
    end.
Proof.
  intros H. unfold lex. cbn [lexLoop].
  unfold rexec. cbn [skipn].
  rewrite (rsearch_lexRe_none _ (noChar_Forall _ _ H) 0).
  destruct template as [|c r]; reflexivity.
Qed.

(** A template file in which no [}] occurs is rendered as its own text,
    whatever the context, and is in the cache of the loader afterwards. *)
Theorem renderTemplate_plain_text :
  forall callFn readFile fuel p ctx ld text,
    own p (cache ld) = None ->
    readFile (joinPath (dir ld) p) = Some text ->
    noChar "}" text = true ->
    exists ld',
      renderTemplate callFn readFile (S fuel) p ctx ld = (Ok text, ld') /\
      exists tpl, own p (cache ld') = Some tpl /\ src tpl = text.
Proof.
  intros callFn readFile fuel p ctx ld text Hc Hf Hno.
  unfold renderTemplate, bind, load. rewrite Hc, Hf, (lex_plain text Hno).
  destruct text as [|c r].
  - eexists. split; [reflexivity|]. eexists. split;
      [cbn [cache]; apply own_assign_same|reflexivity].
  - eexists. split; [reflexivity|]. eexists. split;
      [cbn [cache]; apply own_assign_same|reflexivity].
Qed.

Lemma renderTemplate_plain_text_witness :
  exists ld',
    renderTemplate noCalls filesPlain 1 "note.txt" [] loader
    = (Ok "a {{ b c {% d", ld') /\
    exists tpl, own "note.txt" (cache ld') = Some tpl
                /\ src tpl = "a {{ b c {% d".
Proof.
  apply (renderTemplate_plain_text noCalls filesPlain 0 "note.txt" [] loader
           "a {{ b c {% d"); reflexivity.
Defined.

(** A template that starts by including itself is never rendered: no
    depth of calls is enough, in any context. *)
Theorem self_include_never_returns :
  forall callFn readFile p tpl ctx ld,
    own p (cache ld) = Some tpl ->
    includesFirst p (ast tpl) = true ->
    noExtends (ast tpl) = true ->
    forall fuel,
      renderNodes callFn readFile fuel (ast tpl) ctx ld = (OutOfFuel, ld).
Proof.
  intros callFn readFile p tpl ctx ld Hc Hi Hn fuel.
  induction fuel as [|f IH]; [reflexivity|].
  cbn [renderNodes].
  pose proof (collectBlocks_noExtends (ast tpl) Hn noBlocks None) as He.
  destruct (collectBlocks (ast tpl) noBlocks None) as [blocks e]. cbn [snd] in He.
  subst e.
  destruct (ast tpl) as [|n rest] eqn:Ea; [discriminate|].
  destruct n as [| | | |q ps| |]; try discriminate.
  cbn [includesFirst] in Hi. apply String.eqb_eq in Hi. subst q.
  cbn [appendEach renderNode]. unfold bind at 1 2. unfold load at 1.
  rewrite Hc, Ea. now rewrite IH.
Qed.

Lemma self_include_never_returns_witness :
  renderNodes noCalls noFiles 1000 [NInclude "a.html" None; NText "x"] []
    loaderSelf
  = (OutOfFuel, loaderSelf).
Proof.
  apply (self_include_never_returns noCalls noFiles "a.html"
           (mkTemplate "a.html" "x{% include 'a.html' %}"
              [NInclude "a.html" None; NText "x"]) [] loaderSelf);
    reflexivity.
Defined.
